(** * Reactive signals: a shallow embedding of [src/mod.ts]

    The engine of [mod.ts] is a heap of three kinds of nodes (Signal,
    Computed, Effect) together with a handful of module-level variables
    (current listener, dependency cursor, batch queue, the two clocks).
    Every function of the module is transcribed below as a state-passing
    computation over that store.  Callbacks supplied by client code
    (compute functions, effect bodies, cleanup functions) are command trees
    over the exported API; they are run by [exec].

    Recursion that goes through the heap or through a stored callback
    (method dispatch on a dependency, the drain loops, a call to a stored
    function) is bounded by a fuel argument: [run fuel] is the table of
    those entry points, and every function body takes that table as its
    first argument. *)

From Stdlib Require Import ZArith List Lia Bool String.
From stdpp Require Import base decidable list strings.
Import ListNotations.
Local Open Scope Z_scope.

(** ** Values and flags *)

(** Values held by signals.  Strict equality [===] is structural equality
    on this type. *)
Inductive value : Type :=
| Undefined
| Num (z : Z)
| Error (msg : string).

#[global] Instance value_eq_dec : EqDecision value.
Proof. solve_decision. Defined.

Definition strict_eq (a b : value) : bool := bool_decide (a = b).

(** [const enum Flags] *)
Definition RUNNING : Z := Z.shiftl 1 0.
Definition DIRTY : Z := Z.shiftl 1 1.
Definition MAYBE_DIRTY : Z := Z.shiftl 1 2.
Definition TRACKING : Z := Z.shiftl 1 3.
Definition NOTIFIED : Z := Z.shiftl 1 4.
Definition DISPOSED : Z := Z.shiftl 1 5.
Definition HAS_ERROR : Z := Z.shiftl 1 6.

(** [flags & mask] read as a JavaScript condition. *)
Definition truthy (z : Z) : bool := negb (z =? 0).

(** ** Client callbacks *)

Definition node_id := nat.

(** The body of a compute function, effect function, cleanup function or
    [untrack]/[batch] callback: a tree of calls to the exported API, each
    with its continuation. *)
Inductive prog : Type :=
| Ret (v : value)
| Throw (v : value)
| Read (s : node_id) (k : value -> prog)
| Peek (s : node_id) (k : value -> prog)
| Write (s : node_id) (v : value) (k : prog)
| OnCleanup (fn : prog) (throws : bool) (k : prog)
| Untrack (cb : prog) (k : value -> prog)
| Batch (cb : prog) (k : prog)
| NewSignal (v : value) (k : node_id -> prog)
| NewComputed (f : value -> prog) (init : value) (k : node_id -> prog)
| NewEffect (f : value -> prog) (init : value) (k : prog).

(** ** The store *)

Inductive Kind : Type := KSignal | KComputed | KEffect.

#[global] Instance Kind_eq_dec : EqDecision Kind.
Proof. solve_decision. Defined.

(** One record for the three classes: [kind] is the class of the object and
    the fields are the union of the fields of [Signal], [Computed] and
    [Effect].  A field that a class does not declare is never read on an
    object of that class. *)
Record Node : Type := mkNode {
  kind : Kind;
  _epoch : Z;
  _access_epoch : Z;
  _dependants : list node_id;
  _value : value;
  _dependencies : list node_id;
  _flags : Z;
  _realm_write_epoch : Z;
  _context_epoch : Z;
  _compute : value -> prog;
  _cleanups : list prog;
  _next_batched_effect : option node_id
}.

Definition with_epoch (v : Z) (n : Node) : Node :=
  mkNode (kind n) v (_access_epoch n) (_dependants n) (_value n)
    (_dependencies n) (_flags n) (_realm_write_epoch n) (_context_epoch n)
    (_compute n) (_cleanups n) (_next_batched_effect n).
Definition with_access_epoch (v : Z) (n : Node) : Node :=
  mkNode (kind n) (_epoch n) v (_dependants n) (_value n)
    (_dependencies n) (_flags n) (_realm_write_epoch n) (_context_epoch n)
    (_compute n) (_cleanups n) (_next_batched_effect n).
Definition with_dependants (v : list node_id) (n : Node) : Node :=
  mkNode (kind n) (_epoch n) (_access_epoch n) v (_value n)
    (_dependencies n) (_flags n) (_realm_write_epoch n) (_context_epoch n)
    (_compute n) (_cleanups n) (_next_batched_effect n).
Definition with_value (v : value) (n : Node) : Node :=
  mkNode (kind n) (_epoch n) (_access_epoch n) (_dependants n) v
    (_dependencies n) (_flags n) (_realm_write_epoch n) (_context_epoch n)
    (_compute n) (_cleanups n) (_next_batched_effect n).
Definition with_dependencies (v : list node_id) (n : Node) : Node :=
  mkNode (kind n) (_epoch n) (_access_epoch n) (_dependants n) (_value n)
    v (_flags n) (_realm_write_epoch n) (_context_epoch n)
    (_compute n) (_cleanups n) (_next_batched_effect n).
Definition with_flags (v : Z) (n : Node) : Node :=
  mkNode (kind n) (_epoch n) (_access_epoch n) (_dependants n) (_value n)
    (_dependencies n) v (_realm_write_epoch n) (_context_epoch n)
    (_compute n) (_cleanups n) (_next_batched_effect n).
Definition with_realm_write_epoch (v : Z) (n : Node) : Node :=
  mkNode (kind n) (_epoch n) (_access_epoch n) (_dependants n) (_value n)
    (_dependencies n) (_flags n) v (_context_epoch n)
    (_compute n) (_cleanups n) (_next_batched_effect n).
Definition with_context_epoch (v : Z) (n : Node) : Node :=
  mkNode (kind n) (_epoch n) (_access_epoch n) (_dependants n) (_value n)
    (_dependencies n) (_flags n) (_realm_write_epoch n) v
    (_compute n) (_cleanups n) (_next_batched_effect n).
Definition with_cleanups (v : list prog) (n : Node) : Node :=
  mkNode (kind n) (_epoch n) (_access_epoch n) (_dependants n) (_value n)
    (_dependencies n) (_flags n) (_realm_write_epoch n) (_context_epoch n)
    (_compute n) v (_next_batched_effect n).
Definition with_next_batched_effect (v : option node_id) (n : Node) : Node :=
  mkNode (kind n) (_epoch n) (_access_epoch n) (_dependants n) (_value n)
    (_dependencies n) (_flags n) (_realm_write_epoch n) (_context_epoch n)
    (_compute n) (_cleanups n) v.

(** The module-level variables, the heap of objects, and three logs that
    the source does not have: [calls] records every invocation of a
    [_compute] function, [dequeued] every effect taken off the batch queue
    by the drain loop, [caught] every error caught by the drain loop.  The
    logs are written, never read, by the functions below; the newest entry
    is at the head. *)
Record State : Type := mkState {
  nodes : list Node;
  eval_listener : option node_id;
  eval_sources_index : nat;
  eval_untracked_sources : option (list node_id);
  batched_effect : option node_id;
  batch_depth : Z;
  batch_iteration : Z;
  write_clock : Z;
  read_clock : Z;
  calls : list node_id;
  dequeued : list node_id;
  caught : list value
}.

Definition with_nodes (v : list Node) (s : State) : State :=
  mkState v (eval_listener s) (eval_sources_index s) (eval_untracked_sources s)
    (batched_effect s) (batch_depth s) (batch_iteration s) (write_clock s)
    (read_clock s) (calls s) (dequeued s) (caught s).
Definition with_eval_listener (v : option node_id) (s : State) : State :=
  mkState (nodes s) v (eval_sources_index s) (eval_untracked_sources s)
    (batched_effect s) (batch_depth s) (batch_iteration s) (write_clock s)
    (read_clock s) (calls s) (dequeued s) (caught s).
Definition with_eval_sources_index (v : nat) (s : State) : State :=
  mkState (nodes s) (eval_listener s) v (eval_untracked_sources s)
    (batched_effect s) (batch_depth s) (batch_iteration s) (write_clock s)
    (read_clock s) (calls s) (dequeued s) (caught s).
Definition with_eval_untracked_sources (v : option (list node_id)) (s : State) : State :=
  mkState (nodes s) (eval_listener s) (eval_sources_index s) v
    (batched_effect s) (batch_depth s) (batch_iteration s) (write_clock s)
    (read_clock s) (calls s) (dequeued s) (caught s).
Definition with_batched_effect (v : option node_id) (s : State) : State :=
  mkState (nodes s) (eval_listener s) (eval_sources_index s) (eval_untracked_sources s)
    v (batch_depth s) (batch_iteration s) (write_clock s)
    (read_clock s) (calls s) (dequeued s) (caught s).
Definition with_batch_depth (v : Z) (s : State) : State :=
  mkState (nodes s) (eval_listener s) (eval_sources_index s) (eval_untracked_sources s)
    (batched_effect s) v (batch_iteration s) (write_clock s)
    (read_clock s) (calls s) (dequeued s) (caught s).
Definition with_batch_iteration (v : Z) (s : State) : State :=
  mkState (nodes s) (eval_listener s) (eval_sources_index s) (eval_untracked_sources s)
    (batched_effect s) (batch_depth s) v (write_clock s)
    (read_clock s) (calls s) (dequeued s) (caught s).
Definition with_write_clock (v : Z) (s : State) : State :=
  mkState (nodes s) (eval_listener s) (eval_sources_index s) (eval_untracked_sources s)
    (batched_effect s) (batch_depth s) (batch_iteration s) v
    (read_clock s) (calls s) (dequeued s) (caught s).
Definition with_read_clock (v : Z) (s : State) : State :=
  mkState (nodes s) (eval_listener s) (eval_sources_index s) (eval_untracked_sources s)
    (batched_effect s) (batch_depth s) (batch_iteration s) (write_clock s)
    v (calls s) (dequeued s) (caught s).
Definition with_calls (v : list node_id) (s : State) : State :=
  mkState (nodes s) (eval_listener s) (eval_sources_index s) (eval_untracked_sources s)
    (batched_effect s) (batch_depth s) (batch_iteration s) (write_clock s)
    (read_clock s) v (dequeued s) (caught s).
Definition with_dequeued (v : list node_id) (s : State) : State :=
  mkState (nodes s) (eval_listener s) (eval_sources_index s) (eval_untracked_sources s)
    (batched_effect s) (batch_depth s) (batch_iteration s) (write_clock s)
    (read_clock s) (calls s) v (caught s).
Definition with_caught (v : list value) (s : State) : State :=
  mkState (nodes s) (eval_listener s) (eval_sources_index s) (eval_untracked_sources s)
    (batched_effect s) (batch_depth s) (batch_iteration s) (write_clock s)
    (read_clock s) (calls s) (dequeued s) v.

(** The state of a freshly loaded module. *)
Definition initial_state : State :=
  mkState [] None 0%nat None None 0 0 0 0 [] [] [].

(** ** Computations *)

(** Why a computation stopped without a JavaScript outcome: the fuel ran
    out, or a method was applied to an object that does not exist or is of
    the wrong class (excluded by the TypeScript types). *)
Inductive Abort : Type := OutOfFuel | Stuck.

(** A computation returns, throws, or stops. *)
Inductive Res (A : Type) : Type :=
| Ok (a : A) (st : State)
| Raise (e : value) (st : State)
| Halt (why : Abort).
Arguments Ok {A} a st.
Arguments Raise {A} e st.
Arguments Halt {A} why.

Definition M (A : Type) : Type := State -> Res A.

Definition ret {A} (a : A) : M A := fun st => Ok a st.
Definition raise {A} (e : value) : M A := fun st => Raise e st.
Definition halt {A} (why : Abort) : M A := fun _ => Halt why.

Definition bind {A B} (m : M A) (f : A -> M B) : M B :=
  fun st =>
    match m st with
    | Ok a st' => f a st'
    | Raise e st' => Raise e st'
    | Halt why => Halt why
    end.

Declare Scope sig_scope.
Delimit Scope sig_scope with sig.
Notation "'let*' x ':=' m 'in' k" := (bind m (fun x => k))
  (at level 10, x name, m at level 100, k at level 200) : sig_scope.
Notation "m ';;' k" := (bind m (fun _ => k))
  (at level 100, k at level 200, right associativity) : sig_scope.
Local Open Scope sig_scope.

(** [try { body } catch (err) { handler err }] *)
Definition try_catch {A} (body : M A) (handler : value -> M A) : M A :=
  fun st =>
    match body st with
    | Ok a st' => Ok a st'
    | Raise e st' => handler e st'
    | Halt why => Halt why
    end.

(** [try { body } finally { fin }]: an error thrown by [fin] replaces the
    outcome of [body]. *)
Definition try_finally {A} (body : M A) (fin : M unit) : M A :=
  fun st =>
    match body st with
    | Ok a st' =>
        match fin st' with
        | Ok _ st'' => Ok a st''
        | Raise e st'' => Raise e st''
        | Halt why => Halt why
        end
    | Raise e st' =>
        match fin st' with
        | Ok _ st'' => Raise e st''
        | Raise e' st'' => Raise e' st''
        | Halt why => Halt why
        end
    | Halt why => Halt why
    end.

Definition get_state : M State := fun st => Ok st st.
Definition modify (f : State -> State) : M unit := fun st => Ok tt (f st).

(** Field access on an object of the heap. *)
Definition lookup (i : node_id) : M Node :=
  fun st => match nodes st !! i with
            | Some n => Ok n st
            | None => Halt Stuck
            end.

(** Field assignment on an object of the heap. *)
Definition update (i : node_id) (f : Node -> Node) : M unit :=
  fun st => match nodes st !! i with
            | Some n => Ok tt (with_nodes (<[i := f n]> (nodes st)) st)
            | None => Halt Stuck
            end.

(** [new C(...)]: the new object is appended to the heap. *)
Definition alloc (n : Node) : M node_id :=
  fun st => Ok (length (nodes st)) (with_nodes (nodes st ++ [n]) st).

(** [for (let i = 0, ilen = l.length; i < ilen; i++) f(l[i])] *)
Fixpoint for_each {A} (l : list A) (f : A -> M unit) : M unit :=
  match l with
  | [] => ret tt
  | x :: l' => f x ;; for_each l' f
  end.

(** ** Array primitives *)

(** [Array.prototype.indexOf]: index of the first occurrence, or -1. *)
Fixpoint indexOf_from (i : Z) (l : list node_id) (x : node_id) : Z :=
  match l with
  | [] => -1
  | y :: l' => if bool_decide (y = x) then i else indexOf_from (i + 1) l' x
  end.
Definition indexOf (l : list node_id) (x : node_id) : Z := indexOf_from 0 l x.

(** [Array.prototype.splice(start, deleteCount)] without inserted items:
    a negative [start] counts from the end of the array. *)
Definition splice (l : list node_id) (start deleteCount : Z) : list node_id :=
  let len := Z.of_nat (length l) in
  let actualStart :=
    if start <? 0 then Z.max (len + start) 0 else Z.min start len in
  let actualDeleteCount := Z.min (Z.max deleteCount 0) (len - actualStart) in
  take (Z.to_nat actualStart) l
    ++ drop (Z.to_nat (actualStart + actualDeleteCount)) l.

(** ** The functions of [mod.ts] *)

(** The entry points reached through the heap: method dispatch on a node
    ([_refresh], [_subscribe], [_unsubscribe], [_notify]), a call to a
    stored callback, and the two [while] loops of [end_batch]. *)
Record Ops : Type := mkOps {
  o_call : prog -> M value;
  o_refresh : node_id -> M bool;
  o_subscribe : node_id -> node_id -> M unit;
  o_unsubscribe : node_id -> node_id -> M unit;
  o_notify : node_id -> Z -> M unit;
  o_drain_wave : option node_id -> option value -> M (option value);
  o_drain : option value -> M (option value)
}.

Section Bodies.

Variable rec : Ops.

(** [start_batch] *)
Definition start_batch : M unit :=
  modify (fun st => with_batch_depth (batch_depth st + 1) st).

(** The loop of [is_stale]. *)
Fixpoint is_stale_loop (target : node_id) (dependencies : list node_id) : M bool :=
  match dependencies with
  | [] => ret false
  | source :: rest =>
      let* s := lookup source in
      let* t := lookup target in
      if _epoch s >? _epoch t then ret true
      else
        let* refreshed := o_refresh rec source in
        if refreshed : bool then ret true
        else is_stale_loop target rest
  end.

(** [is_stale] *)
Definition is_stale (target : node_id) (flags : Z) : M bool :=
  let* t := lookup target in
  let dependencies := _dependencies t in
  if truthy (Z.land flags DIRTY) then ret true
  else if truthy (Z.land flags MAYBE_DIRTY) then is_stale_loop target dependencies
  else ret false.

(** [end_batch].  The two [while] loops are [drain_body] and
    [drain_wave_body] below; the pair [has_error]/[error] is the optional
    value they return. *)
Definition end_batch : M unit :=
  let* st := get_state in
  if batch_depth st >? 1 then
    modify (fun st => with_batch_depth (batch_depth st - 1) st)
  else
    let* acc := o_drain rec None in
    modify (with_batch_iteration 0) ;;
    modify (fun st => with_batch_depth (batch_depth st - 1) st) ;;
    match acc with
    | Some error => raise error
    | None => ret tt
    end.

(** [prune_context_sources] *)
Definition prune_context_sources : M unit :=
  let* st := get_state in
  match eval_listener st with
  | None => halt Stuck
  | Some listener =>
      let* n := lookup listener in
      for_each (_dependencies n) (fun dep => o_unsubscribe rec dep listener)
  end.

(** [cleanup_context].  The cursor [eval_sources_index] only advances past
    an entry of the dependency array, so it never exceeds its length; a
    cursor beyond the array (which would leave holes in it) stops the
    computation. *)
Definition cleanup_context : M unit :=
  let* st := get_state in
  match eval_listener st with
  | None => halt Stuck
  | Some listener =>
      let* n := lookup listener in
      let dependencies := _dependencies n in
      let index := eval_sources_index st in
      if bool_decide (index <= length dependencies)%nat then
        match eval_untracked_sources st with
        | Some untracked =>
            prune_context_sources ;;
            (if (0 <? index)%nat then
               update listener (with_dependencies (take index dependencies ++ untracked))
             else
               update listener (with_dependencies untracked)) ;;
            let* n' := lookup listener in
            if truthy (Z.land (_flags n') TRACKING) then
              for_each (drop index (_dependencies n'))
                (fun dep => o_subscribe rec dep listener)
            else ret tt
        | None =>
            if (index <? length dependencies)%nat then
              prune_context_sources ;;
              update listener (with_dependencies (take index dependencies))
            else ret tt
        end
      else halt Stuck
  end.

(** [dispose_effect], with the call to [cleanup_effect] as a parameter
    (the two functions call each other: [cleanup_effect] calls
    [dispose_effect(effect, false)], which does not call back). *)
Definition dispose_effect_with (cleanup : node_id -> M unit)
    (effect : node_id) (run_cleanup : bool) : M unit :=
  let* n := lookup effect in
  for_each (_dependencies n) (fun dep => o_unsubscribe rec dep effect) ;;
  update effect (with_dependencies []) ;;
  if run_cleanup then cleanup effect else ret tt.

(** [cleanup_effect] *)
Definition cleanup_effect (effect : node_id) : M unit :=
  let* n := lookup effect in
  let cleanups := _cleanups n in
  if (0 <? length cleanups)%nat then
    let* st := get_state in
    let prev_listener := eval_listener st in
    start_batch ;;
    modify (with_eval_listener None) ;;
    try_finally
      (try_catch
         (for_each cleanups (fun fn => o_call rec fn ;; ret tt))
         (fun err =>
            let* n' := lookup effect in
            update effect
              (with_flags (Z.lor (Z.land (_flags n') (Z.lnot RUNNING)) DISPOSED)) ;;
            dispose_effect_with (fun _ => ret tt) effect false ;;
            raise err))
      (update effect (with_cleanups []) ;;
       modify (with_eval_listener prev_listener) ;;
       end_batch)
  else ret tt.

(** [dispose_effect] *)
Definition dispose_effect (effect : node_id) (run_cleanup : bool) : M unit :=
  dispose_effect_with cleanup_effect effect run_cleanup.

(** [Signal._refresh] *)
Definition Signal_refresh (self : node_id) : M bool := ret false.

(** [Signal._subscribe] *)
Definition Signal_subscribe (self target : node_id) : M unit :=
  let* n := lookup self in
  update self (with_dependants (_dependants n ++ [target])).

(** [Signal._unsubscribe] *)
Definition Signal_unsubscribe (self target : node_id) : M unit :=
  let* n := lookup self in
  let dependants := _dependants n in
  let index := indexOf dependants target in
  update self (with_dependants (splice dependants index 1)).

(** [Signal.peek] *)
Definition Signal_peek (self : node_id) : M value :=
  let* n := lookup self in
  ret (_value n).

(** [Signal.value] (getter) *)
Definition Signal_get (self : node_id) : M value :=
  let* st := get_state in
  let* n := lookup self in
  match eval_listener st with
  | Some listener =>
      let* ln := lookup listener in
      if negb (_context_epoch ln =? _access_epoch n) then
        update self (with_access_epoch (_context_epoch ln)) ;;
        match eval_untracked_sources st with
        | Some untracked =>
            modify (with_eval_untracked_sources (Some (untracked ++ [self])))
        | None =>
            if bool_decide (_dependencies ln !! eval_sources_index st = Some self) then
              modify (with_eval_sources_index (S (eval_sources_index st)))
            else
              modify (with_eval_untracked_sources (Some [self]))
        end
      else ret tt
  | None => ret tt
  end ;;
  let* n' := lookup self in
  ret (_value n').

(** [Signal.value] (setter).  [Computed] overrides the accessor with a
    getter only, so the setter exists on plain signals alone. *)
Definition Signal_set (self : node_id) (next : value) : M unit :=
  let* n := lookup self in
  match kind n with
  | KSignal =>
      if negb (strict_eq (_value n) next) then
        modify (fun st => with_write_clock (write_clock st + 1) st) ;;
        let* st := get_state in
        update self (with_epoch (write_clock st)) ;;
        update self (with_value next) ;;
        if batch_iteration st <? 100 then
          let dependants := _dependants n in
          start_batch ;;
          for_each dependants (fun dep => o_notify rec dep DIRTY) ;;
          end_batch
        else ret tt
      else ret tt
  | _ => halt Stuck
  end.

(** [Computed._refresh] *)
Definition Computed_refresh (self : node_id) : M bool :=
  let* n := lookup self in
  let flags := Z.land (_flags n) (Z.lnot NOTIFIED) in
  update self (with_flags flags) ;;
  let* st := get_state in
  if (_realm_write_epoch n =? write_clock st)
     || (Z.land flags (Z.lor (Z.lor TRACKING DIRTY) MAYBE_DIRTY) =? TRACKING)
     || truthy (Z.land flags RUNNING)
  then ret false
  else
    update self
      (with_flags (Z.lor (Z.land (Z.land flags (Z.lnot DIRTY)) (Z.lnot MAYBE_DIRTY)) RUNNING)) ;;
    update self (with_realm_write_epoch (write_clock st)) ;;
    let* fresh :=
      if _epoch n >? -1 then
        let* stale := is_stale self flags in ret (negb stale)
      else ret false in
    if fresh : bool then
      let* n1 := lookup self in
      update self (with_flags (Z.land (_flags n1) (Z.lnot RUNNING))) ;;
      ret false
    else
      let* n1 := lookup self in
      let prev_value := _value n1 in
      let* st1 := get_state in
      let prev_listener := eval_listener st1 in
      let prev_sources := eval_untracked_sources st1 in
      let prev_sources_index := eval_sources_index st1 in
      let* stale :=
        try_catch
          (update self (with_context_epoch (read_clock st1)) ;;
           modify (with_read_clock (read_clock st1 + 1)) ;;
           modify (with_eval_listener (Some self)) ;;
           modify (with_eval_untracked_sources None) ;;
           modify (with_eval_sources_index 0%nat) ;;
           modify (fun st => with_calls (self :: calls st) st) ;;
           let* value := o_call rec (_compute n1 prev_value) in
           let* n2 := lookup self in
           if truthy (Z.land flags HAS_ERROR)
              || negb (strict_eq prev_value value)
              || (_epoch n2 =? -1)
           then
             update self (with_value value) ;;
             update self (with_flags (Z.land (_flags n2) (Z.lnot HAS_ERROR))) ;;
             modify (fun st => with_write_clock (write_clock st + 1) st) ;;
             let* st2 := get_state in
             update self (with_realm_write_epoch (write_clock st2)) ;;
             update self (with_epoch (write_clock st2)) ;;
             ret true
           else ret false)
          (fun err =>
             update self (with_value err) ;;
             let* n2 := lookup self in
             update self (with_flags (Z.lor (_flags n2) HAS_ERROR)) ;;
             modify (fun st => with_write_clock (write_clock st + 1) st) ;;
             let* st2 := get_state in
             update self (with_realm_write_epoch (write_clock st2)) ;;
             update self (with_epoch (write_clock st2)) ;;
             ret true) in
      cleanup_context ;;
      modify (with_eval_listener prev_listener) ;;
      modify (with_eval_untracked_sources prev_sources) ;;
      modify (with_eval_sources_index prev_sources_index) ;;
      let* n3 := lookup self in
      update self (with_flags (Z.land (_flags n3) (Z.lnot RUNNING))) ;;
      ret stale.

(** [Computed._subscribe] *)
Definition Computed_subscribe (self target : node_id) : M unit :=
  let* n := lookup self in
  (if (length (_dependants n) <? 1)%nat then
     let dependencies := _dependencies n in
     update self (with_flags (Z.lor (_flags n) TRACKING)) ;;
     for_each dependencies (fun dep => o_subscribe rec dep self)
   else ret tt) ;;
  Signal_subscribe self target.

(** [Computed._unsubscribe] *)
Definition Computed_unsubscribe (self target : node_id) : M unit :=
  Signal_unsubscribe self target ;;
  let* n := lookup self in
  if (length (_dependants n) <? 1)%nat then
    let dependencies := _dependencies n in
    update self (with_flags (Z.land (_flags n) (Z.lnot TRACKING))) ;;
    for_each dependencies (fun dep => o_unsubscribe rec dep self)
  else ret tt.

(** [Computed._notify] *)
Definition Computed_notify (self : node_id) (flag : Z) : M unit :=
  let* n := lookup self in
  if negb (truthy (Z.land (_flags n) (Z.lor NOTIFIED RUNNING))) then
    let dependants := _dependants n in
    update self (with_flags (Z.lor (_flags n) (Z.lor flag NOTIFIED))) ;;
    for_each dependants (fun dep => o_notify rec dep MAYBE_DIRTY)
  else ret tt.

(** [Computed.peek] *)
Definition Computed_peek (self : node_id) : M value :=
  Computed_refresh self ;;
  let* n := lookup self in
  if truthy (Z.land (_flags n) HAS_ERROR) then raise (_value n)
  else ret (_value n).

(** [Computed.value] (getter) *)
Definition Computed_get (self : node_id) : M value :=
  Computed_refresh self ;;
  let* n := lookup self in
  if truthy (Z.land (_flags n) HAS_ERROR) then
    let* v := Signal_get self in raise v
  else Signal_get self.

(** [Effect._refresh] *)
Definition Effect_refresh (self : node_id) : M unit :=
  let* n := lookup self in
  let flags := _flags n in
  if truthy (Z.land flags RUNNING) then ret tt
  else
    let* st := get_state in
    let prev_listener := eval_listener st in
    let prev_sources := eval_untracked_sources st in
    let prev_sources_index := eval_sources_index st in
    try_finally
      (start_batch ;;
       modify (with_eval_listener (Some self)) ;;
       modify (with_eval_untracked_sources None) ;;
       modify (with_eval_sources_index 0%nat) ;;
       let* st1 := get_state in
       update self (with_epoch (write_clock st1)) ;;
       update self (with_context_epoch (read_clock st1)) ;;
       modify (with_read_clock (read_clock st1 + 1)) ;;
       update self
         (with_flags (Z.lor (Z.land (Z.land flags (Z.lnot DIRTY)) (Z.lnot MAYBE_DIRTY)) RUNNING)) ;;
       let* n1 := lookup self in
       modify (fun st => with_calls (self :: calls st) st) ;;
       let* value := o_call rec (_compute n1 (_value n1)) in
       update self (with_value value))
      (cleanup_context ;;
       modify (with_eval_listener prev_listener) ;;
       modify (with_eval_untracked_sources prev_sources) ;;
       modify (with_eval_sources_index prev_sources_index) ;;
       let* n2 := lookup self in
       let flags2 := Z.land (_flags n2) (Z.lnot RUNNING) in
       update self (with_flags flags2) ;;
       (if truthy (Z.land flags2 DISPOSED) then dispose_effect self true
        else ret tt) ;;
       end_batch).

(** [Effect._notify] *)
Definition Effect_notify (self : node_id) (flag : Z) : M unit :=
  let* n := lookup self in
  if negb (truthy (Z.land (_flags n) (Z.lor NOTIFIED RUNNING))) then
    update self (with_flags (Z.lor (_flags n) (Z.lor flag NOTIFIED))) ;;
    let* st := get_state in
    update self (with_next_batched_effect (batched_effect st)) ;;
    modify (with_batched_effect (Some self))
  else ret tt.

(** [Effect._dispose] *)
Definition Effect_dispose (self : node_id) : M unit :=
  let* n := lookup self in
  let flags := Z.lor (_flags n) DISPOSED in
  update self (with_flags flags) ;;
  if negb (truthy (Z.land flags RUNNING)) then dispose_effect self true
  else ret tt.

(** The drain of [end_batch]: the body of the inner [while] loop for one
    effect of the wave, followed by the rest of the wave.  The pair
    [has_error]/[error] of the source is the accumulator [acc]. *)
Definition drain_wave_body (effect : option node_id) (acc : option value)
    : M (option value) :=
  match effect with
  | None => ret acc
  | Some e =>
      let* n := lookup e in
      let next := _next_batched_effect n in
      let flags := Z.land (_flags n) (Z.lnot NOTIFIED) in
      update e (with_flags flags) ;;
      update e (with_next_batched_effect None) ;;
      modify (fun st => with_dequeued (e :: dequeued st) st) ;;
      let* acc' :=
        if negb (truthy (Z.land flags DISPOSED)) then
          let* stale := is_stale e flags in
          if stale : bool then
            try_catch (Effect_refresh e ;; ret acc)
              (fun err =>
                 modify (fun st => with_caught (err :: caught st) st) ;;
                 ret (match acc with
                      | None => Some err
                      | Some _ => acc
                      end))
          else ret acc
        else ret acc in
      o_drain_wave rec next acc'
  end.

(** The outer [while] loop of [end_batch]. *)
Definition drain_body (acc : option value) : M (option value) :=
  let* st := get_state in
  match batched_effect st with
  | None => ret acc
  | Some e =>
      modify (with_batched_effect None) ;;
      modify (fun st => with_batch_iteration (batch_iteration st + 1) st) ;;
      let* acc' := o_drain_wave rec (Some e) acc in
      o_drain rec acc'
  end.


(** Method dispatch on the class of the receiver. *)
Definition refresh (self : node_id) : M bool :=
  let* n := lookup self in
  match kind n with
  | KSignal => Signal_refresh self
  | KComputed => Computed_refresh self
  | KEffect => halt Stuck
  end.

Definition subscribe (self target : node_id) : M unit :=
  let* n := lookup self in
  match kind n with
  | KSignal => Signal_subscribe self target
  | KComputed => Computed_subscribe self target
  | KEffect => halt Stuck
  end.

Definition unsubscribe (self target : node_id) : M unit :=
  let* n := lookup self in
  match kind n with
  | KSignal => Signal_unsubscribe self target
  | KComputed => Computed_unsubscribe self target
  | KEffect => halt Stuck
  end.

Definition notify (self : node_id) (flag : Z) : M unit :=
  let* n := lookup self in
  match kind n with
  | KSignal => halt Stuck
  | KComputed => Computed_notify self flag
  | KEffect => Effect_notify self flag
  end.

Definition peek (self : node_id) : M value :=
  let* n := lookup self in
  match kind n with
  | KSignal => Signal_peek self
  | KComputed => Computed_peek self
  | KEffect => halt Stuck
  end.

Definition get_value (self : node_id) : M value :=
  let* n := lookup self in
  match kind n with
  | KSignal => Signal_get self
  | KComputed => Computed_get self
  | KEffect => halt Stuck
  end.

(** ** The exported functions *)

(** [new Signal(value)] and [signal] *)
Definition signal (value : value) : M node_id :=
  alloc (mkNode KSignal (-1) (-1) [] value [] 0 (-1) (-1) (fun v => Ret v) [] None).

(** [new Computed(compute, initialValue)] and [computed] *)
Definition computed (fn : value -> prog) (value : value) : M node_id :=
  alloc (mkNode KComputed (-1) (-1) [] value [] DIRTY (-1) (-1) fn [] None).

(** [effect] *)
Definition effect (fn : value -> prog) (value : value) : M unit :=
  let* instance :=
    alloc (mkNode KEffect (-1) (-1) [] value [] TRACKING (-1) (-1) fn [] None) in
  try_catch (Effect_refresh instance)
    (fun err => Effect_dispose instance ;; raise err).

(** [cleanup] *)
Definition cleanup (fn : prog) (throws : bool) : M unit :=
  let* st := get_state in
  let outside :=
    if throws then raise (Error "Cleanup function called outside of effect")
    else ret tt in
  match eval_listener st with
  | Some listener =>
      let* n := lookup listener in
      match kind n with
      | KEffect => update listener (with_cleanups (_cleanups n ++ [fn]))
      | _ => outside
      end
  | None => outside
  end.

(** [untrack] *)
Definition untrack {A} (callback : M A) : M A :=
  let* st := get_state in
  match eval_listener st with
  | None => callback
  | Some prev_listener =>
      modify (with_eval_listener None) ;;
      try_finally callback (modify (with_eval_listener (Some prev_listener)))
  end.

(** [batch] *)
Definition batch {A} (callback : M A) : M A :=
  let* st := get_state in
  if batch_depth st >? 0 then callback
  else
    start_batch ;;
    try_finally callback end_batch.

(** Running a callback: each command is the call it names. *)
Fixpoint exec (p : prog) : M value :=
  match p with
  | Ret v => ret v
  | Throw v => raise v
  | Read s k => let* v := get_value s in exec (k v)
  | Peek s k => let* v := peek s in exec (k v)
  | Write s v k => Signal_set s v ;; exec k
  | OnCleanup fn throws k => cleanup fn throws ;; exec k
  | Untrack cb k => let* v := untrack (exec cb) in exec (k v)
  | Batch cb k => batch (exec cb) ;; exec k
  | NewSignal v k => let* s := signal v in exec (k s)
  | NewComputed f init k => let* c := computed f init in exec (k c)
  | NewEffect f init k => effect f init ;; exec k
  end.

End Bodies.

(** The table of entry points with [fuel] nested calls left. *)
Fixpoint run (fuel : nat) : Ops :=
  match fuel with
  | O =>
      mkOps (fun _ => halt OutOfFuel) (fun _ => halt OutOfFuel)
        (fun _ _ => halt OutOfFuel) (fun _ _ => halt OutOfFuel)
        (fun _ _ => halt OutOfFuel) (fun _ _ => halt OutOfFuel)
        (fun _ => halt OutOfFuel)
  | S fuel' =>
      let rec := run fuel' in
      mkOps (exec rec) (refresh rec) (subscribe rec) (unsubscribe rec)
        (notify rec) (drain_wave_body rec) (drain_body rec)
  end.


(** ** Vocabulary of the statements *)

(** The walk of [is_stale] over the dependencies of [target], in the words
    of the specification: [newer] is "dep.w_epoch > listener.w_epoch",
    [dep_stale] is "the walk stops at this dependency" (its epoch is newer,
    or else its refresh returned true), and [walk_clean] is "the walk passes
    over all of these dependencies" (none is newer, each refresh returned
    false). *)
Definition newer (source target : node_id) (st : State) : Prop :=
  exists s t, nodes st !! source = Some s /\ nodes st !! target = Some t
              /\ _epoch s > _epoch t.

Definition not_newer (source target : node_id) (st : State) : Prop :=
  exists s t, nodes st !! source = Some s /\ nodes st !! target = Some t
              /\ _epoch s <= _epoch t.

Definition dep_stale (rec : Ops) (target dep : node_id) (st st' : State) : Prop :=
  (newer dep target st /\ st' = st)
  \/ (not_newer dep target st /\ o_refresh rec dep st = Ok true st').

Inductive walk_clean (rec : Ops) (target : node_id)
  : list node_id -> State -> State -> Prop :=
| walk_clean_nil st : walk_clean rec target [] st st
| walk_clean_cons dep rest st st' st'' :
    not_newer dep target st ->
    o_refresh rec dep st = Ok false st' ->
    walk_clean rec target rest st' st'' ->
    walk_clean rec target (dep :: rest) st st''.

(** Reading a field of an object of the heap. *)
Definition field {A} (f : Node -> A) (i : node_id) (st : State) : option A :=
  f <$> nodes st !! i.

(** The state reached by a computation, when it returns or throws. *)
Definition final_state {A} (r : Res A) : option State :=
  match r with
  | Ok _ st => Some st
  | Raise _ st => Some st
  | Halt _ => None
  end.

(** ** Example stores *)

(** End of the second run of an effect (object 3) whose first run read the
    signals 0 and 1 and whose second run read 0 and then 2: the cursor
    stands after the kept entry 0 and the buffer holds the new entry 2. *)
Definition reconcile_example : State :=
  mkState
    [ mkNode KSignal 1 1 [3%nat] (Num 0) [] 0 (-1) (-1) (fun v => Ret v) [] None;
      mkNode KSignal (-1) 0 [3%nat] (Num 10) [] 0 (-1) (-1) (fun v => Ret v) [] None;
      mkNode KSignal (-1) 1 [] (Num 20) [] 0 (-1) (-1) (fun v => Ret v) [] None;
      mkNode KEffect 1 (-1) [] (Num 20) [0%nat; 1%nat] (Z.lor TRACKING RUNNING)
        (-1) 1 (fun v => Ret v) [] None ]
    (Some 3%nat) 1%nat (Some [2%nat]) None 2 1 1 2 [3%nat; 3%nat] [3%nat] [].

(** A client program that reaches that point and goes on: the effect reads
    [cond] and then [x] or [y]; [cond] is written twice. *)
Definition reconcile_program : prog :=
  NewSignal (Num 1) (fun cond =>
  NewSignal (Num 10) (fun x =>
  NewSignal (Num 20) (fun y =>
  NewEffect
    (fun _ => Read cond (fun c =>
       if bool_decide (c = Num 1) then Read x (fun v => Ret v)
       else Read y (fun v => Ret v)))
    Undefined
    (Write cond (Num 0) (Write cond (Num 1) (Ret Undefined)))))).

(** A signal with two subscribers. *)
Definition unsubscribe_example : State :=
  mkState
    [ mkNode KSignal (-1) (-1) [1%nat; 2%nat] (Num 0) [] 0 (-1) (-1)
        (fun v => Ret v) [] None ]
    None 0%nat None None 0 0 0 0 [] [] [].


(** * Reasoning about computations *)

(** [wp m st Q E]: if [m] returns from [st], the result and final state
    satisfy [Q]; if it throws, the error and final state satisfy [E]. *)
Definition wp {A} (m : M A) (st : State)
    (Q : A -> State -> Prop) (E : value -> State -> Prop) : Prop :=
  match m st with
  | Ok a st' => Q a st'
  | Raise e st' => E e st'
  | Halt _ => True
  end.

(** [wpt m st Q E]: [m] does return or throw from [st] (it does not stop),
    and the outcome satisfies [Q] or [E]. *)
Definition wpt {A} (m : M A) (st : State)
    (Q : A -> State -> Prop) (E : value -> State -> Prop) : Prop :=
  match m st with
  | Ok a st' => Q a st'
  | Raise e st' => E e st'
  | Halt _ => False
  end.

(** The outcome of a computation, without the state. *)
Definition outcome {A} (r : Res A) : option (A + value) :=
  match r with
  | Ok a _ => Some (inl a)
  | Raise e _ => Some (inr e)
  | Halt _ => None
  end.

(** ** What a call leaves in place *)

(** [gfr k st st']: the module-level variables after a computation, against
    those before it.  The batch depth has grown by at least [k]; the current
    listener is the same; when there is no current listener the dependency
    buffer and the cursor are the same; the write clock has not gone back;
    no object has left the heap. *)
Definition gfr (k : Z) (st st' : State) : Prop :=
  batch_depth st + k <= batch_depth st'
  /\ eval_listener st' = eval_listener st
  /\ (eval_listener st = None ->
      eval_untracked_sources st' = eval_untracked_sources st
      /\ eval_sources_index st' = eval_sources_index st)
  /\ write_clock st <= write_clock st'
  /\ (length (nodes st) <= length (nodes st'))%nat.

(** [quiet st st']: the drain loop did not run in between. *)
Definition quiet (st st' : State) : Prop :=
  caught st' = caught st /\ dequeued st' = dequeued st.

(** What every call made from client code guarantees: [gfr 0], and no
    drain when the call is made inside a batch. *)
Definition calm (st st' : State) : Prop :=
  gfr 0 st st' /\ (1 <= batch_depth st -> quiet st st').

(** The guarantees of the table of entry points. *)
Record ops_calm (rec : Ops) : Prop := mk_ops_calm {
  calm_call : forall p st,
    wp (o_call rec p) st (fun _ st' => calm st st') (fun _ st' => calm st st');
  calm_refresh : forall i st,
    wp (o_refresh rec i) st (fun _ st' => calm st st') (fun _ _ => False);
  calm_subscribe : forall i t st,
    wp (o_subscribe rec i t) st (fun _ st' => calm st st') (fun _ _ => False);
  calm_unsubscribe : forall i t st,
    wp (o_unsubscribe rec i t) st (fun _ st' => calm st st') (fun _ _ => False);
  calm_notify : forall i f st,
    wp (o_notify rec i f) st (fun _ st' => calm st st') (fun _ _ => False);
  calm_drain_wave : forall e acc st,
    wp (o_drain_wave rec e acc) st (fun _ st' => gfr 0 st st') (fun _ _ => False);
  calm_drain : forall acc st,
    wp (o_drain rec acc) st (fun _ st' => gfr 0 st st') (fun _ _ => False)
}.

(** [first_caught acc before now]: the accumulator of the drain holds the
    oldest of the errors caught since the log was [before], or nothing when
    none has been caught. *)
Definition first_caught (acc : option value) (before now : list value) : Prop :=
  match acc with
  | None => now = before
  | Some e => exists later, now = later ++ e :: before
  end.

(** ** Objects that a call cannot disturb *)

(** [protected P i st]: the object [i] exists and satisfies [P]. *)
Definition protected (P : Node -> Prop) (i : node_id) (st : State) : Prop :=
  exists n, nodes st !! i = Some n /\ P n.

(** An effect waiting on the batch queue: it is flagged [NOTIFIED] and its
    link to the next queued effect is [next]. *)
Definition is_queued (next : option node_id) (n : Node) : Prop :=
  kind n = KEffect
  /\ truthy (Z.land (_flags n) NOTIFIED) = true
  /\ _next_batched_effect n = next.

(** [held k e next st]: we are at least [k] batches deep and the effect [e]
    waits on the queue with link [next]. *)
Definition held (k : Z) (e : node_id) (next : option node_id) (st : State) : Prop :=
  k <= batch_depth st /\ protected (is_queued next) e st.

(** Inside a batch, no call made from client code disturbs a queued effect. *)
Record ops_hold (rec : Ops) : Prop := mk_ops_hold {
  hold_call : forall k e nx p st, held k e nx st -> 1 <= k ->
    wp (o_call rec p) st (fun _ st' => held k e nx st') (fun _ st' => held k e nx st');
  hold_refresh : forall k e nx i st, held k e nx st -> 1 <= k ->
    wp (o_refresh rec i) st (fun _ st' => held k e nx st') (fun _ st' => held k e nx st');
  hold_subscribe : forall k e nx i t st, held k e nx st -> 1 <= k ->
    wp (o_subscribe rec i t) st (fun _ st' => held k e nx st') (fun _ st' => held k e nx st');
  hold_unsubscribe : forall k e nx i t st, held k e nx st -> 1 <= k ->
    wp (o_unsubscribe rec i t) st (fun _ st' => held k e nx st') (fun _ st' => held k e nx st');
  hold_notify : forall k e nx i f st, held k e nx st -> 1 <= k ->
    wp (o_notify rec i f) st (fun _ st' => held k e nx st') (fun _ st' => held k e nx st')
}.

(** [wave st head l]: following the links [_next_batched_effect] from
    [head] visits exactly the effects of [l], in that order, each of them
    flagged [NOTIFIED], none of them twice. *)
Inductive wave (st : State) : option node_id -> list node_id -> Prop :=
| wave_nil : wave st None []
| wave_cons e next l :
    protected (is_queued next) e st ->
    e ∉ l ->
    wave st next l ->
    wave st (Some e) (e :: l).

(** An effect that [_notify] will accept: neither notified nor running. *)
Definition idle_effect (e : node_id) (st : State) : Prop :=
  exists n, nodes st !! e = Some n /\ kind n = KEffect
            /\ truthy (Z.land (_flags n) (Z.lor NOTIFIED RUNNING)) = false.

(** ** What subscribing and unsubscribing may change *)

(** [sub_only deps n n']: the node [n'] is [n] up to its dependants array
    and its [TRACKING] flag, and also up to its dependency array when
    [deps] is true. *)
Definition sub_only (deps : bool) (n n' : Node) : Prop :=
  kind n' = kind n
  /\ _epoch n' = _epoch n
  /\ _access_epoch n' = _access_epoch n
  /\ _value n' = _value n
  /\ (deps = false -> _dependencies n' = _dependencies n)
  /\ Z.lor (_flags n') TRACKING = Z.lor (_flags n) TRACKING
  /\ _realm_write_epoch n' = _realm_write_epoch n
  /\ _context_epoch n' = _context_epoch n
  /\ _compute n' = _compute n
  /\ _cleanups n' = _cleanups n
  /\ _next_batched_effect n' = _next_batched_effect n.

(** The module-level variables (and the logs) are the same. *)
Definition same_globals (st st' : State) : Prop :=
  eval_listener st' = eval_listener st
  /\ eval_sources_index st' = eval_sources_index st
  /\ eval_untracked_sources st' = eval_untracked_sources st
  /\ batched_effect st' = batched_effect st
  /\ batch_depth st' = batch_depth st
  /\ batch_iteration st' = batch_iteration st
  /\ write_clock st' = write_clock st
  /\ read_clock st' = read_clock st
  /\ calls st' = calls st
  /\ dequeued st' = dequeued st
  /\ caught st' = caught st.

(** [subs owner st st']: from [st] to [st'] only subscriptions changed:
    every object is still there, the same up to [sub_only]; the dependency
    array may differ for [owner] alone. *)
Definition subs (owner : option node_id) (st st' : State) : Prop :=
  same_globals st st'
  /\ length (nodes st') = length (nodes st)
  /\ forall i n, nodes st !! i = Some n ->
       exists n', nodes st' !! i = Some n'
                  /\ sub_only (bool_decide (owner = Some i)) n n'.

Record ops_subs (rec : Ops) : Prop := mk_ops_subs {
  subs_subscribe : forall st0 i t st, subs None st0 st ->
    wp (o_subscribe rec i t) st (fun _ st' => subs None st0 st') (fun _ _ => False);
  subs_unsubscribe : forall st0 i t st, subs None st0 st ->
    wp (o_unsubscribe rec i t) st (fun _ st' => subs None st0 st') (fun _ _ => False)
}.

(** ** A computed signal whose compute function is running *)

(** What is on record about a computed signal while it runs: its staleness
    flags, its error flag, its epoch and its cached value. *)
Record Snapshot : Type := mkSnapshot {
  snap_dirty : bool;
  snap_maybe_dirty : bool;
  snap_has_error : bool;
  snap_epoch : Z;
  snap_value : value
}.

Definition is_running (s : Snapshot) (n : Node) : Prop :=
  kind n = KComputed
  /\ truthy (Z.land (_flags n) RUNNING) = true
  /\ truthy (Z.land (_flags n) DIRTY) = snap_dirty s
  /\ truthy (Z.land (_flags n) MAYBE_DIRTY) = snap_maybe_dirty s
  /\ truthy (Z.land (_flags n) HAS_ERROR) = snap_has_error s
  /\ _epoch n = snap_epoch s
  /\ _value n = snap_value s.

(** Number of invocations of the compute function of [c] so far. *)
Definition compute_count (c : node_id) (st : State) : nat :=
  count_occ Nat.eq_dec (calls st) c.

(** [guarded c s k st]: the computed signal [c] is running, as recorded in
    [s], and its compute function has been invoked [k] times. *)
Definition guarded (c : node_id) (s : Snapshot) (k : nat) (st : State) : Prop :=
  protected (is_running s) c st /\ compute_count c st = k.

(** No call disturbs a running computed signal, nor invokes its compute
    function again. *)
Record ops_guard (rec : Ops) : Prop := mk_ops_guard {
  guard_call : forall c s k p st, guarded c s k st ->
    wp (o_call rec p) st (fun _ st' => guarded c s k st') (fun _ st' => guarded c s k st');
  guard_refresh : forall c s k i st, guarded c s k st ->
    wp (o_refresh rec i) st (fun _ st' => guarded c s k st') (fun _ st' => guarded c s k st');
  guard_subscribe : forall c s k i t st, guarded c s k st ->
    wp (o_subscribe rec i t) st (fun _ st' => guarded c s k st') (fun _ st' => guarded c s k st');
  guard_unsubscribe : forall c s k i t st, guarded c s k st ->
    wp (o_unsubscribe rec i t) st (fun _ st' => guarded c s k st') (fun _ st' => guarded c s k st');
  guard_notify : forall c s k i f st, guarded c s k st ->
    wp (o_notify rec i f) st (fun _ st' => guarded c s k st') (fun _ st' => guarded c s k st');
  guard_drain_wave : forall c s k e acc st, guarded c s k st ->
    wp (o_drain_wave rec e acc) st (fun _ st' => guarded c s k st') (fun _ st' => guarded c s k st');
  guard_drain : forall c s k acc st, guarded c s k st ->
    wp (o_drain rec acc) st (fun _ st' => guarded c s k st') (fun _ st' => guarded c s k st')
}.

(** ** Reading a computed signal repeatedly *)

(** A read of a computed signal: [c.value] when [tracked], else [c.peek()]. *)
Definition read (rec : Ops) (tracked : bool) (c : node_id) : M value :=
  if tracked then Computed_get rec c else Computed_peek rec c.

(** A sequence of reads, one after the other with nothing in between: the
    outcomes (returned value or thrown error) and the final state. *)
Fixpoint reads (rec : Ops) (c : node_id) (kinds : list bool) (st : State)
  : option (list (value + value) * State) :=
  match kinds with
  | [] => Some ([], st)
  | tracked :: rest =>
      match read rec tracked c st with
      | Ok v st' =>
          match reads rec c rest st' with
          | Some (os, st'') => Some (inl v :: os, st'')
          | None => None
          end
      | Raise e st' =>
          match reads rec c rest st' with
          | Some (os, st'') => Some (inr e :: os, st'')
          | None => None
          end
      | Halt _ => None
      end
  end.

(** The current listener, when there is one, is an object of the heap. *)
Definition listener_ok (st : State) : Prop :=
  forall l, eval_listener st = Some l -> is_Some (nodes st !! l).

(** A computed signal that its next refresh will not recompute: one of the
    three early exits of [_refresh] applies, or it has been computed and
    carries no staleness flag. *)
Definition settled_node (n : Node) (clock : Z) : Prop :=
  let flags := Z.land (_flags n) (Z.lnot NOTIFIED) in
  _realm_write_epoch n = clock
  \/ Z.land flags (Z.lor (Z.lor TRACKING DIRTY) MAYBE_DIRTY) = TRACKING
  \/ truthy (Z.land flags RUNNING) = true
  \/ (-1 < _epoch n
      /\ truthy (Z.land (_flags n) DIRTY) = false
      /\ truthy (Z.land (_flags n) MAYBE_DIRTY) = false).

(** [at_rest c v h k st]: the computed signal [c] is settled, caches [v],
    is in error state iff [h], and has been computed [k] times. *)
Definition at_rest (c : node_id) (v : value) (h : bool) (k : nat) (st : State) : Prop :=
  (exists n, nodes st !! c = Some n /\ kind n = KComputed
             /\ settled_node n (write_clock st)
             /\ _value n = v
             /\ truthy (Z.land (_flags n) HAS_ERROR) = h)
  /\ compute_count c st = k
  /\ listener_ok st.

(** A computed signal that has been computed and carries no staleness
    flag. *)
Definition clean (c : node_id) (st : State) : Prop :=
  exists n, nodes st !! c = Some n /\ kind n = KComputed
            /\ truthy (Z.land (_flags n) DIRTY) = false
            /\ truthy (Z.land (_flags n) MAYBE_DIRTY) = false
            /\ -1 < _epoch n.

(** A computed signal that its next refresh will not recompute. *)
Definition settled (c : node_id) (st : State) : Prop :=
  exists n, nodes st !! c = Some n /\ kind n = KComputed
            /\ settled_node n (write_clock st).

(** ** Program points of [Computed._refresh] *)

(** The condition of the early return of [_refresh]. *)
Definition exits_early (n : Node) (clock : Z) : bool :=
  let flags := Z.land (_flags n) (Z.lnot NOTIFIED) in
  (_realm_write_epoch n =? clock)
  || (Z.land flags (Z.lor (Z.lor TRACKING DIRTY) MAYBE_DIRTY) =? TRACKING)
  || truthy (Z.land flags RUNNING).

(** The state right after the early return was not taken: [NOTIFIED],
    [DIRTY] and [MAYBE_DIRTY] are cleared, [RUNNING] is set, and
    [_realm_write_epoch] holds the write clock. *)
Definition mark_running (c : node_id) (n : Node) (st : State) : State :=
  let flags := Z.land (_flags n) (Z.lnot NOTIFIED) in
  with_nodes
    (<[c := with_realm_write_epoch (write_clock st)
              (with_flags
                 (Z.lor (Z.land (Z.land flags (Z.lnot DIRTY)) (Z.lnot MAYBE_DIRTY))
                    RUNNING) n)]> (nodes st)) st.

(** The state in which the compute function is called: the read clock has
    ticked, the signal is the current listener, the dependency buffer is
    empty and the cursor at 0. *)
Definition enter_compute (c : node_id) (n1 : Node) (st1 : State) : State :=
  with_calls (c :: calls st1)
    (with_eval_sources_index 0%nat
       (with_eval_untracked_sources None
          (with_eval_listener (Some c)
             (with_read_clock (read_clock st1 + 1)
                (with_nodes (<[c := with_context_epoch (read_clock st1) n1]> (nodes st1))
                   st1))))).

(** What a call came to: a returned value ([inl]) or a thrown one ([inr]). *)
Definition result {A} (o : A + value) (st : State) : Res A :=
  match o with
  | inl a => Ok a st
  | inr e => Raise e st
  end.

Definition payload (o : value + value) : value :=
  match o with
  | inl v => v
  | inr e => e
  end.

Definition throws (o : value + value) : bool :=
  match o with
  | inl _ => false
  | inr _ => true
  end.

(** ** Reads that are not tracked *)

(** The tracking context (the current listener, its dependency buffer and
    its cursor) is the same in both states. *)
Definition same_tracking (st st' : State) : Prop :=
  eval_listener st' = eval_listener st
  /\ eval_untracked_sources st' = eval_untracked_sources st
  /\ eval_sources_index st' = eval_sources_index st.

(** [_refresh] leaves the tracking context of its caller alone. *)
Definition ops_keep (rec : Ops) : Prop :=
  forall i st,
    wp (o_refresh rec i) st (fun _ st' => same_tracking st st') (fun _ _ => False).

(** ** The log of invocations *)

(** [grows st st']: every invocation of a compute function or effect
    function on record in [st] is still on record in [st'], later ones
    being added in front. *)
Definition grows (st st' : State) : Prop := calls st `suffix_of` calls st'.

Record ops_grows (rec : Ops) : Prop := mk_ops_grows {
  grows_call : forall p st,
    wp (o_call rec p) st (fun _ st' => grows st st') (fun _ st' => grows st st');
  grows_refresh : forall i st,
    wp (o_refresh rec i) st (fun _ st' => grows st st') (fun _ st' => grows st st');
  grows_subscribe : forall i t st,
    wp (o_subscribe rec i t) st (fun _ st' => grows st st') (fun _ st' => grows st st');
  grows_unsubscribe : forall i t st,
    wp (o_unsubscribe rec i t) st (fun _ st' => grows st st') (fun _ st' => grows st st');
  grows_notify : forall i f st,
    wp (o_notify rec i f) st (fun _ st' => grows st st') (fun _ st' => grows st st');
  grows_drain_wave : forall e acc st,
    wp (o_drain_wave rec e acc) st (fun _ st' => grows st st') (fun _ st' => grows st st');
  grows_drain : forall acc st,
    wp (o_drain rec acc) st (fun _ st' => grows st st') (fun _ st' => grows st st')
}.

(** ** Dependency graphs without cycles *)

(** [lower rank st owner d]: [d] is a signal or a computed signal of the
    heap, and it ranks below [owner]. *)
Definition lower (rank : node_id -> nat) (st : State) (owner d : node_id) : Prop :=
  (rank d < rank owner)%nat
  /\ exists m, nodes st !! d = Some m /\ kind m <> KEffect.

(** Every object ranks above each entry of its dependency array: following
    the dependency arrays never comes back to an object. *)
Definition acyclic (rank : node_id -> nat) (st : State) : Prop :=
  forall i n d, nodes st !! i = Some n -> d ∈ _dependencies n -> lower rank st i d.

(** [reconcilable rank c st]: the run of the listener [c] can be
    reconciled.  The cursor stands within the dependency array of [c], and
    the entries of the buffer of new dependencies rank below [c]. *)
Definition reconcilable (rank : node_id -> nat) (c : node_id) (st : State) : Prop :=
  exists n, nodes st !! c = Some n
    /\ (eval_sources_index st <= length (_dependencies n))%nat
    /\ forall u d, eval_untracked_sources st = Some u -> d ∈ u -> lower rank st c d.

(** The same, as tests. *)
Definition lowerb (rank : node_id -> nat) (st : State) (owner d : node_id) : bool :=
  (rank d <? rank owner)%nat
  && match nodes st !! d with
     | Some m => match kind m with KEffect => false | _ => true end
     | None => false
     end.

Definition acyclicb (rank : node_id -> nat) (st : State) : bool :=
  forallb
    (fun i => match nodes st !! i with
              | Some n => forallb (lowerb rank st i) (_dependencies n)
              | None => true
              end)
    (seq 0 (length (nodes st))).

Definition reconcilableb (rank : node_id -> nat) (c : node_id) (st : State) : bool :=
  match nodes st !! c with
  | Some n =>
      (eval_sources_index st <=? length (_dependencies n))%nat
      && forallb (lowerb rank st c) (default [] (eval_untracked_sources st))
  | None => false
  end.

(** [same_graph st st']: the same objects, of the same classes, with the
    same dependency arrays. *)
Definition same_graph (st st' : State) : Prop :=
  length (nodes st') = length (nodes st)
  /\ forall i n, nodes st !! i = Some n ->
       exists n', nodes st' !! i = Some n'
                  /\ kind n' = kind n /\ _dependencies n' = _dependencies n.

(** [same_run st st']: the same graph and the same tracking context. *)
Definition same_run (st st' : State) : Prop :=
  same_graph st st'
  /\ eval_listener st' = eval_listener st
  /\ eval_sources_index st' = eval_sources_index st
  /\ eval_untracked_sources st' = eval_untracked_sources st.

(** ** An effect that has been disposed of *)

(** A disposed effect at rest: marked [DISPOSED], without dependencies
    and without cleanup functions. *)
Definition is_disposed (n : Node) : Prop :=
  kind n = KEffect
  /\ truthy (Z.land (_flags n) DISPOSED) = true
  /\ _dependencies n = []
  /\ _cleanups n = [].

(** [unlisted e ds st]: none of the objects [ds] has [e] in its dependants
    array. *)
Definition unlisted (e : node_id) (ds : list node_id) (st : State) : Prop :=
  forall d, d ∈ ds -> exists m, nodes st !! d = Some m /\ e ∉ _dependants m.

(** [retired e ds st]: the effect [e] is disposed and at rest, it is
    unsubscribed from the objects [ds], and it is not the current
    listener. *)
Definition retired (e : node_id) (ds : list node_id) (st : State) : Prop :=
  eval_listener st <> Some e
  /\ protected is_disposed e st
  /\ unlisted e ds st.

(** No call brings a retired effect back. *)
Record ops_retire (rec : Ops) : Prop := mk_ops_retire {
  retire_call : forall e ds p st, retired e ds st ->
    wp (o_call rec p) st (fun _ st' => retired e ds st') (fun _ st' => retired e ds st');
  retire_refresh : forall e ds i st, retired e ds st ->
    wp (o_refresh rec i) st (fun _ st' => retired e ds st') (fun _ st' => retired e ds st');
  retire_subscribe : forall e ds i t st, retired e ds st -> t <> e ->
    wp (o_subscribe rec i t) st (fun _ st' => retired e ds st') (fun _ st' => retired e ds st');
  retire_unsubscribe : forall e ds i t st, retired e ds st ->
    wp (o_unsubscribe rec i t) st (fun _ st' => retired e ds st') (fun _ st' => retired e ds st');
  retire_notify : forall e ds i f st, retired e ds st ->
    wp (o_notify rec i f) st (fun _ st' => retired e ds st') (fun _ st' => retired e ds st');
  retire_drain_wave : forall e ds x acc st, retired e ds st ->
    wp (o_drain_wave rec x acc) st (fun _ st' => retired e ds st') (fun _ st' => retired e ds st');
  retire_drain : forall e ds acc st, retired e ds st ->
    wp (o_drain rec acc) st (fun _ st' => retired e ds st') (fun _ st' => retired e ds st')
}.

(** [shrinks st st']: every object is still there, and its dependants
    array has only lost entries. *)
Definition shrinks (st st' : State) : Prop :=
  forall i m, nodes st !! i = Some m ->
    exists m', nodes st' !! i = Some m' /\ _dependants m' `sublist_of` _dependants m.

(** ** A queued effect that is due to run *)

(** An effect that the drain will run when it comes to it: it is queued
    ([NOTIFIED]) and [DIRTY], and neither disposed nor running. *)
Definition is_due (n : Node) : Prop :=
  kind n = KEffect
  /\ truthy (Z.land (_flags n) NOTIFIED) = true
  /\ truthy (Z.land (_flags n) DIRTY) = true
  /\ truthy (Z.land (_flags n) DISPOSED) = false
  /\ truthy (Z.land (_flags n) RUNNING) = false.

(** [due k e st]: we are at least [k] batches deep and the effect [e] is
    due. *)
Definition due (k : Z) (e : node_id) (st : State) : Prop :=
  k <= batch_depth st /\ protected is_due e st.

(** Inside a batch, an effect that is due stays so across every call made
    from client code. *)
Record ops_due (rec : Ops) : Prop := mk_ops_due {
  due_call : forall k e p st, due k e st -> 1 <= k ->
    wp (o_call rec p) st (fun _ st' => due k e st') (fun _ st' => due k e st');
  due_refresh : forall k e i st, due k e st -> 1 <= k ->
    wp (o_refresh rec i) st (fun _ st' => due k e st') (fun _ st' => due k e st');
  due_subscribe : forall k e i t st, due k e st -> 1 <= k ->
    wp (o_subscribe rec i t) st (fun _ st' => due k e st') (fun _ st' => due k e st');
  due_unsubscribe : forall k e i t st, due k e st -> 1 <= k ->
    wp (o_unsubscribe rec i t) st (fun _ st' => due k e st') (fun _ st' => due k e st');
  due_notify : forall k e i f st, due k e st -> 1 <= k ->
    wp (o_notify rec i f) st (fun _ st' => due k e st') (fun _ st' => due k e st')
}.

(** ** Example programs and the stores they reach *)

(** The store in which a client program ends ([initial_state] when it does
    not end). *)
Definition store_after (p : prog) : State :=
  default initial_state (final_state (exec (run 10) p initial_state)).

(** A signal (object 0) and two effects (objects 1 and 2) that read it.
    Each effect returns from its first run and throws from every later
    one. *)
Definition effects_program : prog :=
  NewSignal (Num 0) (fun s =>
  NewEffect
    (fun prev => Read s (fun _ =>
       if strict_eq prev Undefined then Ret (Num 0) else Throw (Error "effect 1")))
    Undefined
    (NewEffect
       (fun prev => Read s (fun _ =>
          if strict_eq prev Undefined then Ret (Num 0) else Throw (Error "effect 2")))
       Undefined
       (Ret Undefined))).

(** Inside a batch, once both effects have been created. *)
Definition effects_example : State :=
  with_batch_depth 1 (store_after effects_program).

(** The same, once the effects 1 and 2 have been notified, in that
    order. *)
Definition drain_example : State :=
  default effects_example
    (final_state
       (for_each [1%nat; 2%nat] (fun e => Effect_notify e DIRTY) effects_example)).

(** A signal (object 0), an effect that reads it and throws when it reads 1
    (object 1), and an effect (object 2) with a cleanup function that
    writes 1 to the signal and then throws. *)
Definition cleanup_program : prog :=
  NewSignal (Num 0) (fun s =>
  NewEffect
    (fun _ => Read s (fun v =>
       if strict_eq v (Num 1) then Throw (Error "drain") else Ret v))
    Undefined
    (NewEffect
       (fun _ =>
          OnCleanup (Write s (Num 1) (Throw (Error "cleanup"))) true (Ret Undefined))
       Undefined
       (Ret Undefined))).

Definition cleanup_example : State := store_after cleanup_program.

(** The same, inside a batch. *)
Definition cleanup_example_batched : State := with_batch_depth 1 cleanup_example.

(** A computed signal (object 0) whose compute function throws, not yet
    read. *)
Definition error_node : Node :=
  mkNode KComputed (-1) (-1) [] Undefined [] DIRTY (-1) (-1)
    (fun _ => Throw (Error "boom")) [] None.

Definition error_example : State :=
  with_nodes [error_node] initial_state.

(** A signal (object 0) and a computed signal (object 1) that reads it. *)
Definition computed_program : prog :=
  NewSignal (Num 1) (fun s =>
  NewComputed (fun _ => Read s (fun v => Ret v)) Undefined (fun _ =>
  Ret Undefined)).

Definition computed_example : State := store_after computed_program.

(** As [cleanup_program], but the first run of the effect 2 throws after it
    has registered its cleanup function: [effect] disposes of it. *)
Definition failing_effect_program : prog :=
  NewSignal (Num 0) (fun s =>
  NewEffect
    (fun _ => Read s (fun v =>
       if strict_eq v (Num 1) then Throw (Error "drain") else Ret v))
    Undefined
    (NewEffect
       (fun _ =>
          OnCleanup (Write s (Num 1) (Throw (Error "cleanup"))) true
            (Throw (Error "first run")))
       Undefined
       (Ret Undefined))).

(** A signal (object 0) holding 1, a computed signal (object 1) that
    returns what the signal holds; the computed signal is read, and then 2
    is written to the signal. *)
Definition stale_program : prog :=
  NewSignal (Num 1) (fun s =>
  NewComputed (fun _ => Read s (fun v => Ret v)) Undefined (fun c =>
  Read c (fun _ => Write s (Num 2) (Ret Undefined)))).

Definition stale_example : State := store_after stale_program.

(** The computed signal of [error_example] while its compute function
    runs. *)
Definition running_example : State := mark_running 0%nat error_node error_example.

Definition running_snapshot : Snapshot := mkSnapshot false false false (-1) Undefined.

(** A signal (object 0) that holds 1 again after two writes, and a
    computed signal (object 1) that returns what the signal holds, computed
    before those writes and flagged [DIRTY] since. *)
Definition same_value_node : Node :=
  mkNode KComputed 1 (-1) [] (Num 1) [0%nat] DIRTY 1 0
    (fun _ => Read 0%nat (fun v => Ret v)) [] None.

Definition same_value_example : State :=
  mkState
    [ mkNode KSignal 3 0 [] (Num 1) [] 0 (-1) (-1) (fun v => Ret v) [] None;
      same_value_node ]
    None 0%nat None None 0 0 3 1 [1%nat] [] [].

(** A signal (object 0) and an effect (object 1) that reads it. *)
Definition one_effect_program : prog :=
  NewSignal (Num 0) (fun s =>
  NewEffect (fun _ => Read s (fun v => Ret v)) Undefined (Ret Undefined)).

Definition one_effect_example : State := store_after one_effect_program.

(** A signal (object 0) and a computed signal (object 1) whose compute
    function reads the signal and then throws; not yet read. *)
Definition failing_read_program : prog :=
  NewSignal (Num 1) (fun s =>
  NewComputed (fun _ => Read s (fun _ => Throw (Error "boom"))) Undefined (fun _ =>
  Ret Undefined)).

Definition failing_read_example : State := store_after failing_read_program.

(** A signal (object 0) and an effect (object 1) that reads it and
    registers a cleanup function that throws; inside a batch. *)
Definition subscribed_cleanup_program : prog :=
  NewSignal (Num 0) (fun s =>
  NewEffect
    (fun _ => Read s (fun v => OnCleanup (Throw (Error "cleanup")) true (Ret v)))
    Undefined
    (Ret Undefined)).

Definition subscribed_cleanup_example : State :=
  with_batch_depth 1 (store_after subscribed_cleanup_program).

(** A computed signal (object 0) whose compute function reads the signal
    itself, once it has been read: it is its own dependency. *)
Definition self_reading_program : prog :=
  NewComputed (fun _ => Read 0%nat (fun _ => Ret (Num 1))) Undefined (fun c =>
  Read c (fun _ => Ret Undefined)).

Definition self_reading_example : State := store_after self_reading_program.

(** * Rules for computations *)

Section WpRules.
Context {A B : Type}.
Implicit Types (Q : A -> State -> Prop) (E : value -> State -> Prop).

Lemma wp_ret (a : A) st Q E : Q a st -> wp (ret a) st Q E.
Proof. exact (fun H => H). Qed.

Lemma wp_raise (e : value) st Q E : E e st -> wp (@raise A e) st Q E.
Proof. exact (fun H => H). Qed.

Lemma wp_halt (why : Abort) st Q E : wp (@halt A why) st Q E.
Proof. exact I. Qed.

Lemma wp_bind (m : M A) (f : A -> M B) st (Q : B -> State -> Prop) E :
  wp m st (fun a st' => wp (f a) st' Q E) E -> wp (bind m f) st Q E.
Proof. unfold wp, bind. destruct (m st); auto. Qed.

Lemma wp_conseq (m : M A) st Q E (Q' : A -> State -> Prop) (E' : value -> State -> Prop) :
  wp m st Q E ->
  (forall a st', Q a st' -> Q' a st') ->
  (forall e st', E e st' -> E' e st') ->
  wp m st Q' E'.
Proof. unfold wp. destruct (m st); auto. Qed.

Lemma wp_and (m : M A) st Q E (Q' : A -> State -> Prop) (E' : value -> State -> Prop) :
  wp m st Q E -> wp m st Q' E' ->
  wp m st (fun a st' => Q a st' /\ Q' a st') (fun e st' => E e st' /\ E' e st').
Proof. unfold wp. destruct (m st); auto. Qed.

Lemma wp_try_catch (body : M A) (handler : value -> M A) st Q E :
  wp body st Q (fun e st' => wp (handler e) st' Q E) ->
  wp (try_catch body handler) st Q E.
Proof. unfold wp, try_catch. destruct (body st); auto. Qed.

Lemma wp_try_finally (body : M A) (fin : M unit) st Q E :
  wp body st
    (fun a st' => wp fin st' (fun _ st'' => Q a st'') E)
    (fun e st' => wp fin st' (fun _ st'' => E e st'') E) ->
  wp (try_finally body fin) st Q E.
Proof.
  unfold wp, try_finally. destruct (body st) as [a st'|e st'|]; auto.
  - destruct (fin st'); auto.
  - destruct (fin st'); auto.
Qed.

End WpRules.

Lemma wp_get_state st (Q : State -> State -> Prop) E :
  Q st st -> wp get_state st Q E.
Proof. exact (fun H => H). Qed.

Lemma wp_modify (f : State -> State) st (Q : unit -> State -> Prop) E :
  Q tt (f st) -> wp (modify f) st Q E.
Proof. exact (fun H => H). Qed.

Lemma wp_lookup (i : node_id) st (Q : Node -> State -> Prop) E :
  (forall n, nodes st !! i = Some n -> Q n st) -> wp (lookup i) st Q E.
Proof. unfold wp, lookup. destruct (nodes st !! i); auto. Qed.

Lemma wp_update (i : node_id) (f : Node -> Node) st (Q : unit -> State -> Prop) E :
  (forall n, nodes st !! i = Some n ->
             Q tt (with_nodes (<[i := f n]> (nodes st)) st)) ->
  wp (update i f) st Q E.
Proof. unfold wp, update. destruct (nodes st !! i); auto. Qed.

Lemma wp_alloc (n : Node) st (Q : node_id -> State -> Prop) E :
  Q (length (nodes st)) (with_nodes (nodes st ++ [n]) st) -> wp (alloc n) st Q E.
Proof. exact (fun H => H). Qed.

(** A loop preserves what each of its iterations preserves. *)
Lemma wp_for_each {A} (l : list A) (f : A -> M unit) (I : State -> Prop)
    (E : value -> State -> Prop) st :
  I st ->
  (forall x st, x ∈ l -> I st -> wp (f x) st (fun _ st' => I st') E) ->
  wp (for_each l f) st (fun _ st' => I st') E.
Proof.
  revert st. induction l as [|x l IH]; intros st HI Hf; simpl.
  - exact HI.
  - apply wp_bind. eapply wp_conseq.
    + apply Hf; [left|exact HI].
    + intros a st' HI'. apply IH; [exact HI'|].
      intros y st'' Hy. apply Hf. now right.
    + auto.
Qed.

(** One step of symbolic execution. *)
Ltac wp_step :=
  lazymatch goal with
  | |- wp (bind _ _) _ _ _ => apply wp_bind
  | |- wp (ret _) _ _ _ => apply wp_ret
  | |- wp (raise _) _ _ _ => apply wp_raise
  | |- wp (halt _) _ _ _ => apply wp_halt
  | |- wp get_state _ _ _ => apply wp_get_state
  | |- wp (modify _) _ _ _ => apply wp_modify
  | |- wp (lookup _) _ _ _ => apply wp_lookup; intros ? ?
  | |- wp (update _ _) _ _ _ => apply wp_update; intros ? ?
  | |- wp (alloc _) _ _ _ => apply wp_alloc
  | |- wp (try_catch _ _) _ _ _ => apply wp_try_catch
  | |- wp (try_finally _ _) _ _ _ => apply wp_try_finally
  | |- wp start_batch _ _ _ => apply wp_modify
  | |- wp (if ?b then _ else _) _ _ _ => destruct b eqn:?
  | |- wp (match ?x with _ => _ end) _ _ _ => destruct x eqn:?
  | |- wp (let _ := _ in _) _ _ _ => cbv zeta
  end.

(** A computation whose outcome is known. *)
Lemma wp_result {A} (m : M A) st o st' (Q : A -> State -> Prop) E :
  m st = result o st' ->
  match o with inl a => Q a st' | inr e => E e st' end ->
  wp m st Q E.
Proof. unfold wp. intros ->. now destruct o. Qed.

(** What a guarantee says about a known outcome. *)
Lemma wp_inv {A} (m : M A) st o st' (Q : A -> State -> Prop) E :
  wp m st Q E ->
  m st = result o st' ->
  match o with inl a => Q a st' | inr e => E e st' end.
Proof. unfold wp. intros H Hm. rewrite Hm in H. now destruct o. Qed.

(** Use the guarantee [lem] of the computation at the head of the goal. *)
Ltac wp_apply lem :=
  eapply wp_conseq;
  [ eapply lem | cbv beta; intros ? ? ? | cbv beta; intros ? ? ? ].

(** Rules for [wpt]. *)
Section WptRules.
Context {A B : Type}.

Lemma wpt_ret (a : A) st (Q : A -> State -> Prop) E : Q a st -> wpt (ret a) st Q E.
Proof. exact (fun H => H). Qed.

Lemma wpt_raise (e : value) st (Q : A -> State -> Prop) (E : value -> State -> Prop) :
  E e st -> wpt (@raise A e) st Q E.
Proof. exact (fun H => H). Qed.

Lemma wpt_bind (m : M A) (f : A -> M B) st (Q : B -> State -> Prop) E :
  wpt m st (fun a st' => wpt (f a) st' Q E) E -> wpt (bind m f) st Q E.
Proof. unfold wpt, bind. destruct (m st); auto. Qed.

Lemma wpt_conseq (m : M A) st (Q Q' : A -> State -> Prop) (E E' : value -> State -> Prop) :
  wpt m st Q E ->
  (forall a st', Q a st' -> Q' a st') ->
  (forall e st', E e st' -> E' e st') ->
  wpt m st Q' E'.
Proof. unfold wpt. destruct (m st); auto. Qed.

Lemma wpt_wp (m : M A) st (Q : A -> State -> Prop) E : wpt m st Q E -> wp m st Q E.
Proof. unfold wpt, wp. destruct (m st); auto. Qed.

End WptRules.

Lemma wpt_get_state st (Q : State -> State -> Prop) E :
  Q st st -> wpt get_state st Q E.
Proof. exact (fun H => H). Qed.

Lemma wpt_modify (f : State -> State) st (Q : unit -> State -> Prop) E :
  Q tt (f st) -> wpt (modify f) st Q E.
Proof. exact (fun H => H). Qed.

Lemma wpt_lookup (i : node_id) (n : Node) st (Q : Node -> State -> Prop) E :
  nodes st !! i = Some n -> Q n st -> wpt (lookup i) st Q E.
Proof. unfold wpt, lookup. now intros ->. Qed.

Lemma wpt_update (i : node_id) (f : Node -> Node) (n : Node) st
    (Q : unit -> State -> Prop) E :
  nodes st !! i = Some n ->
  Q tt (with_nodes (<[i := f n]> (nodes st)) st) ->
  wpt (update i f) st Q E.
Proof. unfold wpt, update. now intros ->. Qed.

(** Looking up an object that was just written. *)
Lemma lookup_written (l : list Node) (i : node_id) (n x : Node) :
  l !! i = Some n -> <[i := x]> l !! i = Some x.
Proof. intros H. apply list_lookup_insert_eq. eapply lookup_lt_Some; eauto. Qed.

(** Finding a node in a store built by updates on one object. *)
Ltac lookup_solve :=
  cbn [nodes with_nodes with_eval_listener with_eval_sources_index
       with_eval_untracked_sources with_batched_effect with_batch_depth
       with_batch_iteration with_write_clock with_read_clock with_calls
       with_dequeued with_caught];
  first [ eassumption | eapply lookup_written; lookup_solve ].

Ltac wpt_step :=
  lazymatch goal with
  | |- wpt (bind _ _) _ _ _ => apply wpt_bind
  | |- wpt (ret _) _ _ _ => apply wpt_ret; cbv beta
  | |- wpt (raise _) _ _ _ => apply wpt_raise; cbv beta
  | |- wpt get_state _ _ _ => apply wpt_get_state; cbv beta
  | |- wpt (modify _) _ _ _ => apply wpt_modify; cbv beta
  | |- wpt (lookup _) _ _ _ => eapply wpt_lookup; [lookup_solve|cbv beta]
  | |- wpt (update _ _) _ _ _ => eapply wpt_update; [lookup_solve|cbv beta]
  | |- wpt (let _ := _ in _) _ _ _ => cbv zeta
  end.

(** A node read back right after it was written. *)
Ltac written :=
  repeat match goal with
         | H : nodes _ !! ?c = Some ?m |- _ =>
             progress
               cbn [nodes with_nodes with_eval_listener with_eval_sources_index
                    with_eval_untracked_sources with_batched_effect
                    with_batch_depth with_batch_iteration with_write_clock
                    with_read_clock with_calls with_dequeued with_caught] in H;
             erewrite lookup_written in H by lookup_solve;
             injection H as H; subst m
         end.

Lemma wpt_for_each {A} (l : list A) (f : A -> M unit) (I : State -> Prop)
    (E : value -> State -> Prop) st :
  I st ->
  (forall x st, x ∈ l -> I st -> wpt (f x) st (fun _ st' => I st') E) ->
  wpt (for_each l f) st (fun _ st' => I st') E.
Proof.
  revert st. induction l as [|x l IH]; intros st HI Hf; simpl.
  - exact HI.
  - apply wpt_bind. eapply wpt_conseq.
    + apply Hf; [left|exact HI].
    + intros a st' HI'. apply IH; [exact HI'|].
      intros y st'' Hy. apply Hf. now right.
    + auto.
Qed.

(** A computation that returns or throws, with what is known of its
    outcome. *)
Lemma wpt_intro {A} (m : M A) st (Q : A -> State -> Prop) E :
  wp m st Q E -> (forall a, m st <> Halt a) -> wpt m st Q E.
Proof.
  unfold wp, wpt. destruct (m st) as [a st'|e st'|a]; auto.
  intros _ H. now destruct (H a).
Qed.

Lemma wpt_returns {A} (m : M A) st (Q : A -> State -> Prop) E :
  wpt m st Q E -> forall a, m st <> Halt a.
Proof. unfold wpt. destruct (m st); [discriminate|discriminate|contradiction]. Qed.

Lemma wpt_and_wp {A} (m : M A) st (Q Q' : A -> State -> Prop)
    (E E' : value -> State -> Prop) :
  wpt m st Q E -> wp m st Q' E' ->
  wpt m st (fun a st' => Q a st' /\ Q' a st') (fun e st' => E e st' /\ E' e st').
Proof. unfold wp, wpt. destruct (m st); auto. Qed.

Lemma wpt_result {A} (m : M A) st o st' (Q : A -> State -> Prop) E :
  m st = result o st' ->
  match o with inl a => Q a st' | inr e => E e st' end ->
  wpt m st Q E.
Proof. unfold wpt. intros ->. now destruct o. Qed.

Lemma wpt_try_catch {A} (body : M A) (handler : value -> M A) st
    (Q : A -> State -> Prop) (E : value -> State -> Prop) :
  wpt body st Q (fun e st' => wpt (handler e) st' Q E) ->
  wpt (try_catch body handler) st Q E.
Proof. unfold wpt, try_catch. destruct (body st); auto. Qed.

Lemma wpt_try_finally {A} (body : M A) (fin : M unit) st
    (Q : A -> State -> Prop) (E : value -> State -> Prop) :
  wpt body st
    (fun a st' => wpt fin st' (fun _ st'' => Q a st'') E)
    (fun e st' => wpt fin st' (fun _ st'' => E e st'') E) ->
  wpt (try_finally body fin) st Q E.
Proof.
  unfold wpt, try_finally. destruct (body st) as [a st'|e st'|]; auto.
  - destruct (fin st'); auto.
  - destruct (fin st'); auto.
Qed.

(** * The module-level variables across a call *)

Lemma gfr_refl st : gfr 0 st st.
Proof.
  unfold gfr. split; [lia|]. split; [reflexivity|]. split; [auto|]. split; lia.
Qed.

Lemma gfr_trans j k st1 st2 st3 :
  gfr j st1 st2 -> gfr k st2 st3 -> gfr (j + k) st1 st3.
Proof.
  unfold gfr. intros (H1 & H2 & H3 & H4 & H5) (K1 & K2 & K3 & K4 & K5).
  split; [lia|]. split; [congruence|]. split; [|split; lia].
  intros HN. destruct (H3 HN) as [E1 E2].
  destruct K3 as [E3 E4]; [congruence|]. split; congruence.
Qed.

Lemma calm_refl st : calm st st.
Proof. split; [apply gfr_refl|]. intros _. split; reflexivity. Qed.

Lemma calm_trans st1 st2 st3 : calm st1 st2 -> calm st2 st3 -> calm st1 st3.
Proof.
  intros [G1 Q1] [G2 Q2]. split.
  - exact (gfr_trans 0 0 _ _ _ G1 G2).
  - intros Hd. destruct (Q1 Hd) as [C1 D1].
    assert (Hd2 : 1 <= batch_depth st2) by (destruct G1; lia).
    destruct (Q2 Hd2) as [C2 D2]. split; congruence.
Qed.

(** Loops whose iterations are calm. *)
Lemma wp_for_each_calm {A} (l : list A) (f : A -> M unit) st :
  (forall x st, wp (f x) st (fun _ st' => calm st st') (fun _ st' => calm st st')) ->
  wp (for_each l f) st (fun _ st' => calm st st') (fun _ st' => calm st st').
Proof.
  intros Hf. revert st. induction l as [|x l IH]; intros st; simpl.
  - apply calm_refl.
  - apply wp_bind. eapply wp_conseq; [apply Hf| |]; cbv beta.
    + intros _ st' H1. eapply wp_conseq; [apply IH| |]; cbv beta;
        intros; eapply calm_trans; eauto.
    + auto.
Qed.

Lemma wp_for_each_calm_noraise {A} (l : list A) (f : A -> M unit) st :
  (forall x st, wp (f x) st (fun _ st' => calm st st') (fun _ _ => False)) ->
  wp (for_each l f) st (fun _ st' => calm st st') (fun _ _ => False).
Proof.
  intros Hf. revert st. induction l as [|x l IH]; intros st; simpl.
  - apply calm_refl.
  - apply wp_bind. eapply wp_conseq; [apply Hf| |]; cbv beta.
    + intros _ st' H1. eapply wp_conseq; [apply IH| |]; cbv beta;
        [intros; eapply calm_trans; eauto|auto].
    + auto.
Qed.

Create HintDb calm_specs discriminated.
#[global] Hint Resolve calm_call calm_refresh calm_subscribe calm_unsubscribe
  calm_notify calm_drain_wave calm_drain : calm_specs.

(** Use a known guarantee of the callee at the head of the goal. *)
Ltac wp_use_calm :=
  eapply wp_conseq;
  [ solve [eauto 2 with calm_specs] | cbv beta; intros ? ? ? | cbv beta; intros ? ? ? ].

(** Destructure the guarantees collected so far and evaluate the projections
    of the explicit states. *)
Ltac calm_open :=
  repeat match goal with
         | H : False |- _ => destruct H
         | H : _ /\ _ |- _ => destruct H
         | H : calm _ _ |- _ => destruct H
         | H : gfr _ _ _ |- _ => destruct H as (? & ? & ? & ? & ?)
         | H : quiet _ _ |- _ => destruct H
         end;
  cbn [batch_depth eval_listener eval_untracked_sources eval_sources_index
       write_clock caught dequeued batch_iteration batched_effect nodes
       with_nodes with_eval_listener with_eval_sources_index
       with_eval_untracked_sources with_batched_effect with_batch_depth
       with_batch_iteration with_write_clock with_read_clock with_calls
       with_dequeued with_caught] in *.

Ltac calm_forward :=
  repeat match goal with
         | H : 1 <= ?d -> _ |- _ =>
             let H' := fresh in
             assert (H' : 1 <= d) by lia; specialize (H H'); clear H'
         | H : 2 <= ?d -> _ |- _ =>
             let H' := fresh in
             assert (H' : 2 <= d) by lia; specialize (H H'); clear H'
         | H : ?l = None -> _ |- _ =>
             let H' := fresh in
             assert (H' : l = None) by congruence; specialize (H H'); clear H'
         | H : _ /\ _ |- _ => destruct H
         | H : quiet _ _ |- _ => destruct H
         end;
  cbn [batch_depth eval_listener eval_untracked_sources eval_sources_index
       write_clock caught dequeued batch_iteration batched_effect nodes
       with_nodes with_eval_listener with_eval_sources_index
       with_eval_untracked_sources with_batched_effect with_batch_depth
       with_batch_iteration with_write_clock with_read_clock with_calls
       with_dequeued with_caught] in *.

Ltac calm_close :=
  calm_open;
  unfold calm, gfr, quiet;
  cbn [batch_depth eval_listener eval_untracked_sources eval_sources_index
       write_clock caught dequeued batch_iteration batched_effect nodes
       with_nodes with_eval_listener with_eval_sources_index
       with_eval_untracked_sources with_batched_effect with_batch_depth
       with_batch_iteration with_write_clock with_read_clock with_calls
       with_dequeued with_caught];
  repeat match goal with
         | |- _ /\ _ => split
         | |- _ -> _ => intro
         end;
  calm_forward;
  rewrite ?length_insert, ?length_app in *; cbn [length] in *;
  solve [ lia | congruence | assumption | reflexivity ].

Ltac calm_go :=
  repeat first [ wp_step | calm_loop | wp_use_calm | calm_close ]
with calm_loop :=
  lazymatch goal with
  | |- wp (for_each _ _) _ _ _ =>
      first
        [ eapply wp_conseq;
          [ apply wp_for_each_calm_noraise; intros ? ?; cbv beta; solve [calm_go]
          | cbv beta; intros ? ? ? | cbv beta; intros ? ? ? ]
        | eapply wp_conseq;
          [ apply wp_for_each_calm; intros ? ?; cbv beta; solve [calm_go]
          | cbv beta; intros ? ? ? | cbv beta; intros ? ? ? ] ]
  end.

Section Calm.

Variable rec : Ops.
Hypothesis Hrec : ops_calm rec.


Lemma is_stale_loop_calm target deps st :
  wp (is_stale_loop rec target deps) st (fun _ st' => calm st st') (fun _ _ => False).
Proof.
  revert st. induction deps as [|d deps IH]; intros st; simpl.
  - apply calm_refl.
  - calm_go.
Qed.
#[local] Hint Resolve is_stale_loop_calm : calm_specs.

Lemma is_stale_calm target flags st :
  wp (is_stale rec target flags) st (fun _ st' => calm st st') (fun _ _ => False).
Proof. unfold is_stale. calm_go. Qed.
#[local] Hint Resolve is_stale_calm : calm_specs.

Lemma end_batch_calm st :
  wp (end_batch rec) st
    (fun _ st' => gfr (-1) st st' /\ (2 <= batch_depth st -> quiet st st'))
    (fun _ st' => gfr (-1) st st' /\ (2 <= batch_depth st -> quiet st st')).
Proof. unfold end_batch. calm_go. Qed.
#[local] Hint Resolve end_batch_calm : calm_specs.

Lemma prune_context_sources_calm st :
  wp (prune_context_sources rec) st (fun _ st' => calm st st') (fun _ _ => False).
Proof. unfold prune_context_sources. calm_go. Qed.
#[local] Hint Resolve prune_context_sources_calm : calm_specs.

Lemma cleanup_context_calm st :
  wp (cleanup_context rec) st (fun _ st' => calm st st') (fun _ _ => False).
Proof. unfold cleanup_context. calm_go. Qed.
#[local] Hint Resolve cleanup_context_calm : calm_specs.

Lemma dispose_effect_with_calm (cleanup : node_id -> M unit) effect run_cleanup st :
  (forall e st, wp (cleanup e) st (fun _ st' => calm st st') (fun _ st' => calm st st')) ->
  wp (dispose_effect_with rec cleanup effect run_cleanup) st
    (fun _ st' => calm st st') (fun _ st' => calm st st').
Proof. intros Hc. unfold dispose_effect_with. calm_go. Qed.

Lemma dispose_effect_false_calm effect st :
  wp (dispose_effect_with rec (fun _ => ret tt) effect false) st
    (fun _ st' => calm st st') (fun _ _ => False).
Proof. unfold dispose_effect_with. calm_go. Qed.
#[local] Hint Resolve dispose_effect_false_calm : calm_specs.

Lemma cleanup_effect_calm effect st :
  wp (cleanup_effect rec effect) st (fun _ st' => calm st st') (fun _ st' => calm st st').
Proof. unfold cleanup_effect. calm_go. Qed.
#[local] Hint Resolve cleanup_effect_calm : calm_specs.

Lemma dispose_effect_calm effect run_cleanup st :
  wp (dispose_effect rec effect run_cleanup) st
    (fun _ st' => calm st st') (fun _ st' => calm st st').
Proof. apply dispose_effect_with_calm. intros. apply cleanup_effect_calm. Qed.
#[local] Hint Resolve dispose_effect_calm : calm_specs.

Lemma Signal_subscribe_calm self target st :
  wp (Signal_subscribe self target) st (fun _ st' => calm st st') (fun _ _ => False).
Proof. unfold Signal_subscribe. calm_go. Qed.
#[local] Hint Resolve Signal_subscribe_calm : calm_specs.

Lemma Signal_unsubscribe_calm self target st :
  wp (Signal_unsubscribe self target) st (fun _ st' => calm st st') (fun _ _ => False).
Proof. unfold Signal_unsubscribe. calm_go. Qed.
#[local] Hint Resolve Signal_unsubscribe_calm : calm_specs.

Lemma Signal_peek_calm self st :
  wp (Signal_peek self) st (fun _ st' => calm st st') (fun _ _ => False).
Proof. unfold Signal_peek. calm_go. Qed.
#[local] Hint Resolve Signal_peek_calm : calm_specs.

Lemma Signal_get_calm self st :
  wp (Signal_get self) st (fun _ st' => calm st st') (fun _ _ => False).
Proof. unfold Signal_get. calm_go. Qed.
#[local] Hint Resolve Signal_get_calm : calm_specs.

Lemma Signal_set_calm self next st :
  wp (Signal_set rec self next) st (fun _ st' => calm st st') (fun _ st' => calm st st').
Proof. unfold Signal_set. calm_go. Qed.
#[local] Hint Resolve Signal_set_calm : calm_specs.

Lemma Computed_refresh_calm self st :
  wp (Computed_refresh rec self) st (fun _ st' => calm st st') (fun _ _ => False).
Proof. unfold Computed_refresh. calm_go. Qed.
#[local] Hint Resolve Computed_refresh_calm : calm_specs.

Lemma Computed_subscribe_calm self target st :
  wp (Computed_subscribe rec self target) st (fun _ st' => calm st st') (fun _ _ => False).
Proof. unfold Computed_subscribe. calm_go. Qed.
#[local] Hint Resolve Computed_subscribe_calm : calm_specs.

Lemma Computed_unsubscribe_calm self target st :
  wp (Computed_unsubscribe rec self target) st (fun _ st' => calm st st') (fun _ _ => False).
Proof. unfold Computed_unsubscribe. calm_go. Qed.
#[local] Hint Resolve Computed_unsubscribe_calm : calm_specs.

Lemma Computed_notify_calm self flag st :
  wp (Computed_notify rec self flag) st (fun _ st' => calm st st') (fun _ _ => False).
Proof. unfold Computed_notify. calm_go. Qed.
#[local] Hint Resolve Computed_notify_calm : calm_specs.

Lemma Computed_peek_calm self st :
  wp (Computed_peek rec self) st (fun _ st' => calm st st') (fun _ st' => calm st st').
Proof. unfold Computed_peek. calm_go. Qed.
#[local] Hint Resolve Computed_peek_calm : calm_specs.

Lemma Computed_get_calm self st :
  wp (Computed_get rec self) st (fun _ st' => calm st st') (fun _ st' => calm st st').
Proof. unfold Computed_get. calm_go. Qed.
#[local] Hint Resolve Computed_get_calm : calm_specs.

Lemma Effect_refresh_calm self st :
  wp (Effect_refresh rec self) st (fun _ st' => calm st st') (fun _ st' => calm st st').
Proof. unfold Effect_refresh. calm_go. Qed.
#[local] Hint Resolve Effect_refresh_calm : calm_specs.

Lemma Effect_notify_calm self flag st :
  wp (Effect_notify self flag) st (fun _ st' => calm st st') (fun _ _ => False).
Proof. unfold Effect_notify. calm_go. Qed.
#[local] Hint Resolve Effect_notify_calm : calm_specs.

Lemma Effect_dispose_calm self st :
  wp (Effect_dispose rec self) st (fun _ st' => calm st st') (fun _ st' => calm st st').
Proof. unfold Effect_dispose. calm_go. Qed.
#[local] Hint Resolve Effect_dispose_calm : calm_specs.

Lemma drain_wave_body_calm effect acc st :
  wp (drain_wave_body rec effect acc) st (fun _ st' => gfr 0 st st') (fun _ _ => False).
Proof. unfold drain_wave_body. calm_go. Qed.

Lemma drain_body_calm acc st :
  wp (drain_body rec acc) st (fun _ st' => gfr 0 st st') (fun _ _ => False).
Proof. unfold drain_body. calm_go. Qed.

Lemma refresh_calm self st :
  wp (refresh rec self) st (fun _ st' => calm st st') (fun _ _ => False).
Proof. unfold refresh, Signal_refresh. calm_go. Qed.

Lemma subscribe_calm self target st :
  wp (subscribe rec self target) st (fun _ st' => calm st st') (fun _ _ => False).
Proof. unfold subscribe. calm_go. Qed.

Lemma unsubscribe_calm self target st :
  wp (unsubscribe rec self target) st (fun _ st' => calm st st') (fun _ _ => False).
Proof. unfold unsubscribe. calm_go. Qed.

Lemma notify_calm self flag st :
  wp (notify rec self flag) st (fun _ st' => calm st st') (fun _ _ => False).
Proof. unfold notify. calm_go. Qed.

Lemma peek_calm self st :
  wp (peek rec self) st (fun _ st' => calm st st') (fun _ st' => calm st st').
Proof. unfold peek. calm_go. Qed.
#[local] Hint Resolve peek_calm : calm_specs.

Lemma get_value_calm self st :
  wp (get_value rec self) st (fun _ st' => calm st st') (fun _ st' => calm st st').
Proof. unfold get_value. calm_go. Qed.
#[local] Hint Resolve get_value_calm : calm_specs.

Lemma signal_calm v st :
  wp (signal v) st (fun _ st' => calm st st') (fun _ _ => False).
Proof. unfold signal. calm_go. Qed.
#[local] Hint Resolve signal_calm : calm_specs.

Lemma computed_calm f v st :
  wp (computed f v) st (fun _ st' => calm st st') (fun _ _ => False).
Proof. unfold computed. calm_go. Qed.
#[local] Hint Resolve computed_calm : calm_specs.

Lemma effect_calm f v st :
  wp (effect rec f v) st (fun _ st' => calm st st') (fun _ st' => calm st st').
Proof. unfold effect. calm_go. Qed.
#[local] Hint Resolve effect_calm : calm_specs.

Lemma cleanup_calm fn throws st :
  wp (cleanup fn throws) st (fun _ st' => calm st st') (fun _ st' => calm st st').
Proof. unfold cleanup. calm_go. Qed.
#[local] Hint Resolve cleanup_calm : calm_specs.

Lemma untrack_calm {A} (callback : M A) st :
  (forall st, wp callback st (fun _ st' => calm st st') (fun _ st' => calm st st')) ->
  wp (untrack callback) st (fun _ st' => calm st st') (fun _ st' => calm st st').
Proof. intros Hc. unfold untrack. calm_go. Qed.

Lemma batch_calm {A} (callback : M A) st :
  (forall st, wp callback st (fun _ st' => calm st st') (fun _ st' => calm st st')) ->
  wp (batch rec callback) st (fun _ st' => calm st st') (fun _ st' => calm st st').
Proof. intros Hc. unfold batch. calm_go. Qed.

Lemma exec_calm p st :
  wp (exec rec p) st (fun _ st' => calm st st') (fun _ st' => calm st st').
Proof.
  revert st. induction p; intros st; simpl; calm_go.
  - eapply wp_conseq; [apply untrack_calm; auto| |]; cbv beta; intros; calm_go.
  - eapply wp_conseq; [apply batch_calm; auto| |]; cbv beta; intros; calm_go.
Qed.

Lemma bodies_calm :
  ops_calm (mkOps (exec rec) (refresh rec) (subscribe rec) (unsubscribe rec)
              (notify rec) (drain_wave_body rec) (drain_body rec)).
Proof.
  constructor; simpl; intros.
  - apply exec_calm.
  - apply refresh_calm.
  - apply subscribe_calm.
  - apply unsubscribe_calm.
  - apply notify_calm.
  - apply drain_wave_body_calm.
  - apply drain_body_calm.
Qed.

End Calm.

(** Every entry point, with any amount of fuel, is calm. *)
Lemma run_calm fuel : ops_calm (run fuel).
Proof.
  induction fuel as [|fuel IH].
  - constructor; simpl; intros; exact I.
  - simpl. apply bodies_calm. exact IH.
Qed.

(** * Flag words *)

Lemma truthy_land_bit (f k : Z) :
  0 <= k -> truthy (Z.land f (Z.shiftl 1 k)) = Z.testbit f k.
Proof.
  intros Hk. unfold truthy. rewrite Z.shiftl_1_l.
  destruct (Z.testbit f k) eqn:Hb.
  - apply negb_true_iff, Z.eqb_neq. intros H0.
    assert (Hc : Z.testbit (Z.land f (2 ^ k)) k = false) by (rewrite H0; apply Z.bits_0).
    rewrite Z.land_spec, Hb, Z.pow2_bits_true in Hc by lia. discriminate.
  - apply negb_false_iff, Z.eqb_eq. apply Z.bits_inj'. intros n Hn.
    rewrite Z.land_spec, Z.bits_0, Z.pow2_bits_eqb by lia.
    destruct (Z.eqb_spec k n) as [->|]; [now rewrite Hb|apply andb_false_r].
Qed.

Lemma truthy_lor (a b : Z) : truthy (Z.lor a b) = truthy a || truthy b.
Proof.
  unfold truthy.
  destruct (Z.eqb_spec a 0) as [->|Ha]; simpl.
  - now rewrite Z.lor_0_l.
  - apply negb_true_iff, Z.eqb_neq. intros H0.
    apply Z.lor_eq_0_iff in H0. tauto.
Qed.

Lemma truthy_RUNNING f : truthy (Z.land f RUNNING) = Z.testbit f 0.
Proof. apply truthy_land_bit. lia. Qed.
Lemma truthy_DIRTY f : truthy (Z.land f DIRTY) = Z.testbit f 1.
Proof. apply truthy_land_bit. lia. Qed.
Lemma truthy_MAYBE_DIRTY f : truthy (Z.land f MAYBE_DIRTY) = Z.testbit f 2.
Proof. apply truthy_land_bit. lia. Qed.
Lemma truthy_TRACKING f : truthy (Z.land f TRACKING) = Z.testbit f 3.
Proof. apply truthy_land_bit. lia. Qed.
Lemma truthy_NOTIFIED f : truthy (Z.land f NOTIFIED) = Z.testbit f 4.
Proof. apply truthy_land_bit. lia. Qed.
Lemma truthy_DISPOSED f : truthy (Z.land f DISPOSED) = Z.testbit f 5.
Proof. apply truthy_land_bit. lia. Qed.
Lemma truthy_HAS_ERROR f : truthy (Z.land f HAS_ERROR) = Z.testbit f 6.
Proof. apply truthy_land_bit. lia. Qed.

Lemma testbit_RUNNING_0 : Z.testbit RUNNING 0 = true.
Proof. reflexivity. Qed.
Lemma testbit_RUNNING_1 : Z.testbit RUNNING 1 = false.
Proof. reflexivity. Qed.
Lemma testbit_RUNNING_2 : Z.testbit RUNNING 2 = false.
Proof. reflexivity. Qed.
Lemma testbit_RUNNING_3 : Z.testbit RUNNING 3 = false.
Proof. reflexivity. Qed.
Lemma testbit_RUNNING_4 : Z.testbit RUNNING 4 = false.
Proof. reflexivity. Qed.
Lemma testbit_RUNNING_5 : Z.testbit RUNNING 5 = false.
Proof. reflexivity. Qed.
Lemma testbit_RUNNING_6 : Z.testbit RUNNING 6 = false.
Proof. reflexivity. Qed.
Lemma testbit_DIRTY_0 : Z.testbit DIRTY 0 = false.
Proof. reflexivity. Qed.
Lemma testbit_DIRTY_1 : Z.testbit DIRTY 1 = true.
Proof. reflexivity. Qed.
Lemma testbit_DIRTY_2 : Z.testbit DIRTY 2 = false.
Proof. reflexivity. Qed.
Lemma testbit_DIRTY_3 : Z.testbit DIRTY 3 = false.
Proof. reflexivity. Qed.
Lemma testbit_DIRTY_4 : Z.testbit DIRTY 4 = false.
Proof. reflexivity. Qed.
Lemma testbit_DIRTY_5 : Z.testbit DIRTY 5 = false.
Proof. reflexivity. Qed.
Lemma testbit_DIRTY_6 : Z.testbit DIRTY 6 = false.
Proof. reflexivity. Qed.
Lemma testbit_MAYBE_DIRTY_0 : Z.testbit MAYBE_DIRTY 0 = false.
Proof. reflexivity. Qed.
Lemma testbit_MAYBE_DIRTY_1 : Z.testbit MAYBE_DIRTY 1 = false.
Proof. reflexivity. Qed.
Lemma testbit_MAYBE_DIRTY_2 : Z.testbit MAYBE_DIRTY 2 = true.
Proof. reflexivity. Qed.
Lemma testbit_MAYBE_DIRTY_3 : Z.testbit MAYBE_DIRTY 3 = false.
Proof. reflexivity. Qed.
Lemma testbit_MAYBE_DIRTY_4 : Z.testbit MAYBE_DIRTY 4 = false.
Proof. reflexivity. Qed.
Lemma testbit_MAYBE_DIRTY_5 : Z.testbit MAYBE_DIRTY 5 = false.
Proof. reflexivity. Qed.
Lemma testbit_MAYBE_DIRTY_6 : Z.testbit MAYBE_DIRTY 6 = false.
Proof. reflexivity. Qed.
Lemma testbit_TRACKING_0 : Z.testbit TRACKING 0 = false.
Proof. reflexivity. Qed.
Lemma testbit_TRACKING_1 : Z.testbit TRACKING 1 = false.
Proof. reflexivity. Qed.
Lemma testbit_TRACKING_2 : Z.testbit TRACKING 2 = false.
Proof. reflexivity. Qed.
Lemma testbit_TRACKING_3 : Z.testbit TRACKING 3 = true.
Proof. reflexivity. Qed.
Lemma testbit_TRACKING_4 : Z.testbit TRACKING 4 = false.
Proof. reflexivity. Qed.
Lemma testbit_TRACKING_5 : Z.testbit TRACKING 5 = false.
Proof. reflexivity. Qed.
Lemma testbit_TRACKING_6 : Z.testbit TRACKING 6 = false.
Proof. reflexivity. Qed.
Lemma testbit_NOTIFIED_0 : Z.testbit NOTIFIED 0 = false.
Proof. reflexivity. Qed.
Lemma testbit_NOTIFIED_1 : Z.testbit NOTIFIED 1 = false.
Proof. reflexivity. Qed.
Lemma testbit_NOTIFIED_2 : Z.testbit NOTIFIED 2 = false.
Proof. reflexivity. Qed.
Lemma testbit_NOTIFIED_3 : Z.testbit NOTIFIED 3 = false.
Proof. reflexivity. Qed.
Lemma testbit_NOTIFIED_4 : Z.testbit NOTIFIED 4 = true.
Proof. reflexivity. Qed.
Lemma testbit_NOTIFIED_5 : Z.testbit NOTIFIED 5 = false.
Proof. reflexivity. Qed.
Lemma testbit_NOTIFIED_6 : Z.testbit NOTIFIED 6 = false.
Proof. reflexivity. Qed.
Lemma testbit_DISPOSED_0 : Z.testbit DISPOSED 0 = false.
Proof. reflexivity. Qed.
Lemma testbit_DISPOSED_1 : Z.testbit DISPOSED 1 = false.
Proof. reflexivity. Qed.
Lemma testbit_DISPOSED_2 : Z.testbit DISPOSED 2 = false.
Proof. reflexivity. Qed.
Lemma testbit_DISPOSED_3 : Z.testbit DISPOSED 3 = false.
Proof. reflexivity. Qed.
Lemma testbit_DISPOSED_4 : Z.testbit DISPOSED 4 = false.
Proof. reflexivity. Qed.
Lemma testbit_DISPOSED_5 : Z.testbit DISPOSED 5 = true.
Proof. reflexivity. Qed.
Lemma testbit_DISPOSED_6 : Z.testbit DISPOSED 6 = false.
Proof. reflexivity. Qed.
Lemma testbit_HAS_ERROR_0 : Z.testbit HAS_ERROR 0 = false.
Proof. reflexivity. Qed.
Lemma testbit_HAS_ERROR_1 : Z.testbit HAS_ERROR 1 = false.
Proof. reflexivity. Qed.
Lemma testbit_HAS_ERROR_2 : Z.testbit HAS_ERROR 2 = false.
Proof. reflexivity. Qed.
Lemma testbit_HAS_ERROR_3 : Z.testbit HAS_ERROR 3 = false.
Proof. reflexivity. Qed.
Lemma testbit_HAS_ERROR_4 : Z.testbit HAS_ERROR 4 = false.
Proof. reflexivity. Qed.
Lemma testbit_HAS_ERROR_5 : Z.testbit HAS_ERROR 5 = false.
Proof. reflexivity. Qed.
Lemma testbit_HAS_ERROR_6 : Z.testbit HAS_ERROR 6 = true.
Proof. reflexivity. Qed.

Create Rewrite HintDb flags.
#[global] Hint Rewrite Z.land_lor_distr_r truthy_lor : flags.
#[global] Hint Rewrite truthy_RUNNING truthy_DIRTY truthy_MAYBE_DIRTY truthy_TRACKING truthy_NOTIFIED truthy_DISPOSED truthy_HAS_ERROR : flags.
#[global] Hint Rewrite Z.lor_spec Z.land_spec : flags.
#[global] Hint Rewrite Z.lnot_spec using lia : flags.
#[global] Hint Rewrite testbit_RUNNING_0 testbit_RUNNING_1 testbit_RUNNING_2 testbit_RUNNING_3 testbit_RUNNING_4 testbit_RUNNING_5 testbit_RUNNING_6 testbit_DIRTY_0 testbit_DIRTY_1 testbit_DIRTY_2 testbit_DIRTY_3 testbit_DIRTY_4 testbit_DIRTY_5 testbit_DIRTY_6 testbit_MAYBE_DIRTY_0 testbit_MAYBE_DIRTY_1 testbit_MAYBE_DIRTY_2 testbit_MAYBE_DIRTY_3 testbit_MAYBE_DIRTY_4 testbit_MAYBE_DIRTY_5 testbit_MAYBE_DIRTY_6 testbit_TRACKING_0 testbit_TRACKING_1 testbit_TRACKING_2 testbit_TRACKING_3 testbit_TRACKING_4 testbit_TRACKING_5 testbit_TRACKING_6 testbit_NOTIFIED_0 testbit_NOTIFIED_1 testbit_NOTIFIED_2 testbit_NOTIFIED_3 testbit_NOTIFIED_4 testbit_NOTIFIED_5 testbit_NOTIFIED_6 testbit_DISPOSED_0 testbit_DISPOSED_1 testbit_DISPOSED_2 testbit_DISPOSED_3 testbit_DISPOSED_4 testbit_DISPOSED_5 testbit_DISPOSED_6 testbit_HAS_ERROR_0 testbit_HAS_ERROR_1 testbit_HAS_ERROR_2 testbit_HAS_ERROR_3 testbit_HAS_ERROR_4 testbit_HAS_ERROR_5 testbit_HAS_ERROR_6 : flags.
#[global] Hint Rewrite andb_true_r andb_false_r andb_true_l andb_false_l
  orb_true_r orb_false_r orb_true_l orb_false_l negb_involutive : flags.

(** Bring every test on a flag word to tests of single bits. *)
Ltac flag_simpl := autorewrite with flags in *; cbn [negb andb orb] in *.

Example flag_simpl_test f :
  Z.testbit f 4 = true ->
  truthy (Z.land (Z.lor (Z.land (Z.land f (Z.lnot DIRTY)) (Z.lnot MAYBE_DIRTY)) RUNNING)
            NOTIFIED) = true.
Proof. intros H. flag_simpl. exact H. Qed.

(** * Queued effects across a call *)

Lemma protected_insert (P : Node -> Prop) (e i : node_id) (n x : Node) (st : State) :
  protected P e st ->
  nodes st !! i = Some n ->
  (i = e -> P x) ->
  protected P e (with_nodes (<[i := x]> (nodes st)) st).
Proof.
  intros (m & Hm & HP) Hn Hx. unfold protected. cbn [nodes with_nodes].
  destruct (decide (i = e)) as [->|Hne].
  - exists x. split; [|auto].
    apply list_lookup_insert_eq. eapply lookup_lt_Some; eauto.
  - exists m. split; [|assumption]. now rewrite list_lookup_insert_ne.
Qed.

Lemma protected_alloc (P : Node -> Prop) (e : node_id) (x : Node) (st : State) :
  protected P e st -> protected P e (with_nodes (nodes st ++ [x]) st).
Proof.
  intros (m & Hm & HP). exists m. split; [|assumption].
  cbn [nodes with_nodes]. apply lookup_app_l_Some. exact Hm.
Qed.

Lemma held_weaken k k' e nx st : held k' e nx st -> k <= k' -> held k e nx st.
Proof. intros [Hd Hq] Hk. split; [lia|assumption]. Qed.

(** The rules of symbolic execution, carrying [held] along: the state after
    a step is known only through [held]. *)
Lemma wp_modify_held (f : State -> State) st k e nx (Q : unit -> State -> Prop) E :
  held k e nx st ->
  nodes (f st) = nodes st ->
  (forall st', held (k + (batch_depth (f st) - batch_depth st)) e nx st' -> Q tt st') ->
  wp (modify f) st Q E.
Proof.
  intros [Hd (n & Hn & HP)] Hnodes HQ. apply wp_modify, HQ.
  split; [lia|]. exists n. now rewrite Hnodes.
Qed.

Lemma wp_update_held (i : node_id) (f : Node -> Node) st k e nx
    (Q : unit -> State -> Prop) E :
  held k e nx st ->
  (forall n, nodes st !! i = Some n -> i = e -> is_queued nx (f n)) ->
  (forall st', held k e nx st' -> Q tt st') ->
  wp (update i f) st Q E.
Proof.
  intros [Hd Hq] Hkeep HQ. apply wp_update. intros n Hn. apply HQ.
  split; [exact Hd|]. eapply protected_insert; eauto.
Qed.

Lemma wp_alloc_held (x : Node) st k e nx (Q : node_id -> State -> Prop) E :
  held k e nx st ->
  (forall i st', held k e nx st' -> Q i st') ->
  wp (alloc x) st Q E.
Proof.
  intros [Hd Hq] HQ. apply wp_alloc, HQ. split; [exact Hd|].
  now apply protected_alloc.
Qed.

(** Side conditions: the updated object is the protected one. *)
Ltac held_open :=
  repeat match goal with
         | H : held _ _ _ _ |- _ => destruct H as [? (? & ? & ? & ? & ?)]
         end;
  cbn [batch_depth nodes with_nodes with_eval_listener with_eval_sources_index
       with_eval_untracked_sources with_batched_effect with_batch_depth
       with_batch_iteration with_write_clock with_read_clock with_calls
       with_dequeued with_caught] in *.

Ltac kind_known :=
  repeat match goal with
         | H : forall n, nodes ?st !! ?i = Some n -> _, Hn : nodes ?st !! ?i = Some _ |- _ =>
             specialize (H _ Hn)
         end.

Ltac bits_known :=
  repeat match goal with
         | H : Z.testbit ?f ?k = _ |- _ =>
             progress (repeat match goal with
                              | H' : context [Z.testbit f k] |- _ =>
                                  lazymatch H' with
                                  | H => fail
                                  | _ => rewrite H in H'
                                  end
                              end)
         end;
  repeat match goal with
         | H : Z.testbit ?f ?k = _ |- context [Z.testbit ?f ?k] => rewrite H
         end;
  cbn [negb andb orb] in *.

(** Two lookups of the same object in the same state give the same node. *)
Ltac same_node :=
  repeat match goal with
         | H1 : nodes ?st !! ?i = Some ?a, H2 : nodes ?st !! ?i = Some ?b |- _ =>
             let E := fresh in
             assert (E : b = a) by (clear - H1 H2; congruence);
             clear H2; subst b
         end.

Ltac kind_clash :=
  match goal with
  | H1 : kind ?n = ?a, H2 : kind ?n = ?b |- _ =>
      exfalso; clear - H1 H2; congruence
  end.

Ltac bool_clash :=
  match goal with
  | H : false = true |- _ => discriminate H
  | H : true = false |- _ => discriminate H
  end.

Ltac queued_side :=
  intros; subst; held_open; kind_known; same_node;
  first
    [ kind_clash
    | unfold is_queued;
      cbn [kind _flags _next_batched_effect with_epoch with_access_epoch
           with_dependants with_value with_dependencies with_flags
           with_realm_write_epoch with_context_epoch with_cleanups
           with_next_batched_effect];
      flag_simpl; bits_known;
      first [ bool_clash
            | repeat split; first [assumption | reflexivity ] ] ].

Ltac held_here :=
  lazymatch goal with
  | |- held _ ?e ?nx ?st =>
      match goal with
      | H : held _ e nx st |- _ =>
          eapply held_weaken; [exact H | held_open; lia]
      end
  end.

Create HintDb hold_specs discriminated.
#[global] Hint Resolve hold_call hold_refresh hold_subscribe hold_unsubscribe
  hold_notify : hold_specs.
#[global] Hint Extern 1 (held _ _ _ _) => eassumption : hold_specs.
#[global] Hint Extern 1 (_ <= _) => held_open; lia : hold_specs.
#[global] Hint Extern 1 (forall n, nodes _ !! _ = Some n -> kind n = _) =>
  intros; simplify_eq; assumption : hold_specs.

Ltac held_use :=
  lazymatch goal with
  | |- wp _ _ _ _ =>
      eapply wp_conseq;
      [ solve [eauto 4 with hold_specs]
      | cbv beta; intros ? ? ? | cbv beta; intros ? ? ? ]
  end.

Ltac hold_step :=
  lazymatch goal with
  | |- wp (modify _) ?st _ _ =>
      match goal with
      | H : held _ _ _ st |- _ =>
          eapply (wp_modify_held _ _ _ _ _ _ _ H);
          [reflexivity | cbn [batch_depth with_eval_listener with_eval_sources_index
       with_eval_untracked_sources with_batched_effect with_batch_depth
       with_batch_iteration with_write_clock with_read_clock with_calls
       with_dequeued with_caught]; intros ? ?]
      end
  | |- wp start_batch ?st _ _ =>
      match goal with
      | H : held _ _ _ st |- _ =>
          eapply (wp_modify_held _ _ _ _ _ _ _ H);
          [reflexivity | unfold start_batch;
             cbn [batch_depth with_batch_depth]; intros ? ?]
      end
  | |- wp (update _ _) ?st _ _ =>
      match goal with
      | H : held _ _ _ st |- _ =>
          eapply (wp_update_held _ _ _ _ _ _ _ _ H); [solve [queued_side] | intros ? ?]
      end
  | |- wp (alloc _) ?st _ _ =>
      match goal with
      | H : held _ _ _ st |- _ =>
          eapply (wp_alloc_held _ _ _ _ _ _ _ H); intros ? ? ?
      end
  | |- wp (for_each _ _) ?st _ _ =>
      match goal with
      | H : held ?k ?e ?nx st |- _ =>
          eapply wp_conseq;
          [ eapply (wp_for_each _ _ (held k e nx) (fun _ st' => held k e nx st'));
            [ exact H | cbv beta; intros ? ? ? ? ]
          | cbv beta; intros ? ? ? | cbv beta; intros ? ? ? ]
      end
  | |- held _ _ _ _ => held_here
  | |- _ => wp_step
  end.

Ltac hold_go := repeat first [ hold_step | held_use ].

Section Hold.

Variable rec : Ops.
Hypothesis Hrec : ops_hold rec.

Lemma is_stale_loop_hold k e nx target deps st :
  held k e nx st -> 1 <= k ->
  wp (is_stale_loop rec target deps) st
    (fun _ st' => held k e nx st') (fun _ st' => held k e nx st').
Proof.
  revert st. induction deps as [|d deps IH]; intros st H Hk; simpl; hold_go.
Qed.
#[local] Hint Resolve is_stale_loop_hold : hold_specs.

Lemma is_stale_hold k e nx target flags st :
  held k e nx st -> 1 <= k ->
  wp (is_stale rec target flags) st
    (fun _ st' => held k e nx st') (fun _ st' => held k e nx st').
Proof. intros H Hk. unfold is_stale. hold_go. Qed.
#[local] Hint Resolve is_stale_hold : hold_specs.

Lemma end_batch_hold k e nx st :
  held k e nx st -> 2 <= k ->
  wp (end_batch rec) st
    (fun _ st' => held (k - 1) e nx st') (fun _ st' => held (k - 1) e nx st').
Proof.
  intros H Hk. unfold end_batch. hold_step. hold_step.
  destruct (batch_depth st >? 1) eqn:Hgt.
  - hold_go.
  - exfalso. destruct H as [Hd _].
    destruct (Z.gtb_spec (batch_depth st) 1); [discriminate|lia].
Qed.
#[local] Hint Resolve end_batch_hold : hold_specs.

Lemma prune_context_sources_hold k e nx  st :
  held k e nx st -> 1 <= k ->
  wp (prune_context_sources rec) st
    (fun _ st' => held k e nx st') (fun _ st' => held k e nx st').
Proof. intros H Hk. unfold prune_context_sources. hold_go. Qed.
#[local] Hint Resolve prune_context_sources_hold : hold_specs.

Lemma cleanup_context_hold k e nx  st :
  held k e nx st -> 1 <= k ->
  wp (cleanup_context rec) st
    (fun _ st' => held k e nx st') (fun _ st' => held k e nx st').
Proof. intros H Hk. unfold cleanup_context. hold_go. Qed.
#[local] Hint Resolve cleanup_context_hold : hold_specs.

Lemma dispose_effect_with_hold k e nx (cleanup : node_id -> M unit) effect run_cleanup st :
  (forall st, held k e nx st ->
     wp (cleanup effect) st (fun _ st' => held k e nx st') (fun _ st' => held k e nx st')) ->
  held k e nx st -> 1 <= k ->
  wp (dispose_effect_with rec cleanup effect run_cleanup) st
    (fun _ st' => held k e nx st') (fun _ st' => held k e nx st').
Proof.
  intros Hc H Hk. unfold dispose_effect_with. hold_go.
Qed.

Lemma dispose_effect_false_hold k e nx effect st :
  held k e nx st -> 1 <= k ->
  wp (dispose_effect_with rec (fun _ => ret tt) effect false) st
    (fun _ st' => held k e nx st') (fun _ st' => held k e nx st').
Proof. intros H Hk. unfold dispose_effect_with. hold_go. Qed.
#[local] Hint Resolve dispose_effect_false_hold : hold_specs.

Lemma cleanup_effect_hold k e nx effect st :
  held k e nx st -> 1 <= k ->
  wp (cleanup_effect rec effect) st
    (fun _ st' => held k e nx st') (fun _ st' => held k e nx st').
Proof. intros H Hk. unfold cleanup_effect. hold_go. Qed.
#[local] Hint Resolve cleanup_effect_hold : hold_specs.

Lemma dispose_effect_hold k e nx effect run_cleanup st :
  held k e nx st -> 1 <= k ->
  wp (dispose_effect rec effect run_cleanup) st
    (fun _ st' => held k e nx st') (fun _ st' => held k e nx st').
Proof.
  intros H Hk. apply dispose_effect_with_hold; auto.
  intros. now apply cleanup_effect_hold.
Qed.
#[local] Hint Resolve dispose_effect_hold : hold_specs.

Lemma Signal_subscribe_hold k e nx self target st :
  held k e nx st -> 1 <= k ->
  wp (Signal_subscribe self target) st
    (fun _ st' => held k e nx st') (fun _ st' => held k e nx st').
Proof. intros H Hk. unfold Signal_subscribe. hold_go. Qed.
#[local] Hint Resolve Signal_subscribe_hold : hold_specs.

Lemma Signal_unsubscribe_hold k e nx self target st :
  held k e nx st -> 1 <= k ->
  wp (Signal_unsubscribe self target) st
    (fun _ st' => held k e nx st') (fun _ st' => held k e nx st').
Proof. intros H Hk. unfold Signal_unsubscribe. hold_go. Qed.
#[local] Hint Resolve Signal_unsubscribe_hold : hold_specs.

Lemma Signal_peek_hold k e nx self st :
  held k e nx st -> 1 <= k ->
  wp (Signal_peek self) st
    (fun _ st' => held k e nx st') (fun _ st' => held k e nx st').
Proof. intros H Hk. unfold Signal_peek. hold_go. Qed.
#[local] Hint Resolve Signal_peek_hold : hold_specs.

Lemma Signal_get_hold k e nx self st :
  held k e nx st -> 1 <= k ->
  wp (Signal_get self) st
    (fun _ st' => held k e nx st') (fun _ st' => held k e nx st').
Proof. intros H Hk. unfold Signal_get. hold_go. Qed.
#[local] Hint Resolve Signal_get_hold : hold_specs.

Lemma Signal_set_hold k e nx self next st :
  held k e nx st -> 1 <= k ->
  wp (Signal_set rec self next) st
    (fun _ st' => held k e nx st') (fun _ st' => held k e nx st').
Proof. intros H Hk. unfold Signal_set. hold_go. Qed.
#[local] Hint Resolve Signal_set_hold : hold_specs.

Lemma Computed_refresh_hold k e nx self st :
  held k e nx st -> 1 <= k ->
  (forall n, nodes st !! self = Some n -> kind n = KComputed) ->
  wp (Computed_refresh rec self) st
    (fun _ st' => held k e nx st') (fun _ st' => held k e nx st').
Proof. intros H Hk Hkind. unfold Computed_refresh. hold_go. Qed.
#[local] Hint Resolve Computed_refresh_hold : hold_specs.

Lemma Computed_subscribe_hold k e nx self target st :
  held k e nx st -> 1 <= k ->
  wp (Computed_subscribe rec self target) st
    (fun _ st' => held k e nx st') (fun _ st' => held k e nx st').
Proof. intros H Hk. unfold Computed_subscribe. hold_go. Qed.
#[local] Hint Resolve Computed_subscribe_hold : hold_specs.

Lemma Computed_unsubscribe_hold k e nx self target st :
  held k e nx st -> 1 <= k ->
  wp (Computed_unsubscribe rec self target) st
    (fun _ st' => held k e nx st') (fun _ st' => held k e nx st').
Proof. intros H Hk. unfold Computed_unsubscribe. hold_go. Qed.
#[local] Hint Resolve Computed_unsubscribe_hold : hold_specs.

Lemma Computed_notify_hold k e nx self flag st :
  held k e nx st -> 1 <= k ->
  wp (Computed_notify rec self flag) st
    (fun _ st' => held k e nx st') (fun _ st' => held k e nx st').
Proof. intros H Hk. unfold Computed_notify. hold_go. Qed.
#[local] Hint Resolve Computed_notify_hold : hold_specs.

Lemma Computed_peek_hold k e nx self st :
  held k e nx st -> 1 <= k ->
  (forall n, nodes st !! self = Some n -> kind n = KComputed) ->
  wp (Computed_peek rec self) st
    (fun _ st' => held k e nx st') (fun _ st' => held k e nx st').
Proof. intros H Hk Hkind. unfold Computed_peek. hold_go. Qed.
#[local] Hint Resolve Computed_peek_hold : hold_specs.

Lemma Computed_get_hold k e nx self st :
  held k e nx st -> 1 <= k ->
  (forall n, nodes st !! self = Some n -> kind n = KComputed) ->
  wp (Computed_get rec self) st
    (fun _ st' => held k e nx st') (fun _ st' => held k e nx st').
Proof. intros H Hk Hkind. unfold Computed_get. hold_go. Qed.
#[local] Hint Resolve Computed_get_hold : hold_specs.

Lemma Effect_refresh_hold k e nx self st :
  held k e nx st -> 1 <= k ->
  wp (Effect_refresh rec self) st
    (fun _ st' => held k e nx st') (fun _ st' => held k e nx st').
Proof. intros H Hk. unfold Effect_refresh. hold_go. Qed.
#[local] Hint Resolve Effect_refresh_hold : hold_specs.

Lemma Effect_notify_hold k e nx self flag st :
  held k e nx st -> 1 <= k ->
  wp (Effect_notify self flag) st
    (fun _ st' => held k e nx st') (fun _ st' => held k e nx st').
Proof. intros H Hk. unfold Effect_notify. hold_go. Qed.
#[local] Hint Resolve Effect_notify_hold : hold_specs.

Lemma Effect_dispose_hold k e nx self st :
  held k e nx st -> 1 <= k ->
  wp (Effect_dispose rec self) st
    (fun _ st' => held k e nx st') (fun _ st' => held k e nx st').
Proof. intros H Hk. unfold Effect_dispose. hold_go. Qed.
#[local] Hint Resolve Effect_dispose_hold : hold_specs.

Lemma refresh_hold k e nx self st :
  held k e nx st -> 1 <= k ->
  wp (refresh rec self) st
    (fun _ st' => held k e nx st') (fun _ st' => held k e nx st').
Proof. intros H Hk. unfold refresh, Signal_refresh. hold_go. Qed.

Lemma subscribe_hold k e nx self target st :
  held k e nx st -> 1 <= k ->
  wp (subscribe rec self target) st
    (fun _ st' => held k e nx st') (fun _ st' => held k e nx st').
Proof. intros H Hk. unfold subscribe. hold_go. Qed.

Lemma unsubscribe_hold k e nx self target st :
  held k e nx st -> 1 <= k ->
  wp (unsubscribe rec self target) st
    (fun _ st' => held k e nx st') (fun _ st' => held k e nx st').
Proof. intros H Hk. unfold unsubscribe. hold_go. Qed.

Lemma notify_hold k e nx self flag st :
  held k e nx st -> 1 <= k ->
  wp (notify rec self flag) st
    (fun _ st' => held k e nx st') (fun _ st' => held k e nx st').
Proof. intros H Hk. unfold notify. hold_go. Qed.

Lemma peek_hold k e nx self st :
  held k e nx st -> 1 <= k ->
  wp (peek rec self) st
    (fun _ st' => held k e nx st') (fun _ st' => held k e nx st').
Proof. intros H Hk. unfold peek. hold_go. Qed.
#[local] Hint Resolve peek_hold : hold_specs.

Lemma get_value_hold k e nx self st :
  held k e nx st -> 1 <= k ->
  wp (get_value rec self) st
    (fun _ st' => held k e nx st') (fun _ st' => held k e nx st').
Proof. intros H Hk. unfold get_value. hold_go. Qed.
#[local] Hint Resolve get_value_hold : hold_specs.

Lemma signal_hold k e nx v st :
  held k e nx st -> 1 <= k ->
  wp (signal v) st
    (fun _ st' => held k e nx st') (fun _ st' => held k e nx st').
Proof. intros H Hk. unfold signal. hold_go. Qed.
#[local] Hint Resolve signal_hold : hold_specs.

Lemma computed_hold k e nx f v st :
  held k e nx st -> 1 <= k ->
  wp (computed f v) st
    (fun _ st' => held k e nx st') (fun _ st' => held k e nx st').
Proof. intros H Hk. unfold computed. hold_go. Qed.
#[local] Hint Resolve computed_hold : hold_specs.

Lemma effect_hold k e nx f v st :
  held k e nx st -> 1 <= k ->
  wp (effect rec f v) st
    (fun _ st' => held k e nx st') (fun _ st' => held k e nx st').
Proof. intros H Hk. unfold effect. hold_go. Qed.
#[local] Hint Resolve effect_hold : hold_specs.

Lemma cleanup_hold k e nx fn throws st :
  held k e nx st -> 1 <= k ->
  wp (cleanup fn throws) st
    (fun _ st' => held k e nx st') (fun _ st' => held k e nx st').
Proof. intros H Hk. unfold cleanup. hold_go. Qed.
#[local] Hint Resolve cleanup_hold : hold_specs.

Lemma untrack_hold {A} k e nx (callback : M A) st :
  (forall st, held k e nx st ->
     wp callback st (fun _ st' => held k e nx st') (fun _ st' => held k e nx st')) ->
  held k e nx st -> 1 <= k ->
  wp (untrack callback) st
    (fun _ st' => held k e nx st') (fun _ st' => held k e nx st').
Proof.
  intros Hc H Hk. unfold untrack. hold_go.
  all: eapply wp_conseq;
    [apply Hc; eapply held_weaken; [eassumption|held_open; lia]| |];
    cbv beta; intros; hold_go.
Qed.

Lemma batch_hold {A} k e nx (callback : M A) st :
  (forall k st, held k e nx st -> 1 <= k ->
     wp callback st (fun _ st' => held k e nx st') (fun _ st' => held k e nx st')) ->
  held k e nx st -> 1 <= k ->
  wp (batch rec callback) st
    (fun _ st' => held k e nx st') (fun _ st' => held k e nx st').
Proof.
  intros Hc H Hk. unfold batch. hold_go.
  all: eapply wp_conseq; [eapply Hc; [eassumption|held_open; lia]| |];
    cbv beta; intros; hold_go.
Qed.

Lemma exec_hold p : forall k e nx st,
  held k e nx st -> 1 <= k ->
  wp (exec rec p) st
    (fun _ st' => held k e nx st') (fun _ st' => held k e nx st').
Proof.
  induction p; intros k0 e nx st Hh Hk; simpl; hold_go.
  - eapply wp_conseq;
      [eapply (untrack_hold k0 e nx);
       [intros; apply IHp; assumption | eassumption | assumption]| |];
      cbv beta; intros; hold_go.
  - eapply wp_conseq;
      [eapply (batch_hold k0 e nx);
       [intros; apply IHp1; assumption | eassumption | assumption]| |];
      cbv beta; intros; hold_go.
Qed.

Lemma bodies_hold :
  ops_hold (mkOps (exec rec) (refresh rec) (subscribe rec) (unsubscribe rec)
              (notify rec) (drain_wave_body rec) (drain_body rec)).
Proof.
  constructor; simpl; intros.
  - now apply exec_hold.
  - now apply refresh_hold.
  - now apply subscribe_hold.
  - now apply unsubscribe_hold.
  - now apply notify_hold.
Qed.

End Hold.

(** Inside a batch, a queued effect stays queued, with the same link,
    across every call made from client code. *)
Lemma run_hold fuel : ops_hold (run fuel).
Proof.
  induction fuel as [|fuel IH].
  - constructor; simpl; intros; exact I.
  - simpl. apply bodies_hold. exact IH.
Qed.

(** * Subscriptions leave everything else in place *)

Lemma lor_TRACKING_set f : Z.lor (Z.lor f TRACKING) TRACKING = Z.lor f TRACKING.
Proof. now rewrite <- Z.lor_assoc, Z.lor_diag. Qed.

Lemma lor_TRACKING_clear f :
  Z.lor (Z.land f (Z.lnot TRACKING)) TRACKING = Z.lor f TRACKING.
Proof.
  apply Z.bits_inj'. intros k Hk.
  rewrite !Z.lor_spec, Z.land_spec, Z.lnot_spec by assumption.
  destruct (Z.testbit f k), (Z.testbit TRACKING k); reflexivity.
Qed.

Lemma sub_only_refl d n : sub_only d n n.
Proof. unfold sub_only. tauto. Qed.

Lemma sub_only_trans d n1 n2 n3 :
  sub_only d n1 n2 -> sub_only d n2 n3 -> sub_only d n1 n3.
Proof.
  unfold sub_only. intros H1 H2.
  destruct H1 as (?&?&?&?&D1&?&?&?&?&?&?), H2 as (?&?&?&?&D2&?&?&?&?&?&?).
  repeat split; try congruence.
  intros Hd. rewrite D2, D1 by assumption. reflexivity.
Qed.

Lemma sub_only_weaken d n n' : sub_only false n n' -> sub_only d n n'.
Proof. unfold sub_only. intuition. Qed.

Lemma same_globals_refl st : same_globals st st.
Proof. unfold same_globals. tauto. Qed.

Lemma subs_refl o st : subs o st st.
Proof.
  split; [apply same_globals_refl|]. split; [reflexivity|].
  intros i n Hn. exists n. split; [assumption|apply sub_only_refl].
Qed.

Lemma subs_trans o st1 st2 st3 : subs o st1 st2 -> subs o st2 st3 -> subs o st1 st3.
Proof.
  intros (G1 & L1 & N1) (G2 & L2 & N2). split; [|split; [congruence|]].
  - unfold same_globals in *. intuition congruence.
  - intros i n Hn. destruct (N1 i n Hn) as (n2 & Hn2 & S1).
    destruct (N2 i n2 Hn2) as (n3 & Hn3 & S2).
    exists n3. split; [assumption|]. eapply sub_only_trans; eauto.
Qed.

Lemma subs_weaken o st st' : subs None st st' -> subs o st st'.
Proof.
  intros (G & L & N). split; [assumption|]. split; [assumption|].
  intros i n Hn. destruct (N i n Hn) as (n' & Hn' & S).
  exists n'. split; [assumption|]. now apply sub_only_weaken.
Qed.

(** An update that only touches subscriptions keeps [subs]. *)
Lemma wp_update_subs o st0 (i : node_id) (f : Node -> Node) st
    (Q : unit -> State -> Prop) E :
  subs o st0 st ->
  (forall n, nodes st !! i = Some n -> sub_only (bool_decide (o = Some i)) n (f n)) ->
  (forall st', subs o st0 st' -> Q tt st') ->
  wp (update i f) st Q E.
Proof.
  intros Hs Hok HQ. apply wp_update. intros n Hn. apply HQ.
  eapply subs_trans; [exact Hs|].
  split; [unfold same_globals; cbn; tauto|]. cbn [nodes with_nodes].
  split; [apply length_insert|].
  intros j m Hm. destruct (decide (i = j)) as [->|Hne].
  - assert (m = n) by congruence. subst m. exists (f n). split; [|auto].
    apply list_lookup_insert_eq. eapply lookup_lt_Some; eauto.
  - exists m. split; [|apply sub_only_refl]. now rewrite list_lookup_insert_ne.
Qed.

Ltac sub_only_side :=
  intros; same_node; unfold sub_only;
  cbn [kind _epoch _access_epoch _dependants _value _dependencies _flags
       _realm_write_epoch _context_epoch _compute _cleanups _next_batched_effect
       with_dependants with_flags with_dependencies];
  rewrite ?lor_TRACKING_set, ?lor_TRACKING_clear;
  repeat split; try reflexivity;
  try (intros Hd; apply bool_decide_eq_false in Hd; congruence).

Create HintDb subs_specs discriminated.
#[global] Hint Resolve subs_subscribe subs_unsubscribe : subs_specs.
#[global] Hint Extern 1 (subs _ _ _) => eassumption : subs_specs.

Ltac subs_step :=
  lazymatch goal with
  | |- wp (update _ _) ?st _ _ =>
      match goal with
      | H : subs _ _ st |- _ =>
          eapply (wp_update_subs _ _ _ _ _ _ _ H); [solve [sub_only_side] | intros ? ?]
      end
  | |- wp (for_each _ _) ?st _ _ =>
      match goal with
      | H : subs ?o ?st0 st |- _ =>
          eapply wp_conseq;
          [ eapply (wp_for_each _ _ (subs o st0) (fun _ _ => False));
            [ exact H | cbv beta; intros ? ? ? ? ]
          | cbv beta; intros ? ? ? | cbv beta; intros ? ? ? ]
      end
  | |- subs _ _ _ => first [ eassumption | apply subs_weaken; eassumption ]
  | |- False => contradiction
  | |- wp _ _ _ _ =>
      first
        [ wp_step
        | eapply wp_conseq;
          [ solve [eauto 3 with subs_specs]
          | cbv beta; intros ? ? ? | cbv beta; intros ? ? ? ] ]
  end.

Ltac subs_go := repeat subs_step.

Section Subs.

Variable rec : Ops.
Hypothesis Hrec : ops_subs rec.

Lemma Signal_subscribe_subs st0 self target st :
  subs None st0 st ->
  wp (Signal_subscribe self target) st (fun _ st' => subs None st0 st') (fun _ _ => False).
Proof. intros H. unfold Signal_subscribe. subs_go. Qed.
#[local] Hint Resolve Signal_subscribe_subs : subs_specs.

Lemma Signal_unsubscribe_subs st0 self target st :
  subs None st0 st ->
  wp (Signal_unsubscribe self target) st (fun _ st' => subs None st0 st') (fun _ _ => False).
Proof. intros H. unfold Signal_unsubscribe. subs_go. Qed.
#[local] Hint Resolve Signal_unsubscribe_subs : subs_specs.

Lemma Computed_subscribe_subs st0 self target st :
  subs None st0 st ->
  wp (Computed_subscribe rec self target) st
    (fun _ st' => subs None st0 st') (fun _ _ => False).
Proof. intros H. unfold Computed_subscribe. subs_go. Qed.

Lemma Computed_unsubscribe_subs st0 self target st :
  subs None st0 st ->
  wp (Computed_unsubscribe rec self target) st
    (fun _ st' => subs None st0 st') (fun _ _ => False).
Proof. intros H. unfold Computed_unsubscribe. subs_go. Qed.

Lemma subscribe_subs st0 self target st :
  subs None st0 st ->
  wp (subscribe rec self target) st (fun _ st' => subs None st0 st') (fun _ _ => False).
Proof.
  intros H. unfold subscribe. subs_go.
  now apply Computed_subscribe_subs.
Qed.

Lemma unsubscribe_subs st0 self target st :
  subs None st0 st ->
  wp (unsubscribe rec self target) st (fun _ st' => subs None st0 st') (fun _ _ => False).
Proof.
  intros H. unfold unsubscribe. subs_go.
  now apply Computed_unsubscribe_subs.
Qed.

Lemma bodies_subs :
  ops_subs (mkOps (exec rec) (refresh rec) (subscribe rec) (unsubscribe rec)
              (notify rec) (drain_wave_body rec) (drain_body rec)).
Proof.
  constructor; simpl; intros.
  - now apply subscribe_subs.
  - now apply unsubscribe_subs.
Qed.

End Subs.

Lemma run_subs fuel : ops_subs (run fuel).
Proof.
  induction fuel as [|fuel IH].
  - constructor; simpl; intros; exact I.
  - simpl. apply bodies_subs. exact IH.
Qed.

Section SubsBodies.

Variable fuel : nat.

Lemma o_subscribe_subs o st0 i t st :
  subs o st0 st ->
  wp (o_subscribe (run fuel) i t) st (fun _ st' => subs o st0 st') (fun _ _ => False).
Proof.
  intros H. wp_apply (subs_subscribe (run fuel) (run_subs fuel) st); [apply subs_refl| |auto].
  eapply subs_trans; [exact H|]. now apply subs_weaken.
Qed.

Lemma o_unsubscribe_subs o st0 i t st :
  subs o st0 st ->
  wp (o_unsubscribe (run fuel) i t) st (fun _ st' => subs o st0 st') (fun _ _ => False).
Proof.
  intros H. wp_apply (subs_unsubscribe (run fuel) (run_subs fuel) st); [apply subs_refl| |auto].
  eapply subs_trans; [exact H|]. now apply subs_weaken.
Qed.

#[local] Hint Resolve o_subscribe_subs o_unsubscribe_subs : subs_specs.

Lemma prune_context_sources_subs o st0 st :
  subs o st0 st ->
  wp (prune_context_sources (run fuel)) st (fun _ st' => subs o st0 st') (fun _ _ => False).
Proof. intros H. unfold prune_context_sources. subs_go. Qed.
#[local] Hint Resolve prune_context_sources_subs : subs_specs.

(** [cleanup_context] changes subscriptions, and the dependency array of
    the current listener; nothing else. *)
Lemma cleanup_context_subs listener st :
  eval_listener st = Some listener ->
  wp (cleanup_context (run fuel)) st
    (fun _ st' => subs (Some listener) st st') (fun _ _ => False).
Proof.
  intros Hl. pose proof (subs_refl (Some listener) st) as H.
  unfold cleanup_context. subs_step. subs_step. rewrite Hl.
  subs_go.
Qed.

(** [dispose_effect(effect, false)] changes subscriptions, and the
    dependency array of the effect; nothing else. *)
Lemma dispose_effect_false_subs effect st :
  wp (dispose_effect_with (run fuel) (fun _ => ret tt) effect false) st
    (fun _ st' => subs (Some effect) st st') (fun _ _ => False).
Proof.
  pose proof (subs_refl (Some effect) st) as H.
  unfold dispose_effect_with. subs_go.
Qed.

End SubsBodies.

(** * A running computed signal across a call *)

Lemma wp_modify_guard (f : State -> State) st c s k (Q : unit -> State -> Prop) E :
  guarded c s k st ->
  nodes (f st) = nodes st ->
  compute_count c (f st) = compute_count c st ->
  (forall st', guarded c s k st' -> Q tt st') ->
  wp (modify f) st Q E.
Proof.
  intros [(n & Hn & HP) Hc] Hnodes Hcount HQ. apply wp_modify, HQ.
  split; [|congruence]. exists n. now rewrite Hnodes.
Qed.

Lemma wp_update_guard (i : node_id) (f : Node -> Node) st c s k
    (Q : unit -> State -> Prop) E :
  guarded c s k st ->
  (forall n, nodes st !! i = Some n -> i = c -> is_running s (f n)) ->
  (forall st', guarded c s k st' -> Q tt st') ->
  wp (update i f) st Q E.
Proof.
  intros [Hq Hc] Hkeep HQ. apply wp_update. intros n Hn. apply HQ.
  split; [|exact Hc]. eapply protected_insert; eauto.
Qed.

Lemma wp_alloc_guard (x : Node) st c s k (Q : node_id -> State -> Prop) E :
  guarded c s k st ->
  (forall i st', guarded c s k st' -> Q i st') ->
  wp (alloc x) st Q E.
Proof.
  intros [Hq Hc] HQ. apply wp_alloc, HQ. split; [|exact Hc].
  now apply protected_alloc.
Qed.

Ltac guard_open :=
  repeat match goal with
         | H : guarded _ _ _ _ |- _ =>
             destruct H as [(? & ? & ? & ? & ? & ? & ? & ? & ?) ?]
         end.

(** The side conditions: the object at hand is the guarded one, which the
    flags read on the way exclude, or which the update respects. *)
Ltac ne_clash :=
  match goal with
  | H : ?x <> ?x |- _ => exfalso; apply H; reflexivity
  end.

Ltac guard_side :=
  intros; subst; guard_open; same_node;
  first
    [ ne_clash
    | kind_clash
    | unfold is_running;
      cbn [kind _flags _epoch _value with_epoch with_access_epoch
           with_dependants with_value with_dependencies with_flags
           with_realm_write_epoch with_context_epoch with_cleanups
           with_next_batched_effect];
      flag_simpl; bits_known; flag_simpl;
      first [ bool_clash
            | repeat split; first [assumption | reflexivity ] ] ].

Ltac guard_count :=
  first
    [ reflexivity
    | unfold compute_count;
      cbn [calls with_calls];
      apply count_occ_cons_neq; intros ->; exfalso;
      guard_open; same_node; flag_simpl; bits_known; flag_simpl; bool_clash ].

Create HintDb guard_specs discriminated.
#[global] Hint Resolve guard_call guard_refresh guard_subscribe guard_unsubscribe
  guard_notify guard_drain_wave guard_drain : guard_specs.
#[global] Hint Extern 1 (guarded _ _ _ _) => eassumption : guard_specs.

(** The object at hand is not the guarded one: it is not running. *)
Ltac not_guarded :=
  first
    [ assumption
    | intros ->; exfalso; guard_open; same_node;
      flag_simpl; bits_known; flag_simpl; bool_clash ].
#[global] Hint Extern 1 (_ <> _) => solve [not_guarded] : guard_specs.

Ltac guard_step :=
  lazymatch goal with
  | |- wp (modify _) ?st _ _ =>
      match goal with
      | H : guarded _ _ _ st |- _ =>
          eapply (wp_modify_guard _ _ _ _ _ _ _ H);
          [reflexivity | solve [guard_count] | intros ? ?]
      end
  | |- wp start_batch ?st _ _ =>
      match goal with
      | H : guarded _ _ _ st |- _ =>
          eapply (wp_modify_guard _ _ _ _ _ _ _ H);
          [reflexivity | reflexivity | intros ? ?]
      end
  | |- wp (update _ _) ?st _ _ =>
      match goal with
      | H : guarded _ _ _ st |- _ =>
          eapply (wp_update_guard _ _ _ _ _ _ _ _ H); [solve [guard_side] | intros ? ?]
      end
  | |- wp (alloc _) ?st _ _ =>
      match goal with
      | H : guarded _ _ _ st |- _ =>
          eapply (wp_alloc_guard _ _ _ _ _ _ _ H); intros ? ? ?
      end
  | |- wp (for_each _ _) ?st _ _ =>
      match goal with
      | H : guarded ?c ?s ?k st |- _ =>
          eapply wp_conseq;
          [ eapply (wp_for_each _ _ (guarded c s k) (fun _ st' => guarded c s k st'));
            [ exact H | cbv beta; intros ? ? ? ? ]
          | cbv beta; intros ? ? ? | cbv beta; intros ? ? ? ]
      end
  | |- guarded _ _ _ _ => eassumption
  | |- wp _ _ _ _ =>
      first
        [ wp_step
        | eapply wp_conseq;
          [ solve [eauto 4 with guard_specs]
          | cbv beta; intros ? ? ? | cbv beta; intros ? ? ? ] ]
  end.

Ltac guard_go := repeat guard_step.

Section Guard.

Variable rec : Ops.
Hypothesis Hrec : ops_guard rec.

Lemma is_stale_loop_guard c s k target deps st :
  guarded c s k st ->
  wp (is_stale_loop rec target deps) st
    (fun _ st' => guarded c s k st') (fun _ st' => guarded c s k st').
Proof.
  revert st. induction deps as [|d deps IH]; intros st H; simpl; guard_go.
Qed.
#[local] Hint Resolve is_stale_loop_guard : guard_specs.

Lemma is_stale_guard c s k target flags st :
  guarded c s k st ->
  wp (is_stale rec target flags) st
    (fun _ st' => guarded c s k st') (fun _ st' => guarded c s k st').
Proof. intros H. unfold is_stale. guard_go. Qed.
#[local] Hint Resolve is_stale_guard : guard_specs.

Lemma end_batch_guard c s k  st :
  guarded c s k st ->
  wp (end_batch rec) st
    (fun _ st' => guarded c s k st') (fun _ st' => guarded c s k st').
Proof. intros H. unfold end_batch. guard_go. Qed.
#[local] Hint Resolve end_batch_guard : guard_specs.

Lemma prune_context_sources_guard c s k  st :
  guarded c s k st ->
  wp (prune_context_sources rec) st
    (fun _ st' => guarded c s k st') (fun _ st' => guarded c s k st').
Proof. intros H. unfold prune_context_sources. guard_go. Qed.
#[local] Hint Resolve prune_context_sources_guard : guard_specs.

Lemma cleanup_context_guard c s k  st :
  guarded c s k st ->
  wp (cleanup_context rec) st
    (fun _ st' => guarded c s k st') (fun _ st' => guarded c s k st').
Proof. intros H. unfold cleanup_context. guard_go. Qed.
#[local] Hint Resolve cleanup_context_guard : guard_specs.

Lemma dispose_effect_with_guard c s k (cleanup : node_id -> M unit) effect run_cleanup st :
  (forall st, guarded c s k st ->
     wp (cleanup effect) st (fun _ st' => guarded c s k st') (fun _ st' => guarded c s k st')) ->
  guarded c s k st ->
  wp (dispose_effect_with rec cleanup effect run_cleanup) st
    (fun _ st' => guarded c s k st') (fun _ st' => guarded c s k st').
Proof. intros Hc H. unfold dispose_effect_with. guard_go. Qed.

Lemma dispose_effect_false_guard c s k effect st :
  guarded c s k st ->
  wp (dispose_effect_with rec (fun _ => ret tt) effect false) st
    (fun _ st' => guarded c s k st') (fun _ st' => guarded c s k st').
Proof. intros H. unfold dispose_effect_with. guard_go. Qed.
#[local] Hint Resolve dispose_effect_false_guard : guard_specs.

Lemma cleanup_effect_guard c s k effect st :
  guarded c s k st ->
  effect <> c ->
  wp (cleanup_effect rec effect) st
    (fun _ st' => guarded c s k st') (fun _ st' => guarded c s k st').
Proof. intros H Hne. unfold cleanup_effect. guard_go. Qed.
#[local] Hint Resolve cleanup_effect_guard : guard_specs.

Lemma dispose_effect_guard c s k effect run_cleanup st :
  guarded c s k st ->
  effect <> c ->
  wp (dispose_effect rec effect run_cleanup) st
    (fun _ st' => guarded c s k st') (fun _ st' => guarded c s k st').
Proof.
  intros H Hne. apply dispose_effect_with_guard; auto.
  intros. now apply cleanup_effect_guard.
Qed.
#[local] Hint Resolve dispose_effect_guard : guard_specs.

Lemma Signal_subscribe_guard c s k self target st :
  guarded c s k st ->
  wp (Signal_subscribe self target) st
    (fun _ st' => guarded c s k st') (fun _ st' => guarded c s k st').
Proof. intros H. unfold Signal_subscribe. guard_go. Qed.
#[local] Hint Resolve Signal_subscribe_guard : guard_specs.

Lemma Signal_unsubscribe_guard c s k self target st :
  guarded c s k st ->
  wp (Signal_unsubscribe self target) st
    (fun _ st' => guarded c s k st') (fun _ st' => guarded c s k st').
Proof. intros H. unfold Signal_unsubscribe. guard_go. Qed.
#[local] Hint Resolve Signal_unsubscribe_guard : guard_specs.

Lemma Signal_peek_guard c s k self st :
  guarded c s k st ->
  wp (Signal_peek self) st
    (fun _ st' => guarded c s k st') (fun _ st' => guarded c s k st').
Proof. intros H. unfold Signal_peek. guard_go. Qed.
#[local] Hint Resolve Signal_peek_guard : guard_specs.

Lemma Signal_get_guard c s k self st :
  guarded c s k st ->
  wp (Signal_get self) st
    (fun _ st' => guarded c s k st') (fun _ st' => guarded c s k st').
Proof. intros H. unfold Signal_get. guard_go. Qed.
#[local] Hint Resolve Signal_get_guard : guard_specs.

Lemma Signal_set_guard c s k self next st :
  guarded c s k st ->
  wp (Signal_set rec self next) st
    (fun _ st' => guarded c s k st') (fun _ st' => guarded c s k st').
Proof. intros H. unfold Signal_set. guard_go. Qed.
#[local] Hint Resolve Signal_set_guard : guard_specs.

Lemma Computed_refresh_guard c s k self st :
  guarded c s k st ->
  wp (Computed_refresh rec self) st
    (fun _ st' => guarded c s k st') (fun _ st' => guarded c s k st').
Proof. intros H. unfold Computed_refresh. guard_go. Qed.
#[local] Hint Resolve Computed_refresh_guard : guard_specs.

Lemma Computed_subscribe_guard c s k self target st :
  guarded c s k st ->
  wp (Computed_subscribe rec self target) st
    (fun _ st' => guarded c s k st') (fun _ st' => guarded c s k st').
Proof. intros H. unfold Computed_subscribe. guard_go. Qed.
#[local] Hint Resolve Computed_subscribe_guard : guard_specs.

Lemma Computed_unsubscribe_guard c s k self target st :
  guarded c s k st ->
  wp (Computed_unsubscribe rec self target) st
    (fun _ st' => guarded c s k st') (fun _ st' => guarded c s k st').
Proof. intros H. unfold Computed_unsubscribe. guard_go. Qed.
#[local] Hint Resolve Computed_unsubscribe_guard : guard_specs.

Lemma Computed_notify_guard c s k self flag st :
  guarded c s k st ->
  wp (Computed_notify rec self flag) st
    (fun _ st' => guarded c s k st') (fun _ st' => guarded c s k st').
Proof. intros H. unfold Computed_notify. guard_go. Qed.
#[local] Hint Resolve Computed_notify_guard : guard_specs.

Lemma Computed_peek_guard c s k self st :
  guarded c s k st ->
  wp (Computed_peek rec self) st
    (fun _ st' => guarded c s k st') (fun _ st' => guarded c s k st').
Proof. intros H. unfold Computed_peek. guard_go. Qed.
#[local] Hint Resolve Computed_peek_guard : guard_specs.

Lemma Computed_get_guard c s k self st :
  guarded c s k st ->
  wp (Computed_get rec self) st
    (fun _ st' => guarded c s k st') (fun _ st' => guarded c s k st').
Proof. intros H. unfold Computed_get. guard_go. Qed.
#[local] Hint Resolve Computed_get_guard : guard_specs.

Lemma Effect_refresh_guard c s k self st :
  guarded c s k st ->
  wp (Effect_refresh rec self) st
    (fun _ st' => guarded c s k st') (fun _ st' => guarded c s k st').
Proof. intros H. unfold Effect_refresh. guard_go. Qed.
#[local] Hint Resolve Effect_refresh_guard : guard_specs.

Lemma Effect_notify_guard c s k self flag st :
  guarded c s k st ->
  wp (Effect_notify self flag) st
    (fun _ st' => guarded c s k st') (fun _ st' => guarded c s k st').
Proof. intros H. unfold Effect_notify. guard_go. Qed.
#[local] Hint Resolve Effect_notify_guard : guard_specs.

Lemma Effect_dispose_guard c s k self st :
  guarded c s k st ->
  wp (Effect_dispose rec self) st
    (fun _ st' => guarded c s k st') (fun _ st' => guarded c s k st').
Proof. intros H. unfold Effect_dispose. guard_go. Qed.
#[local] Hint Resolve Effect_dispose_guard : guard_specs.

Lemma drain_wave_body_guard c s k effect acc st :
  guarded c s k st ->
  wp (drain_wave_body rec effect acc) st
    (fun _ st' => guarded c s k st') (fun _ st' => guarded c s k st').
Proof. intros H. unfold drain_wave_body. guard_go. Qed.

Lemma drain_body_guard c s k acc st :
  guarded c s k st ->
  wp (drain_body rec acc) st
    (fun _ st' => guarded c s k st') (fun _ st' => guarded c s k st').
Proof. intros H. unfold drain_body. guard_go. Qed.

Lemma refresh_guard c s k self st :
  guarded c s k st ->
  wp (refresh rec self) st
    (fun _ st' => guarded c s k st') (fun _ st' => guarded c s k st').
Proof. intros H. unfold refresh, Signal_refresh. guard_go. Qed.

Lemma subscribe_guard c s k self target st :
  guarded c s k st ->
  wp (subscribe rec self target) st
    (fun _ st' => guarded c s k st') (fun _ st' => guarded c s k st').
Proof. intros H. unfold subscribe. guard_go. Qed.

Lemma unsubscribe_guard c s k self target st :
  guarded c s k st ->
  wp (unsubscribe rec self target) st
    (fun _ st' => guarded c s k st') (fun _ st' => guarded c s k st').
Proof. intros H. unfold unsubscribe. guard_go. Qed.

Lemma notify_guard c s k self flag st :
  guarded c s k st ->
  wp (notify rec self flag) st
    (fun _ st' => guarded c s k st') (fun _ st' => guarded c s k st').
Proof. intros H. unfold notify. guard_go. Qed.

Lemma peek_guard c s k self st :
  guarded c s k st ->
  wp (peek rec self) st
    (fun _ st' => guarded c s k st') (fun _ st' => guarded c s k st').
Proof. intros H. unfold peek. guard_go. Qed.
#[local] Hint Resolve peek_guard : guard_specs.

Lemma get_value_guard c s k self st :
  guarded c s k st ->
  wp (get_value rec self) st
    (fun _ st' => guarded c s k st') (fun _ st' => guarded c s k st').
Proof. intros H. unfold get_value. guard_go. Qed.
#[local] Hint Resolve get_value_guard : guard_specs.

Lemma signal_guard c s k v st :
  guarded c s k st ->
  wp (signal v) st
    (fun _ st' => guarded c s k st') (fun _ st' => guarded c s k st').
Proof. intros H. unfold signal. guard_go. Qed.
#[local] Hint Resolve signal_guard : guard_specs.

Lemma computed_guard c s k f v st :
  guarded c s k st ->
  wp (computed f v) st
    (fun _ st' => guarded c s k st') (fun _ st' => guarded c s k st').
Proof. intros H. unfold computed. guard_go. Qed.
#[local] Hint Resolve computed_guard : guard_specs.

Lemma effect_guard c s k f v st :
  guarded c s k st ->
  wp (effect rec f v) st
    (fun _ st' => guarded c s k st') (fun _ st' => guarded c s k st').
Proof. intros H. unfold effect. guard_go. Qed.
#[local] Hint Resolve effect_guard : guard_specs.

Lemma cleanup_guard c s k fn throws st :
  guarded c s k st ->
  wp (cleanup fn throws) st
    (fun _ st' => guarded c s k st') (fun _ st' => guarded c s k st').
Proof. intros H. unfold cleanup. guard_go. Qed.
#[local] Hint Resolve cleanup_guard : guard_specs.

Lemma untrack_guard {A} c s k (callback : M A) st :
  (forall st, guarded c s k st ->
     wp callback st (fun _ st' => guarded c s k st') (fun _ st' => guarded c s k st')) ->
  guarded c s k st ->
  wp (untrack callback) st
    (fun _ st' => guarded c s k st') (fun _ st' => guarded c s k st').
Proof. intros Hc H. unfold untrack. guard_go. Qed.

Lemma batch_guard {A} c s k (callback : M A) st :
  (forall st, guarded c s k st ->
     wp callback st (fun _ st' => guarded c s k st') (fun _ st' => guarded c s k st')) ->
  guarded c s k st ->
  wp (batch rec callback) st
    (fun _ st' => guarded c s k st') (fun _ st' => guarded c s k st').
Proof. intros Hc H. unfold batch. guard_go. Qed.

Lemma exec_guard p : forall c sn k st,
  guarded c sn k st ->
  wp (exec rec p) st
    (fun _ st' => guarded c sn k st') (fun _ st' => guarded c sn k st').
Proof.
  induction p; intros c sn k0 st Hg; simpl; guard_go.
  - eapply wp_conseq;
      [eapply (untrack_guard c sn k0); [intros; apply IHp; assumption|eassumption]| |];
      cbv beta; intros; guard_go.
  - eapply wp_conseq;
      [eapply (batch_guard c sn k0); [intros; apply IHp1; assumption|eassumption]| |];
      cbv beta; intros; guard_go.
Qed.

Lemma bodies_guard :
  ops_guard (mkOps (exec rec) (refresh rec) (subscribe rec) (unsubscribe rec)
               (notify rec) (drain_wave_body rec) (drain_body rec)).
Proof.
  constructor; simpl; intros.
  - now apply exec_guard.
  - now apply refresh_guard.
  - now apply subscribe_guard.
  - now apply unsubscribe_guard.
  - now apply notify_guard.
  - now apply drain_wave_body_guard.
  - now apply drain_body_guard.
Qed.

End Guard.

(** While a computed signal runs, no call changes its staleness flags, its
    error flag, its epoch or its value, and none invokes its compute
    function. *)
Lemma run_guard fuel : ops_guard (run fuel).
Proof.
  induction fuel as [|fuel IH].
  - constructor; simpl; intros; exact I.
  - simpl. apply bodies_guard. exact IH.
Qed.
(** * Subscriptions on a dependency graph without cycles *)

Lemma lowerb_sound rank st owner d : lowerb rank st owner d = true -> lower rank st owner d.
Proof.
  unfold lowerb, lower. intros H. apply andb_true_iff in H as [Hr Hk].
  apply Nat.ltb_lt in Hr. split; [exact Hr|].
  destruct (nodes st !! d) as [m|]; [|discriminate].
  exists m. split; [reflexivity|]. destruct (kind m); congruence.
Qed.

Lemma acyclicb_sound rank st : acyclicb rank st = true -> acyclic rank st.
Proof.
  unfold acyclicb, acyclic. intros H i n d Hn Hd.
  rewrite forallb_forall in H.
  assert (Hi : In i (seq 0 (length (nodes st)))).
  { apply in_seq. apply lookup_lt_Some in Hn. lia. }
  specialize (H i Hi). rewrite Hn in H.
  rewrite forallb_forall in H. apply lowerb_sound, H.
  now apply list_elem_of_In.
Qed.

Lemma reconcilableb_sound rank c st :
  reconcilableb rank c st = true -> reconcilable rank c st.
Proof.
  unfold reconcilableb, reconcilable. destruct (nodes st !! c) as [n|]; [|discriminate].
  intros H. apply andb_true_iff in H as [Hi Hu].
  exists n. split; [reflexivity|]. split; [now apply Nat.leb_le|].
  intros u d Hsome Hd. rewrite Hsome in Hu. cbn in Hu.
  rewrite forallb_forall in Hu. apply lowerb_sound, Hu.
  now apply list_elem_of_In.
Qed.

Lemma same_graph_refl st : same_graph st st.
Proof. split; [reflexivity|]. intros i n Hn. eauto. Qed.

Lemma same_graph_trans st1 st2 st3 :
  same_graph st1 st2 -> same_graph st2 st3 -> same_graph st1 st3.
Proof.
  intros [L1 N1] [L2 N2]. split; [congruence|].
  intros i n Hn. destruct (N1 i n Hn) as (n2 & Hn2 & K2 & D2).
  destruct (N2 i n2 Hn2) as (n3 & Hn3 & K3 & D3).
  exists n3. repeat split; congruence.
Qed.

Lemma same_graph_back st st' i n' :
  same_graph st st' -> nodes st' !! i = Some n' ->
  exists n, nodes st !! i = Some n /\ kind n' = kind n
            /\ _dependencies n' = _dependencies n.
Proof.
  intros [L N] Hn'.
  assert (Hlt : (i < length (nodes st))%nat).
  { rewrite <- L. eapply lookup_lt_Some; eauto. }
  destruct (lookup_lt_is_Some_2 _ _ Hlt) as [n Hn].
  destruct (N i n Hn) as (n2 & Hn2 & K & D).
  assert (n2 = n') by congruence. subst n2. eauto.
Qed.

Lemma lower_same_graph rank st st' owner d :
  same_graph st st' -> lower rank st owner d -> lower rank st' owner d.
Proof.
  intros [L N] [Hr (m & Hm & Hk)]. split; [exact Hr|].
  destruct (N d m Hm) as (m' & Hm' & K & _). exists m'. split; [exact Hm'|congruence].
Qed.

Lemma acyclic_same_graph rank st st' :
  same_graph st st' -> acyclic rank st -> acyclic rank st'.
Proof.
  intros Hg Ha i n' d Hn' Hd.
  destruct (same_graph_back _ _ _ _ Hg Hn') as (n & Hn & _ & Hdeps).
  rewrite Hdeps in Hd. eapply lower_same_graph; [exact Hg|]. eapply Ha; eauto.
Qed.

Lemma subs_same_graph st st' : subs None st st' -> same_graph st st'.
Proof.
  intros (_ & L & N). split; [exact L|].
  intros i n Hn. destruct (N i n Hn) as (n' & Hn' & S).
  exists n'. split; [exact Hn'|].
  destruct S as (K & _ & _ & _ & D & _). split; [exact K|]. now apply D.
Qed.

(** An update that keeps the class and the dependency array. *)
Lemma same_graph_update st i n (f : Node -> Node) :
  nodes st !! i = Some n ->
  kind (f n) = kind n ->
  _dependencies (f n) = _dependencies n ->
  same_graph st (with_nodes (<[i := f n]> (nodes st)) st).
Proof.
  intros Hn Hk Hd. split; [cbn [nodes with_nodes]; apply length_insert|].
  intros j m Hm. cbn [nodes with_nodes].
  destruct (decide (i = j)) as [->|Hne].
  - assert (m = n) by congruence. subst m. exists (f n).
    split; [|auto]. apply list_lookup_insert_eq. eapply lookup_lt_Some; eauto.
  - exists m. split; [|auto]. now rewrite list_lookup_insert_ne.
Qed.

(** Replacing the dependency array of [c] by entries that rank below [c]
    keeps the graph acyclic. *)
Lemma acyclic_new_dependencies rank st c n deps :
  acyclic rank st ->
  nodes st !! c = Some n ->
  (forall d, d ∈ deps -> lower rank st c d) ->
  acyclic rank (with_nodes (<[c := with_dependencies deps n]> (nodes st)) st).
Proof.
  intros Ha Hn Hdeps.
  assert (Hkeep : forall owner d, lower rank st owner d ->
            lower rank (with_nodes (<[c := with_dependencies deps n]> (nodes st)) st)
              owner d).
  { intros owner d [Hr (m & Hm & Hk)]. split; [exact Hr|]. cbn [nodes with_nodes].
    destruct (decide (c = d)) as [->|Hne].
    - assert (m = n) by congruence. subst m. exists (with_dependencies deps n).
      split; [|exact Hk].
      apply list_lookup_insert_eq. eapply lookup_lt_Some; eauto.
    - exists m. split; [|exact Hk]. now rewrite list_lookup_insert_ne. }
  intros i m d Hm Hd. apply Hkeep. cbn [nodes with_nodes] in Hm.
  destruct (decide (c = i)) as [->|Hne].
  - rewrite list_lookup_insert_eq in Hm by (eapply lookup_lt_Some; eauto).
    injection Hm as <-. cbn [_dependencies with_dependencies] in Hd. auto.
  - rewrite list_lookup_insert_ne in Hm by assumption. eapply Ha; eauto.
Qed.

(** On an acyclic graph, [_unsubscribe] and [_subscribe] return, given a
    number of nested calls above the rank of the receiver. *)
Lemma o_unsubscribe_returns rank fuel : forall i t st,
  acyclic rank st ->
  (exists m, nodes st !! i = Some m /\ kind m <> KEffect) ->
  (rank i < fuel)%nat ->
  wpt (o_unsubscribe (run fuel) i t) st (fun _ st' => subs None st st') (fun _ _ => False).
Proof.
  induction fuel as [|fuel IH]; intros i t st Ha (m & Hm & Hk) Hr; [lia|].
  simpl. unfold unsubscribe. wpt_step. wpt_step.
  assert (Hsig : wpt (Signal_unsubscribe i t) st
                   (fun _ st' => subs None st st') (fun _ _ => False)).
  { apply wpt_intro; [apply Signal_unsubscribe_subs, subs_refl|].
    unfold Signal_unsubscribe, bind, lookup, update. rewrite Hm. cbn. rewrite Hm.
    discriminate. }
  destruct (kind m) eqn:Hkind; [exact Hsig| |congruence].
  unfold Computed_unsubscribe. wpt_step.
  eapply wpt_conseq; [exact Hsig| |auto]. cbv beta. intros _ st1 Hs1.
  destruct Hs1 as (G1 & L1 & N1). destruct (N1 i m Hm) as (m1 & Hm1 & S1).
  wpt_step. wpt_step.
  destruct (length (_dependants m1) <? 1)%nat;
    [|wpt_step; exact (conj G1 (conj L1 N1))].
  wpt_step. wpt_step.
  match goal with
  | |- wpt _ ?s _ _ =>
      assert (Hs2 : subs None st s);
      [|remember s as st2 eqn:Heq; clear Heq]
  end.
  { eapply subs_trans; [exact (conj G1 (conj L1 N1))|].
    split; [unfold same_globals; cbn; tauto|]. cbn [nodes with_nodes].
    split; [apply length_insert|].
    intros j x Hx. destruct (decide (i = j)) as [->|Hne].
    - assert (x = m1) by congruence. subst x. eexists.
      split; [apply list_lookup_insert_eq; eapply lookup_lt_Some; eauto|].
      unfold sub_only. cbn [kind _epoch _access_epoch _value _dependencies _flags
        _realm_write_epoch _context_epoch _compute _cleanups _next_batched_effect
        with_flags]. rewrite lor_TRACKING_clear. repeat split; reflexivity.
    - exists x. split; [now rewrite list_lookup_insert_ne|apply sub_only_refl]. }
  cbn [_dependencies with_flags].
  assert (Hdeps : _dependencies m1 = _dependencies m).
  { destruct S1 as (_ & _ & _ & _ & D & _). now apply D. }
  rewrite Hdeps.
  eapply wpt_conseq;
    [apply (wpt_for_each _ _ (fun s => subs None st s) (fun _ _ => False));
     [exact Hs2|]| |auto]; cbv beta; [|auto].
  intros d sa Hd Hsa.
  pose proof (subs_same_graph _ _ Hsa) as Hg.
  destruct (Ha i m d Hm Hd) as [Hrd Hex].
  eapply wpt_conseq; [apply IH| |auto]; cbv beta.
  - eapply acyclic_same_graph; eauto.
  - destruct Hex as (x & Hx & Hkx). destruct Hg as [_ Ng].
    destruct (Ng d x Hx) as (x' & Hx' & Kx' & _). exists x'. split; [exact Hx'|congruence].
  - lia.
  - intros _ sb Hsb. eapply subs_trans; eauto.
Qed.

Lemma o_subscribe_returns rank fuel : forall i t st,
  acyclic rank st ->
  (exists m, nodes st !! i = Some m /\ kind m <> KEffect) ->
  (rank i < fuel)%nat ->
  wpt (o_subscribe (run fuel) i t) st (fun _ st' => subs None st st') (fun _ _ => False).
Proof.
  induction fuel as [|fuel IH]; intros i t st Ha (m & Hm & Hk) Hr; [lia|].
  simpl. unfold subscribe. wpt_step. wpt_step.
  assert (Hsig : forall s, subs None st s ->
            wpt (Signal_subscribe i t) s
              (fun _ st' => subs None st st') (fun _ _ => False)).
  { intros s Hs. apply wpt_intro; [now apply Signal_subscribe_subs|].
    destruct Hs as (_ & _ & N). destruct (N i m Hm) as (m' & Hm' & _).
    unfold Signal_subscribe, bind, lookup, update. rewrite Hm'. cbn. rewrite Hm'.
    discriminate. }
  destruct (kind m) eqn:Hkind; [apply Hsig, subs_refl| |congruence].
  unfold Computed_subscribe. wpt_step. wpt_step. wpt_step.
  destruct (length (_dependants m) <? 1)%nat;
    [|wpt_step; apply Hsig, subs_refl].
  wpt_step. wpt_step.
  match goal with
  | |- wpt _ ?s _ _ =>
      assert (Hs2 : subs None st s);
      [|remember s as st2 eqn:Heq; clear Heq]
  end.
  { split; [unfold same_globals; cbn; tauto|]. cbn [nodes with_nodes].
    split; [apply length_insert|].
    intros j x Hx. destruct (decide (i = j)) as [->|Hne].
    - assert (x = m) by congruence. subst x. eexists.
      split; [apply list_lookup_insert_eq; eapply lookup_lt_Some; eauto|].
      unfold sub_only. cbn [kind _epoch _access_epoch _value _dependencies _flags
        _realm_write_epoch _context_epoch _compute _cleanups _next_batched_effect
        with_flags]. rewrite lor_TRACKING_set. repeat split; reflexivity.
    - exists x. split; [now rewrite list_lookup_insert_ne|apply sub_only_refl]. }
  eapply wpt_conseq;
    [apply (wpt_for_each _ _ (fun s => subs None st s) (fun _ _ => False));
     [exact Hs2|]| |auto]; cbv beta; [|intros; now apply Hsig].
  intros d sa Hd Hsa.
  pose proof (subs_same_graph _ _ Hsa) as Hg.
  destruct (Ha i m d Hm Hd) as [Hrd Hex].
  eapply wpt_conseq; [apply IH| |auto]; cbv beta.
  - eapply acyclic_same_graph; eauto.
  - destruct Hex as (x & Hx & Hkx). destruct Hg as [_ Ng].
    destruct (Ng d x Hx) as (x' & Hx' & Kx' & _). exists x'. split; [exact Hx'|congruence].
  - lia.
  - intros _ sb Hsb. eapply subs_trans; eauto.
Qed.

(** A walk that unsubscribes [t] from each entry of [deps] returns. *)
Lemma unsubscribe_all_returns rank fuel owner t deps st :
  acyclic rank st ->
  (forall d, d ∈ deps -> lower rank st owner d) ->
  (forall i, (rank i < fuel)%nat) ->
  wpt (for_each deps (fun dep => o_unsubscribe (run fuel) dep t)) st
    (fun _ st' => subs None st st') (fun _ _ => False).
Proof.
  intros Ha Hdeps Hfuel.
  eapply wpt_conseq;
    [apply (wpt_for_each _ _ (fun s => subs None st s) (fun _ _ => False));
     [apply subs_refl|]| |auto]; cbv beta; [|auto].
  intros d sa Hd Hsa. pose proof (subs_same_graph _ _ Hsa) as Hg.
  eapply wpt_conseq; [apply (o_unsubscribe_returns rank)| |auto]; cbv beta.
  - eapply acyclic_same_graph; eauto.
  - destruct (lower_same_graph _ _ _ _ _ Hg (Hdeps d Hd)) as [_ Hex]. exact Hex.
  - apply Hfuel.
  - intros _ sb Hsb. eapply subs_trans; eauto.
Qed.

Lemma subscribe_all_returns rank fuel owner t deps st :
  acyclic rank st ->
  (forall d, d ∈ deps -> lower rank st owner d) ->
  (forall i, (rank i < fuel)%nat) ->
  wpt (for_each deps (fun dep => o_subscribe (run fuel) dep t)) st
    (fun _ st' => subs None st st') (fun _ _ => False).
Proof.
  intros Ha Hdeps Hfuel.
  eapply wpt_conseq;
    [apply (wpt_for_each _ _ (fun s => subs None st s) (fun _ _ => False));
     [apply subs_refl|]| |auto]; cbv beta; [|auto].
  intros d sa Hd Hsa. pose proof (subs_same_graph _ _ Hsa) as Hg.
  eapply wpt_conseq; [apply (o_subscribe_returns rank)| |auto]; cbv beta.
  - eapply acyclic_same_graph; eauto.
  - destruct (lower_same_graph _ _ _ _ _ Hg (Hdeps d Hd)) as [_ Hex]. exact Hex.
  - apply Hfuel.
  - intros _ sb Hsb. eapply subs_trans; eauto.
Qed.

Lemma prune_context_sources_returns rank fuel c n st :
  eval_listener st = Some c ->
  nodes st !! c = Some n ->
  acyclic rank st ->
  (forall i, (rank i < fuel)%nat) ->
  wpt (prune_context_sources (run fuel)) st
    (fun _ st' => subs None st st') (fun _ _ => False).
Proof.
  intros Hl Hn Ha Hfuel. unfold prune_context_sources.
  wpt_step. wpt_step. rewrite Hl. wpt_step. wpt_step.
  apply (unsubscribe_all_returns rank fuel c); [exact Ha| |exact Hfuel].
  intros d Hd. eapply Ha; eauto.
Qed.

(** The reconciliation at the end of a run returns. *)
Lemma cleanup_context_returns rank fuel c st :
  eval_listener st = Some c ->
  acyclic rank st ->
  reconcilable rank c st ->
  (forall i, (rank i < fuel)%nat) ->
  wpt (cleanup_context (run fuel)) st
    (fun _ st' => subs (Some c) st st') (fun _ _ => False).
Proof.
  intros Hl Ha (n & Hn & Hidx & Hbuf) Hfuel.
  apply wpt_intro; [now apply cleanup_context_subs|].
  apply (wpt_returns _ _ (fun _ _ => True) (fun _ _ => False)).
  unfold cleanup_context. wpt_step. wpt_step. rewrite Hl. wpt_step. wpt_step.
  rewrite bool_decide_eq_true_2 by exact Hidx.
  assert (Hprune : forall (k : unit -> M unit),
    (forall s1, subs None st s1 -> wpt (k tt) s1 (fun _ _ => True) (fun _ _ => False)) ->
    wpt (let* u := prune_context_sources (run fuel) in k u) st
      (fun _ _ => True) (fun _ _ => False)).
  { intros k Hk. wpt_step.
    eapply wpt_conseq;
      [apply (prune_context_sources_returns rank fuel c n); assumption| |auto].
    cbv beta. intros [] s1 Hs1. apply Hk, Hs1. }
  destruct (eval_untracked_sources st) as [untracked|] eqn:Hu.
  - apply Hprune. intros s1 Hs1.
    pose proof (subs_same_graph _ _ Hs1) as Hg1.
    destruct Hg1 as [L1 N1]. destruct (N1 c n Hn) as (n1 & Hn1 & K1 & D1).
    assert (Ha1 : acyclic rank s1)
      by (eapply acyclic_same_graph; [split; eassumption|exact Ha]).
    set (deps := if (0 <? eval_sources_index st)%nat
                 then take (eval_sources_index st) (_dependencies n) ++ untracked
                 else untracked).
    assert (Hlow : forall d, d ∈ deps -> lower rank s1 c d).
    { intros d Hd. eapply lower_same_graph; [split; eassumption|].
      unfold deps in Hd. destruct (0 <? eval_sources_index st)%nat.
      - apply elem_of_app in Hd as [Hd|Hd]; [|eapply Hbuf; eauto].
        eapply Ha; [exact Hn|]. eapply elem_of_sublist; [exact Hd|apply sublist_take].
      - eapply Hbuf; eauto. }
    assert (Ha2 : acyclic rank
                    (with_nodes (<[c := with_dependencies deps n1]> (nodes s1)) s1))
      by now apply acyclic_new_dependencies.
    apply wpt_bind.
    apply wpt_conseq with
      (Q := fun _ s2 => s2 = with_nodes (<[c := with_dependencies deps n1]> (nodes s1)) s1)
      (E := fun _ _ => False); [| |auto].
    { unfold deps. destruct (0 <? eval_sources_index st)%nat; wpt_step; reflexivity. }
    cbv beta. intros _ s2 ->. wpt_step. wpt_step.
    cbn [_flags _dependencies with_dependencies].
    destruct (truthy (Z.land (_flags n1) TRACKING)); [|wpt_step; exact I].
    eapply wpt_conseq;
      [apply (subscribe_all_returns rank fuel c); [exact Ha2| |exact Hfuel]| |auto];
      cbv beta; [|auto].
    intros d Hd. eapply elem_of_sublist in Hd; [|apply sublist_drop].
    destruct (Hlow d Hd) as [Hr (m & Hm & Hk)]. split; [exact Hr|].
    cbn [nodes with_nodes]. destruct (decide (c = d)) as [->|Hne].
    + exfalso. lia.
    + exists m. split; [now rewrite list_lookup_insert_ne|exact Hk].
  - destruct (eval_sources_index st <? length (_dependencies n))%nat; [|wpt_step; exact I].
    apply Hprune. intros s1 Hs1.
    destruct Hs1 as (_ & _ & N1). destruct (N1 c n Hn) as (n1 & Hn1 & _).
    wpt_step. exact I.
Qed.

(** [dispose_effect(effect, false)] returns. *)
Lemma dispose_effect_false_returns rank fuel e n st :
  nodes st !! e = Some n ->
  acyclic rank st ->
  (forall i, (rank i < fuel)%nat) ->
  wpt (dispose_effect_with (run fuel) (fun _ => ret tt) e false) st
    (fun _ st' => subs (Some e) st st') (fun _ _ => False).
Proof.
  intros Hn Ha Hfuel.
  apply wpt_intro; [apply dispose_effect_false_subs|].
  apply (wpt_returns _ _ (fun _ _ => True) (fun _ _ => False)).
  unfold dispose_effect_with. wpt_step. wpt_step. wpt_step.
  eapply wpt_conseq;
    [apply (unsubscribe_all_returns rank fuel e); [exact Ha| |exact Hfuel]| |auto];
    cbv beta.
  - intros d Hd. eapply Ha; eauto.
  - intros _ s1 (_ & _ & N1). destruct (N1 e n Hn) as (n1 & Hn1 & _).
    wpt_step. wpt_step. exact I.
Qed.

(** ** The end of a run of a computed signal *)

Lemma same_run_refl st : same_run st st.
Proof. split; [apply same_graph_refl|tauto]. Qed.

Lemma same_run_trans st1 st2 st3 : same_run st1 st2 -> same_run st2 st3 -> same_run st1 st3.
Proof.
  intros (G1 & A1 & B1 & C1) (G2 & A2 & B2 & C2).
  split; [eapply same_graph_trans; eauto|]. repeat split; congruence.
Qed.

Lemma reconcilable_same_run rank c st st' :
  same_run st st' -> reconcilable rank c st -> reconcilable rank c st'.
Proof.
  intros (G & _ & Hi & Hu) (n & Hn & Hidx & Hbuf).
  destruct G as [L N]. destruct (N c n Hn) as (n' & Hn' & K & D).
  exists n'. split; [exact Hn'|]. rewrite D, Hi, Hu. split; [exact Hidx|].
  intros u d Hsome Hd. eapply lower_same_graph; [split; eassumption|]. eauto.
Qed.

Lemma wpt_modify_run st0 (f : State -> State) st (Q : unit -> State -> Prop) E :
  same_run st0 st ->
  nodes (f st) = nodes st ->
  eval_listener (f st) = eval_listener st ->
  eval_sources_index (f st) = eval_sources_index st ->
  eval_untracked_sources (f st) = eval_untracked_sources st ->
  (forall st', same_run st0 st' -> Q tt st') ->
  wpt (modify f) st Q E.
Proof.
  intros H Hn Hl Hi Hu HQ. apply wpt_modify, HQ.
  eapply same_run_trans; [exact H|].
  split; [|tauto]. split; [now rewrite Hn|]. intros i n Hi'. rewrite Hn. eauto.
Qed.

Lemma wpt_update_run st0 (i : node_id) n0 (f : Node -> Node) st
    (Q : unit -> State -> Prop) E :
  same_run st0 st ->
  nodes st0 !! i = Some n0 ->
  (forall n, kind (f n) = kind n /\ _dependencies (f n) = _dependencies n) ->
  (forall st', same_run st0 st' -> Q tt st') ->
  wpt (update i f) st Q E.
Proof.
  intros H Hn0 Hf HQ. pose proof H as ([_ N] & _).
  destruct (N i n0 Hn0) as (n & Hn & _).
  eapply wpt_update; [exact Hn|]. apply HQ.
  eapply same_run_trans; [exact H|].
  split; [|cbn; tauto]. apply same_graph_update; [exact Hn|apply Hf|apply Hf].
Qed.

Lemma wpt_lookup_run st0 (i : node_id) n0 st (Q : Node -> State -> Prop) E :
  same_run st0 st ->
  nodes st0 !! i = Some n0 ->
  (forall n, nodes st !! i = Some n -> Q n st) ->
  wpt (lookup i) st Q E.
Proof.
  intros ([_ N] & _) Hn0 HQ. destruct (N i n0 Hn0) as (n & Hn & _).
  eapply wpt_lookup; [exact Hn|]. now apply HQ.
Qed.

Ltac run_step :=
  lazymatch goal with
  | |- wpt (bind _ _) _ _ _ => apply wpt_bind
  | |- wpt (ret _) _ _ _ => apply wpt_ret; cbv beta
  | |- wpt (modify _) ?st _ _ =>
      match goal with
      | H : same_run _ st |- _ =>
          eapply (wpt_modify_run _ _ _ _ _ H);
          [reflexivity|reflexivity|reflexivity|reflexivity|intros ? ?]
      end
  | |- wpt (update _ _) ?st _ _ =>
      match goal with
      | H : same_run _ st |- _ =>
          eapply (wpt_update_run _ _ _ _ _ _ _ H);
          [eassumption|intros ?; split; reflexivity|intros ? ?]
      end
  | |- wpt (lookup _) ?st _ _ =>
      match goal with
      | H : same_run _ st |- _ =>
          eapply (wpt_lookup_run _ _ _ _ _ _ H); [eassumption|intros ? ?]
      end
  | |- wpt get_state _ _ _ => apply wpt_get_state; cbv beta
  | |- wpt (if ?b then _ else _) _ _ _ => destruct b
  | |- wpt (let _ := _ in _) _ _ _ => cbv zeta
  end.

(** The end of [Computed._refresh], from the reconciliation on, returns. *)
Lemma refresh_tail_returns rank fuel c pl ps pi (b : bool) st :
  eval_listener st = Some c ->
  acyclic rank st ->
  reconcilable rank c st ->
  (forall i, (rank i < fuel)%nat) ->
  wpt (cleanup_context (run fuel) ;;
       modify (with_eval_listener pl) ;;
       modify (with_eval_untracked_sources ps) ;;
       modify (with_eval_sources_index pi) ;;
       let* n3 := lookup c in
       update c (with_flags (Z.land (_flags n3) (Z.lnot RUNNING))) ;;
       ret b) st
    (fun _ _ => True) (fun _ _ => True).
Proof.
  intros Hl Ha Hrec Hfuel. pose proof Hrec as (n & Hn & _).
  wpt_step.
  eapply wpt_conseq;
    [apply (cleanup_context_returns rank fuel c); assumption| |auto].
  cbv beta. intros _ st' (_ & _ & N). destruct (N c n Hn) as (n' & Hn' & _).
  repeat wpt_step. exact I.
Qed.
(** * A disposed effect across a call *)

(** What [splice] leaves is a sublist. *)
Lemma take_drop_sublist {A} (l : list A) (a b : nat) :
  (a <= b)%nat -> take a l ++ drop b l `sublist_of` l.
Proof.
  intros Hab. rewrite <- (take_drop a l) at 3.
  apply sublist_app; [reflexivity|].
  replace b with (a + (b - a))%nat by lia. rewrite <- drop_drop.
  apply sublist_drop.
Qed.

Lemma splice_sublist (l : list node_id) (start deleteCount : Z) :
  splice l start deleteCount `sublist_of` l.
Proof.
  unfold splice. cbv zeta. apply take_drop_sublist.
  destruct (start <? 0) eqn:Hneg; [|apply Z.ltb_ge in Hneg];
    apply Z2Nat.inj_le; lia.
Qed.

Lemma not_elem_of_splice (l : list node_id) (start deleteCount : Z) (e : node_id) :
  e ∉ l -> e ∉ splice l start deleteCount.
Proof.
  intros Hni Hin. apply Hni. eapply elem_of_sublist; [exact Hin|apply splice_sublist].
Qed.

Lemma wp_modify_retire (f : State -> State) st e ds (Q : unit -> State -> Prop) E :
  retired e ds st ->
  nodes (f st) = nodes st ->
  eval_listener (f st) <> Some e ->
  (forall st', retired e ds st' -> Q tt st') ->
  wp (modify f) st Q E.
Proof.
  intros (Hl & (n & Hn & HP) & Hu) Hnodes Hlis HQ. apply wp_modify, HQ.
  split; [exact Hlis|]. split.
  - exists n. now rewrite Hnodes.
  - intros d Hd. rewrite Hnodes. now apply Hu.
Qed.

Lemma wp_update_retire (i : node_id) (f : Node -> Node) st e ds
    (Q : unit -> State -> Prop) E :
  retired e ds st ->
  (forall n, nodes st !! i = Some n ->
     (i = e -> is_disposed (f n))
     /\ (e ∉ _dependants n -> e ∉ _dependants (f n))) ->
  (forall st', retired e ds st' -> Q tt st') ->
  wp (update i f) st Q E.
Proof.
  intros (Hl & Hp & Hu) Hkeep HQ. apply wp_update. intros n Hn. apply HQ.
  destruct (Hkeep n Hn) as [Hd Hdep].
  split; [exact Hl|]. split.
  - eapply protected_insert; eauto.
  - intros d Hin. destruct (Hu d Hin) as (m & Hm & Hni). cbn [nodes with_nodes].
    destruct (decide (i = d)) as [->|Hne].
    + assert (m = n) by congruence. subst m. exists (f n).
      split; [apply list_lookup_insert_eq; eapply lookup_lt_Some; eauto|auto].
    + exists m. split; [now rewrite list_lookup_insert_ne|exact Hni].
Qed.

Lemma wp_alloc_retire (x : Node) st e ds (Q : node_id -> State -> Prop) E :
  retired e ds st ->
  (forall i st', i <> e -> retired e ds st' -> Q i st') ->
  wp (alloc x) st Q E.
Proof.
  intros (Hl & Hp & Hu) HQ. apply wp_alloc, HQ.
  - destruct Hp as (m & Hm & _). apply lookup_lt_Some in Hm. lia.
  - split; [exact Hl|]. split; [now apply protected_alloc|].
    intros d Hd. destruct (Hu d Hd) as (m & Hm & Hni). exists m.
    split; [|exact Hni]. cbn [nodes with_nodes]. now apply lookup_app_l_Some.
Qed.

Ltac retire_open :=
  repeat match goal with
         | H : retired _ _ _ |- _ =>
             destruct H as (? & (? & ? & ? & ? & ? & ?) & ?)
         end;
  cbn [eval_listener nodes with_nodes with_eval_listener with_eval_sources_index
       with_eval_untracked_sources with_batched_effect with_batch_depth
       with_batch_iteration with_write_clock with_read_clock with_calls
       with_dequeued with_caught] in *.

(** The object at hand is not the retired effect: its class, its flags or
    its being the current listener tell them apart. *)
Ltac not_retired :=
  first
    [ assumption
    | retire_open; congruence
    | intros ->; exfalso; retire_open; same_node;
      first [ ne_clash
            | kind_clash
            | congruence
            | flag_simpl; bits_known; flag_simpl; bool_clash ] ].

Ltac retire_side :=
  intros; split;
  [ intros; subst; retire_open; same_node;
    first
      [ ne_clash
      | kind_clash
      | congruence
      | unfold is_disposed in *;
        cbn [kind _flags _dependencies _cleanups with_epoch with_access_epoch
             with_dependants with_value with_dependencies with_flags
             with_realm_write_epoch with_context_epoch with_cleanups
             with_next_batched_effect] in *;
        flag_simpl; bits_known; flag_simpl;
        first [ bool_clash
              | simpl in *; lia
              | repeat split; first [assumption | reflexivity | congruence ] ] ]
  | cbn [_dependants with_epoch with_access_epoch
         with_dependants with_value with_dependencies with_flags
         with_realm_write_epoch with_context_epoch with_cleanups
         with_next_batched_effect];
    same_node;
    first
      [ intros; assumption
      | intros; now apply not_elem_of_splice
      | intros Hni Hin; apply elem_of_app in Hin as [Hin|Hin]; [now apply Hni|];
        apply list_elem_of_singleton in Hin;
        match goal with Hne : _ <> _ |- _ => apply Hne; congruence end ] ].

Ltac listener_side :=
  cbn [eval_listener nodes with_nodes with_eval_listener with_eval_sources_index
       with_eval_untracked_sources with_batched_effect with_batch_depth
       with_batch_iteration with_write_clock with_read_clock with_calls
       with_dequeued with_caught];
  first
    [ discriminate
    | assumption
    | retire_open; congruence
    | intros [= ->]; exfalso; retire_open; same_node;
      first [ ne_clash | kind_clash | congruence ] ].

Create HintDb retire_specs discriminated.
#[global] Hint Resolve retire_call retire_refresh retire_subscribe retire_unsubscribe
  retire_notify retire_drain_wave retire_drain : retire_specs.
#[global] Hint Extern 1 (retired _ _ _) => eassumption : retire_specs.
#[global] Hint Extern 1 (_ <> _) => solve [not_retired] : retire_specs.

Ltac retire_step :=
  lazymatch goal with
  | |- wp (modify _) ?st _ _ =>
      match goal with
      | H : retired _ _ st |- _ =>
          eapply (wp_modify_retire _ _ _ _ _ _ H);
          [reflexivity | solve [listener_side] | intros ? ?]
      end
  | |- wp start_batch ?st _ _ =>
      match goal with
      | H : retired _ _ st |- _ =>
          eapply (wp_modify_retire _ _ _ _ _ _ H);
          [reflexivity | solve [listener_side] | intros ? ?]
      end
  | |- wp (update _ _) ?st _ _ =>
      match goal with
      | H : retired _ _ st |- _ =>
          eapply (wp_update_retire _ _ _ _ _ _ _ H); [solve [retire_side] | intros ? ?]
      end
  | |- wp (alloc _) ?st _ _ =>
      match goal with
      | H : retired _ _ st |- _ =>
          eapply (wp_alloc_retire _ _ _ _ _ _ H); intros ? ? ? ?
      end
  | |- wp (for_each _ _) ?st _ _ =>
      match goal with
      | H : retired ?e ?ds st |- _ =>
          eapply wp_conseq;
          [ eapply (wp_for_each _ _ (retired e ds) (fun _ st' => retired e ds st'));
            [ exact H | cbv beta; intros ? ? ? ? ]
          | cbv beta; intros ? ? ? | cbv beta; intros ? ? ? ]
      end
  | |- retired _ _ _ => eassumption
  | |- wp _ _ _ _ =>
      first
        [ wp_step
        | eapply wp_conseq;
          [ solve [eauto 4 with retire_specs]
          | cbv beta; intros ? ? ? | cbv beta; intros ? ? ? ] ]
  end.

Ltac retire_go := repeat retire_step.

Section Retire.

Variable rec : Ops.
Hypothesis Hrec : ops_retire rec.

Lemma is_stale_loop_retire e ds target deps st :
  retired e ds st ->
  wp (is_stale_loop rec target deps) st
    (fun _ st' => retired e ds st') (fun _ st' => retired e ds st').
Proof.
  revert st. induction deps as [|d deps IH]; intros st H; simpl; retire_go.
Qed.
#[local] Hint Resolve is_stale_loop_retire : retire_specs.

Lemma is_stale_retire e ds target flags st :
  retired e ds st ->
  wp (is_stale rec target flags) st
    (fun _ st' => retired e ds st') (fun _ st' => retired e ds st').
Proof. intros H. unfold is_stale. retire_go. Qed.
#[local] Hint Resolve is_stale_retire : retire_specs.

Lemma end_batch_retire e ds  st :
  retired e ds st ->
  wp (end_batch rec) st
    (fun _ st' => retired e ds st') (fun _ st' => retired e ds st').
Proof. intros H. unfold end_batch. retire_go. Qed.
#[local] Hint Resolve end_batch_retire : retire_specs.

Lemma prune_context_sources_retire e ds  st :
  retired e ds st ->
  wp (prune_context_sources rec) st
    (fun _ st' => retired e ds st') (fun _ st' => retired e ds st').
Proof. intros H. unfold prune_context_sources. retire_go. Qed.
#[local] Hint Resolve prune_context_sources_retire : retire_specs.

Lemma cleanup_context_retire e ds  st :
  retired e ds st ->
  wp (cleanup_context rec) st
    (fun _ st' => retired e ds st') (fun _ st' => retired e ds st').
Proof. intros H. unfold cleanup_context. retire_go. Qed.
#[local] Hint Resolve cleanup_context_retire : retire_specs.

Lemma dispose_effect_false_retire e ds effect st :
  retired e ds st ->
  effect <> e ->
  wp (dispose_effect_with rec (fun _ => ret tt) effect false) st
    (fun _ st' => retired e ds st') (fun _ st' => retired e ds st').
Proof. intros H Hne0. unfold dispose_effect_with. retire_go. Qed.
#[local] Hint Resolve dispose_effect_false_retire : retire_specs.

Lemma cleanup_effect_retire e ds effect st :
  retired e ds st ->
  effect <> e ->
  wp (cleanup_effect rec effect) st
    (fun _ st' => retired e ds st') (fun _ st' => retired e ds st').
Proof. intros H Hne0. unfold cleanup_effect. retire_go. Qed.
#[local] Hint Resolve cleanup_effect_retire : retire_specs.

Lemma dispose_effect_retire e ds effect run_cleanup st :
  retired e ds st ->
  effect <> e ->
  wp (dispose_effect rec effect run_cleanup) st
    (fun _ st' => retired e ds st') (fun _ st' => retired e ds st').
Proof. intros H Hne0. unfold dispose_effect, dispose_effect_with. retire_go. Qed.
#[local] Hint Resolve dispose_effect_retire : retire_specs.

Lemma Signal_subscribe_retire e ds self target st :
  retired e ds st ->
  target <> e ->
  wp (Signal_subscribe self target) st
    (fun _ st' => retired e ds st') (fun _ st' => retired e ds st').
Proof. intros H Hne0. unfold Signal_subscribe. retire_go. Qed.
#[local] Hint Resolve Signal_subscribe_retire : retire_specs.

Lemma Signal_unsubscribe_retire e ds self target st :
  retired e ds st ->
  wp (Signal_unsubscribe self target) st
    (fun _ st' => retired e ds st') (fun _ st' => retired e ds st').
Proof. intros H. unfold Signal_unsubscribe. retire_go. Qed.
#[local] Hint Resolve Signal_unsubscribe_retire : retire_specs.

Lemma Signal_peek_retire e ds self st :
  retired e ds st ->
  wp (Signal_peek self) st
    (fun _ st' => retired e ds st') (fun _ st' => retired e ds st').
Proof. intros H. unfold Signal_peek. retire_go. Qed.
#[local] Hint Resolve Signal_peek_retire : retire_specs.

Lemma Signal_get_retire e ds self st :
  retired e ds st ->
  wp (Signal_get self) st
    (fun _ st' => retired e ds st') (fun _ st' => retired e ds st').
Proof. intros H. unfold Signal_get. retire_go. Qed.
#[local] Hint Resolve Signal_get_retire : retire_specs.

Lemma Signal_set_retire e ds self next st :
  retired e ds st ->
  wp (Signal_set rec self next) st
    (fun _ st' => retired e ds st') (fun _ st' => retired e ds st').
Proof. intros H. unfold Signal_set. retire_go. Qed.
#[local] Hint Resolve Signal_set_retire : retire_specs.

Lemma Computed_refresh_retire e ds self st :
  retired e ds st ->
  self <> e ->
  wp (Computed_refresh rec self) st
    (fun _ st' => retired e ds st') (fun _ st' => retired e ds st').
Proof. intros H Hne0. unfold Computed_refresh. retire_go. Qed.
#[local] Hint Resolve Computed_refresh_retire : retire_specs.

Lemma Computed_subscribe_retire e ds self target st :
  retired e ds st ->
  self <> e ->
  target <> e ->
  wp (Computed_subscribe rec self target) st
    (fun _ st' => retired e ds st') (fun _ st' => retired e ds st').
Proof. intros H Hne0 Hne1. unfold Computed_subscribe. retire_go. Qed.
#[local] Hint Resolve Computed_subscribe_retire : retire_specs.

Lemma Computed_unsubscribe_retire e ds self target st :
  retired e ds st ->
  wp (Computed_unsubscribe rec self target) st
    (fun _ st' => retired e ds st') (fun _ st' => retired e ds st').
Proof. intros H. unfold Computed_unsubscribe. retire_go. Qed.
#[local] Hint Resolve Computed_unsubscribe_retire : retire_specs.

Lemma Computed_notify_retire e ds self flag st :
  retired e ds st ->
  wp (Computed_notify rec self flag) st
    (fun _ st' => retired e ds st') (fun _ st' => retired e ds st').
Proof. intros H. unfold Computed_notify. retire_go. Qed.
#[local] Hint Resolve Computed_notify_retire : retire_specs.

Lemma Computed_peek_retire e ds self st :
  retired e ds st ->
  self <> e ->
  wp (Computed_peek rec self) st
    (fun _ st' => retired e ds st') (fun _ st' => retired e ds st').
Proof. intros H Hne0. unfold Computed_peek. retire_go. Qed.
#[local] Hint Resolve Computed_peek_retire : retire_specs.

Lemma Computed_get_retire e ds self st :
  retired e ds st ->
  self <> e ->
  wp (Computed_get rec self) st
    (fun _ st' => retired e ds st') (fun _ st' => retired e ds st').
Proof. intros H Hne0. unfold Computed_get. retire_go. Qed.
#[local] Hint Resolve Computed_get_retire : retire_specs.

Lemma Effect_refresh_retire e ds self st :
  retired e ds st ->
  self <> e ->
  wp (Effect_refresh rec self) st
    (fun _ st' => retired e ds st') (fun _ st' => retired e ds st').
Proof. intros H Hne0. unfold Effect_refresh. retire_go. Qed.
#[local] Hint Resolve Effect_refresh_retire : retire_specs.

Lemma Effect_notify_retire e ds self flag st :
  retired e ds st ->
  wp (Effect_notify self flag) st
    (fun _ st' => retired e ds st') (fun _ st' => retired e ds st').
Proof. intros H. unfold Effect_notify. retire_go. Qed.
#[local] Hint Resolve Effect_notify_retire : retire_specs.

Lemma Effect_dispose_retire e ds self st :
  retired e ds st ->
  self <> e ->
  wp (Effect_dispose rec self) st
    (fun _ st' => retired e ds st') (fun _ st' => retired e ds st').
Proof. intros H Hne0. unfold Effect_dispose. retire_go. Qed.
#[local] Hint Resolve Effect_dispose_retire : retire_specs.

Lemma drain_wave_body_retire e ds effect acc st :
  retired e ds st ->
  wp (drain_wave_body rec effect acc) st
    (fun _ st' => retired e ds st') (fun _ st' => retired e ds st').
Proof. intros H. unfold drain_wave_body. retire_go. Qed.

Lemma drain_body_retire e ds acc st :
  retired e ds st ->
  wp (drain_body rec acc) st
    (fun _ st' => retired e ds st') (fun _ st' => retired e ds st').
Proof. intros H. unfold drain_body. retire_go. Qed.

Lemma refresh_retire e ds self st :
  retired e ds st ->
  wp (refresh rec self) st
    (fun _ st' => retired e ds st') (fun _ st' => retired e ds st').
Proof. intros H. unfold refresh, Signal_refresh. retire_go. Qed.

Lemma subscribe_retire e ds self target st :
  retired e ds st ->
  target <> e ->
  wp (subscribe rec self target) st
    (fun _ st' => retired e ds st') (fun _ st' => retired e ds st').
Proof. intros H Hne0. unfold subscribe. retire_go. Qed.

Lemma unsubscribe_retire e ds self target st :
  retired e ds st ->
  wp (unsubscribe rec self target) st
    (fun _ st' => retired e ds st') (fun _ st' => retired e ds st').
Proof. intros H. unfold unsubscribe. retire_go. Qed.

Lemma notify_retire e ds self flag st :
  retired e ds st ->
  wp (notify rec self flag) st
    (fun _ st' => retired e ds st') (fun _ st' => retired e ds st').
Proof. intros H. unfold notify. retire_go. Qed.

Lemma peek_retire e ds self st :
  retired e ds st ->
  wp (peek rec self) st
    (fun _ st' => retired e ds st') (fun _ st' => retired e ds st').
Proof. intros H. unfold peek. retire_go. Qed.
#[local] Hint Resolve peek_retire : retire_specs.

Lemma get_value_retire e ds self st :
  retired e ds st ->
  wp (get_value rec self) st
    (fun _ st' => retired e ds st') (fun _ st' => retired e ds st').
Proof. intros H. unfold get_value. retire_go. Qed.
#[local] Hint Resolve get_value_retire : retire_specs.

Lemma signal_retire e ds v st :
  retired e ds st ->
  wp (signal v) st
    (fun _ st' => retired e ds st') (fun _ st' => retired e ds st').
Proof. intros H. unfold signal. retire_go. Qed.
#[local] Hint Resolve signal_retire : retire_specs.

Lemma computed_retire e ds f v st :
  retired e ds st ->
  wp (computed f v) st
    (fun _ st' => retired e ds st') (fun _ st' => retired e ds st').
Proof. intros H. unfold computed. retire_go. Qed.
#[local] Hint Resolve computed_retire : retire_specs.

Lemma effect_retire e ds f v st :
  retired e ds st ->
  wp (effect rec f v) st
    (fun _ st' => retired e ds st') (fun _ st' => retired e ds st').
Proof. intros H. unfold effect. retire_go. Qed.
#[local] Hint Resolve effect_retire : retire_specs.

Lemma cleanup_retire e ds fn throws st :
  retired e ds st ->
  wp (cleanup fn throws) st
    (fun _ st' => retired e ds st') (fun _ st' => retired e ds st').
Proof. intros H. unfold cleanup. retire_go. Qed.
#[local] Hint Resolve cleanup_retire : retire_specs.

Lemma untrack_retire {A} e ds (callback : M A) st :
  (forall st, retired e ds st ->
     wp callback st (fun _ st' => retired e ds st') (fun _ st' => retired e ds st')) ->
  retired e ds st ->
  wp (untrack callback) st
    (fun _ st' => retired e ds st') (fun _ st' => retired e ds st').
Proof. intros Hc H. unfold untrack. retire_go. Qed.

Lemma batch_retire {A} e ds (callback : M A) st :
  (forall st, retired e ds st ->
     wp callback st (fun _ st' => retired e ds st') (fun _ st' => retired e ds st')) ->
  retired e ds st ->
  wp (batch rec callback) st
    (fun _ st' => retired e ds st') (fun _ st' => retired e ds st').
Proof. intros Hc H. unfold batch. retire_go. Qed.

Lemma exec_retire p : forall e ds st,
  retired e ds st ->
  wp (exec rec p) st
    (fun _ st' => retired e ds st') (fun _ st' => retired e ds st').
Proof.
  induction p; intros e ds st Hg; simpl; retire_go.
  - eapply wp_conseq;
      [eapply (untrack_retire e ds); [intros; apply IHp; assumption|eassumption]| |];
      cbv beta; intros; retire_go.
  - eapply wp_conseq;
      [eapply (batch_retire e ds); [intros; apply IHp1; assumption|eassumption]| |];
      cbv beta; intros; retire_go.
Qed.

Lemma bodies_retire :
  ops_retire (mkOps (exec rec) (refresh rec) (subscribe rec) (unsubscribe rec)
                (notify rec) (drain_wave_body rec) (drain_body rec)).
Proof.
  constructor; simpl; intros.
  - now apply exec_retire.
  - now apply refresh_retire.
  - now apply subscribe_retire.
  - now apply unsubscribe_retire.
  - now apply notify_retire.
  - now apply drain_wave_body_retire.
  - now apply drain_body_retire.
Qed.

End Retire.

(** A disposed effect at rest stays so, unsubscribed, across every call:
    it is never run again. *)
Lemma run_retire fuel : ops_retire (run fuel).
Proof.
  induction fuel as [|fuel IH].
  - constructor; simpl; intros; exact I.
  - simpl. apply bodies_retire. exact IH.
Qed.
(** * An effect that is due across a call *)

Lemma due_weaken k k' e st : due k' e st -> k <= k' -> due k e st.
Proof. intros [Hd Hq] Hk. split; [lia|assumption]. Qed.

(** The rules of symbolic execution, carrying [due] along. *)
Lemma wp_modify_due (f : State -> State) st k e (Q : unit -> State -> Prop) E :
  due k e st ->
  nodes (f st) = nodes st ->
  (forall st', due (k + (batch_depth (f st) - batch_depth st)) e st' -> Q tt st') ->
  wp (modify f) st Q E.
Proof.
  intros [Hd (n & Hn & HP)] Hnodes HQ. apply wp_modify, HQ.
  split; [lia|]. exists n. now rewrite Hnodes.
Qed.

Lemma wp_update_due (i : node_id) (f : Node -> Node) st k e
    (Q : unit -> State -> Prop) E :
  due k e st ->
  (forall n, nodes st !! i = Some n -> i = e -> is_due (f n)) ->
  (forall st', due k e st' -> Q tt st') ->
  wp (update i f) st Q E.
Proof.
  intros [Hd Hq] Hkeep HQ. apply wp_update. intros n Hn. apply HQ.
  split; [exact Hd|]. eapply protected_insert; eauto.
Qed.

Lemma wp_alloc_due (x : Node) st k e (Q : node_id -> State -> Prop) E :
  due k e st ->
  (forall i st', i <> e -> due k e st' -> Q i st') ->
  wp (alloc x) st Q E.
Proof.
  intros [Hd Hq] HQ. apply wp_alloc, HQ.
  - destruct Hq as (m & Hm & _). apply lookup_lt_Some in Hm. lia.
  - split; [exact Hd|]. now apply protected_alloc.
Qed.

(** Side conditions: the updated object is the protected one. *)
Ltac due_open :=
  repeat match goal with
         | H : due _ _ _ |- _ => destruct H as [? (? & ? & ? & ? & ? & ? & ?)]
         end;
  cbn [batch_depth nodes with_nodes with_eval_listener with_eval_sources_index
       with_eval_untracked_sources with_batched_effect with_batch_depth
       with_batch_iteration with_write_clock with_read_clock with_calls
       with_dequeued with_caught] in *.

Ltac due_side :=
  intros; subst; due_open; kind_known; same_node;
  first
    [ ne_clash
    | kind_clash
    | unfold is_due in *;
      cbn [kind _flags with_epoch with_access_epoch
           with_dependants with_value with_dependencies with_flags
           with_realm_write_epoch with_context_epoch with_cleanups
           with_next_batched_effect];
      flag_simpl; bits_known; flag_simpl;
      first [ bool_clash
            | repeat split; first [assumption | reflexivity ] ] ].

(** The object at hand is not the effect that is due: its class or its
    flags tell them apart. *)
Ltac not_due :=
  first
    [ assumption
    | intros ->; exfalso; due_open; same_node;
      first [ ne_clash
            | kind_clash
            | flag_simpl; bits_known; flag_simpl; bool_clash ] ].

Ltac due_here :=
  lazymatch goal with
  | |- due _ ?e ?st =>
      match goal with
      | H : due _ e st |- _ =>
          eapply due_weaken; [exact H | due_open; lia]
      end
  end.

Create HintDb due_specs discriminated.
#[global] Hint Resolve due_call due_refresh due_subscribe due_unsubscribe
  due_notify : due_specs.
#[global] Hint Extern 1 (due _ _ _) => eassumption : due_specs.
#[global] Hint Extern 1 (_ <= _) => due_open; lia : due_specs.
#[global] Hint Extern 1 (_ <> _) => solve [not_due] : due_specs.

Ltac due_use :=
  lazymatch goal with
  | |- wp _ _ _ _ =>
      eapply wp_conseq;
      [ solve [eauto 4 with due_specs]
      | cbv beta; intros ? ? ? | cbv beta; intros ? ? ? ]
  end.

Ltac due_step :=
  lazymatch goal with
  | |- wp (modify _) ?st _ _ =>
      match goal with
      | H : due _ _ st |- _ =>
          eapply (wp_modify_due _ _ _ _ _ _ H);
          [reflexivity | cbn [batch_depth with_eval_listener with_eval_sources_index
       with_eval_untracked_sources with_batched_effect with_batch_depth
       with_batch_iteration with_write_clock with_read_clock with_calls
       with_dequeued with_caught]; intros ? ?]
      end
  | |- wp start_batch ?st _ _ =>
      match goal with
      | H : due _ _ st |- _ =>
          eapply (wp_modify_due _ _ _ _ _ _ H);
          [reflexivity | unfold start_batch;
             cbn [batch_depth with_batch_depth]; intros ? ?]
      end
  | |- wp (update _ _) ?st _ _ =>
      match goal with
      | H : due _ _ st |- _ =>
          eapply (wp_update_due _ _ _ _ _ _ _ H); [solve [due_side] | intros ? ?]
      end
  | |- wp (alloc _) ?st _ _ =>
      match goal with
      | H : due _ _ st |- _ =>
          eapply (wp_alloc_due _ _ _ _ _ _ H); intros ? ? ? ?
      end
  | |- wp (for_each _ _) ?st _ _ =>
      match goal with
      | H : due ?k ?e st |- _ =>
          eapply wp_conseq;
          [ eapply (wp_for_each _ _ (due k e) (fun _ st' => due k e st'));
            [ exact H | cbv beta; intros ? ? ? ? ]
          | cbv beta; intros ? ? ? | cbv beta; intros ? ? ? ]
      end
  | |- due _ _ _ => due_here
  | |- _ => wp_step
  end.

Ltac due_go := repeat first [ due_step | due_use ].

Section Due.

Variable rec : Ops.
Hypothesis Hrec : ops_due rec.

Lemma is_stale_loop_due k e target deps st :
  due k e st -> 1 <= k ->
  wp (is_stale_loop rec target deps) st
    (fun _ st' => due k e st') (fun _ st' => due k e st').
Proof.
  revert st. induction deps as [|d deps IH]; intros st H Hk; simpl; due_go.
Qed.
#[local] Hint Resolve is_stale_loop_due : due_specs.

Lemma is_stale_due k e target flags st :
  due k e st -> 1 <= k ->
  wp (is_stale rec target flags) st
    (fun _ st' => due k e st') (fun _ st' => due k e st').
Proof. intros H Hk. unfold is_stale. due_go. Qed.
#[local] Hint Resolve is_stale_due : due_specs.

Lemma end_batch_due k e st :
  due k e st -> 2 <= k ->
  wp (end_batch rec) st
    (fun _ st' => due (k - 1) e st') (fun _ st' => due (k - 1) e st').
Proof.
  intros H Hk. unfold end_batch. due_step. due_step.
  destruct (batch_depth st >? 1) eqn:Hgt.
  - due_go.
  - exfalso. destruct H as [Hd _].
    destruct (Z.gtb_spec (batch_depth st) 1); [discriminate|lia].
Qed.
#[local] Hint Resolve end_batch_due : due_specs.

Lemma prune_context_sources_due k e  st :
  due k e st -> 1 <= k ->
  wp (prune_context_sources rec) st
    (fun _ st' => due k e st') (fun _ st' => due k e st').
Proof. intros H Hk. unfold prune_context_sources. due_go. Qed.
#[local] Hint Resolve prune_context_sources_due : due_specs.

Lemma cleanup_context_due k e  st :
  due k e st -> 1 <= k ->
  wp (cleanup_context rec) st
    (fun _ st' => due k e st') (fun _ st' => due k e st').
Proof. intros H Hk. unfold cleanup_context. due_go. Qed.
#[local] Hint Resolve cleanup_context_due : due_specs.

Lemma dispose_effect_with_due k e (cleanup : node_id -> M unit) effect run_cleanup st :
  (forall st, due k e st ->
     wp (cleanup effect) st (fun _ st' => due k e st') (fun _ st' => due k e st')) ->
  due k e st -> 1 <= k ->
  wp (dispose_effect_with rec cleanup effect run_cleanup) st
    (fun _ st' => due k e st') (fun _ st' => due k e st').
Proof.
  intros Hc H Hk. unfold dispose_effect_with. due_go.
Qed.

Lemma dispose_effect_false_due k e effect st :
  due k e st -> 1 <= k ->
  effect <> e ->
  wp (dispose_effect_with rec (fun _ => ret tt) effect false) st
    (fun _ st' => due k e st') (fun _ st' => due k e st').
Proof. intros H Hk Hne. unfold dispose_effect_with. due_go. Qed.
#[local] Hint Resolve dispose_effect_false_due : due_specs.

Lemma cleanup_effect_due k e effect st :
  due k e st -> 1 <= k ->
  effect <> e ->
  wp (cleanup_effect rec effect) st
    (fun _ st' => due k e st') (fun _ st' => due k e st').
Proof. intros H Hk Hne. unfold cleanup_effect. due_go. Qed.
#[local] Hint Resolve cleanup_effect_due : due_specs.

Lemma dispose_effect_due k e effect run_cleanup st :
  due k e st -> 1 <= k ->
  effect <> e ->
  wp (dispose_effect rec effect run_cleanup) st
    (fun _ st' => due k e st') (fun _ st' => due k e st').
Proof.
  intros H Hk Hne. apply dispose_effect_with_due; auto.
  intros. now apply cleanup_effect_due.
Qed.
#[local] Hint Resolve dispose_effect_due : due_specs.

Lemma Signal_subscribe_due k e self target st :
  due k e st -> 1 <= k ->
  wp (Signal_subscribe self target) st
    (fun _ st' => due k e st') (fun _ st' => due k e st').
Proof. intros H Hk. unfold Signal_subscribe. due_go. Qed.
#[local] Hint Resolve Signal_subscribe_due : due_specs.

Lemma Signal_unsubscribe_due k e self target st :
  due k e st -> 1 <= k ->
  wp (Signal_unsubscribe self target) st
    (fun _ st' => due k e st') (fun _ st' => due k e st').
Proof. intros H Hk. unfold Signal_unsubscribe. due_go. Qed.
#[local] Hint Resolve Signal_unsubscribe_due : due_specs.

Lemma Signal_peek_due k e self st :
  due k e st -> 1 <= k ->
  wp (Signal_peek self) st
    (fun _ st' => due k e st') (fun _ st' => due k e st').
Proof. intros H Hk. unfold Signal_peek. due_go. Qed.
#[local] Hint Resolve Signal_peek_due : due_specs.

Lemma Signal_get_due k e self st :
  due k e st -> 1 <= k ->
  wp (Signal_get self) st
    (fun _ st' => due k e st') (fun _ st' => due k e st').
Proof. intros H Hk. unfold Signal_get. due_go. Qed.
#[local] Hint Resolve Signal_get_due : due_specs.

Lemma Signal_set_due k e self next st :
  due k e st -> 1 <= k ->
  wp (Signal_set rec self next) st
    (fun _ st' => due k e st') (fun _ st' => due k e st').
Proof. intros H Hk. unfold Signal_set. due_go. Qed.
#[local] Hint Resolve Signal_set_due : due_specs.

Lemma Computed_refresh_due k e self st :
  due k e st -> 1 <= k ->
  self <> e ->
  wp (Computed_refresh rec self) st
    (fun _ st' => due k e st') (fun _ st' => due k e st').
Proof. intros H Hk Hne. unfold Computed_refresh. due_go. Qed.
#[local] Hint Resolve Computed_refresh_due : due_specs.

Lemma Computed_subscribe_due k e self target st :
  due k e st -> 1 <= k ->
  wp (Computed_subscribe rec self target) st
    (fun _ st' => due k e st') (fun _ st' => due k e st').
Proof. intros H Hk. unfold Computed_subscribe. due_go. Qed.
#[local] Hint Resolve Computed_subscribe_due : due_specs.

Lemma Computed_unsubscribe_due k e self target st :
  due k e st -> 1 <= k ->
  wp (Computed_unsubscribe rec self target) st
    (fun _ st' => due k e st') (fun _ st' => due k e st').
Proof. intros H Hk. unfold Computed_unsubscribe. due_go. Qed.
#[local] Hint Resolve Computed_unsubscribe_due : due_specs.

Lemma Computed_notify_due k e self flag st :
  due k e st -> 1 <= k ->
  self <> e ->
  wp (Computed_notify rec self flag) st
    (fun _ st' => due k e st') (fun _ st' => due k e st').
Proof. intros H Hk Hne. unfold Computed_notify. due_go. Qed.
#[local] Hint Resolve Computed_notify_due : due_specs.

Lemma Computed_peek_due k e self st :
  due k e st -> 1 <= k ->
  self <> e ->
  wp (Computed_peek rec self) st
    (fun _ st' => due k e st') (fun _ st' => due k e st').
Proof. intros H Hk Hne. unfold Computed_peek. due_go. Qed.
#[local] Hint Resolve Computed_peek_due : due_specs.

Lemma Computed_get_due k e self st :
  due k e st -> 1 <= k ->
  self <> e ->
  wp (Computed_get rec self) st
    (fun _ st' => due k e st') (fun _ st' => due k e st').
Proof. intros H Hk Hne. unfold Computed_get. due_go. Qed.
#[local] Hint Resolve Computed_get_due : due_specs.

Lemma Effect_refresh_due k e self st :
  due k e st -> 1 <= k ->
  self <> e ->
  wp (Effect_refresh rec self) st
    (fun _ st' => due k e st') (fun _ st' => due k e st').
Proof. intros H Hk Hne. unfold Effect_refresh. due_go. Qed.
#[local] Hint Resolve Effect_refresh_due : due_specs.

Lemma Effect_notify_due k e self flag st :
  due k e st -> 1 <= k ->
  wp (Effect_notify self flag) st
    (fun _ st' => due k e st') (fun _ st' => due k e st').
Proof. intros H Hk. unfold Effect_notify. due_go. Qed.
#[local] Hint Resolve Effect_notify_due : due_specs.

Lemma Effect_dispose_due k e self st :
  due k e st -> 1 <= k ->
  self <> e ->
  wp (Effect_dispose rec self) st
    (fun _ st' => due k e st') (fun _ st' => due k e st').
Proof. intros H Hk Hne. unfold Effect_dispose. due_go. Qed.
#[local] Hint Resolve Effect_dispose_due : due_specs.

Lemma refresh_due k e self st :
  due k e st -> 1 <= k ->
  wp (refresh rec self) st
    (fun _ st' => due k e st') (fun _ st' => due k e st').
Proof. intros H Hk. unfold refresh, Signal_refresh. due_go. Qed.

Lemma subscribe_due k e self target st :
  due k e st -> 1 <= k ->
  wp (subscribe rec self target) st
    (fun _ st' => due k e st') (fun _ st' => due k e st').
Proof. intros H Hk. unfold subscribe. due_go. Qed.

Lemma unsubscribe_due k e self target st :
  due k e st -> 1 <= k ->
  wp (unsubscribe rec self target) st
    (fun _ st' => due k e st') (fun _ st' => due k e st').
Proof. intros H Hk. unfold unsubscribe. due_go. Qed.

Lemma notify_due k e self flag st :
  due k e st -> 1 <= k ->
  wp (notify rec self flag) st
    (fun _ st' => due k e st') (fun _ st' => due k e st').
Proof. intros H Hk. unfold notify. due_go. Qed.

Lemma peek_due k e self st :
  due k e st -> 1 <= k ->
  wp (peek rec self) st
    (fun _ st' => due k e st') (fun _ st' => due k e st').
Proof. intros H Hk. unfold peek. due_go. Qed.
#[local] Hint Resolve peek_due : due_specs.

Lemma get_value_due k e self st :
  due k e st -> 1 <= k ->
  wp (get_value rec self) st
    (fun _ st' => due k e st') (fun _ st' => due k e st').
Proof. intros H Hk. unfold get_value. due_go. Qed.
#[local] Hint Resolve get_value_due : due_specs.

Lemma signal_due k e v st :
  due k e st -> 1 <= k ->
  wp (signal v) st
    (fun _ st' => due k e st') (fun _ st' => due k e st').
Proof. intros H Hk. unfold signal. due_go. Qed.
#[local] Hint Resolve signal_due : due_specs.

Lemma computed_due k e f v st :
  due k e st -> 1 <= k ->
  wp (computed f v) st
    (fun _ st' => due k e st') (fun _ st' => due k e st').
Proof. intros H Hk. unfold computed. due_go. Qed.
#[local] Hint Resolve computed_due : due_specs.

Lemma effect_due k e f v st :
  due k e st -> 1 <= k ->
  wp (effect rec f v) st
    (fun _ st' => due k e st') (fun _ st' => due k e st').
Proof. intros H Hk. unfold effect. due_go. Qed.
#[local] Hint Resolve effect_due : due_specs.

Lemma cleanup_due k e fn throws st :
  due k e st -> 1 <= k ->
  wp (cleanup fn throws) st
    (fun _ st' => due k e st') (fun _ st' => due k e st').
Proof. intros H Hk. unfold cleanup. due_go. Qed.
#[local] Hint Resolve cleanup_due : due_specs.

Lemma untrack_due {A} k e (callback : M A) st :
  (forall st, due k e st ->
     wp callback st (fun _ st' => due k e st') (fun _ st' => due k e st')) ->
  due k e st -> 1 <= k ->
  wp (untrack callback) st
    (fun _ st' => due k e st') (fun _ st' => due k e st').
Proof.
  intros Hc H Hk. unfold untrack. due_go.
  all: eapply wp_conseq;
    [apply Hc; eapply due_weaken; [eassumption|due_open; lia]| |];
    cbv beta; intros; due_go.
Qed.

Lemma batch_due {A} k e (callback : M A) st :
  (forall k st, due k e st -> 1 <= k ->
     wp callback st (fun _ st' => due k e st') (fun _ st' => due k e st')) ->
  due k e st -> 1 <= k ->
  wp (batch rec callback) st
    (fun _ st' => due k e st') (fun _ st' => due k e st').
Proof.
  intros Hc H Hk. unfold batch. due_go.
  all: eapply wp_conseq; [eapply Hc; [eassumption|due_open; lia]| |];
    cbv beta; intros; due_go.
Qed.

Lemma exec_due p : forall k e st,
  due k e st -> 1 <= k ->
  wp (exec rec p) st
    (fun _ st' => due k e st') (fun _ st' => due k e st').
Proof.
  induction p; intros k0 e st Hh Hk; simpl; due_go.
  - eapply wp_conseq;
      [eapply (untrack_due k0 e);
       [intros; apply IHp; assumption | eassumption | assumption]| |];
      cbv beta; intros; due_go.
  - eapply wp_conseq;
      [eapply (batch_due k0 e);
       [intros; apply IHp1; assumption | eassumption | assumption]| |];
      cbv beta; intros; due_go.
Qed.

Lemma bodies_due :
  ops_due (mkOps (exec rec) (refresh rec) (subscribe rec) (unsubscribe rec)
              (notify rec) (drain_wave_body rec) (drain_body rec)).
Proof.
  constructor; simpl; intros.
  - now apply exec_due.
  - now apply refresh_due.
  - now apply subscribe_due.
  - now apply unsubscribe_due.
  - now apply notify_due.
Qed.

End Due.

(** Inside a batch, an effect that is due stays so across every call made
    from client code: nothing but the drain runs it. *)
Lemma run_due fuel : ops_due (run fuel).
Proof.
  induction fuel as [|fuel IH].
  - constructor; simpl; intros; exact I.
  - simpl. apply bodies_due. exact IH.
Qed.

(** ** The log of invocations only grows *)

Lemma grows_refl st : grows st st.
Proof. unfold grows. reflexivity. Qed.

Lemma grows_trans st1 st2 st3 : grows st1 st2 -> grows st2 st3 -> grows st1 st3.
Proof. unfold grows. intros. etrans; eassumption. Qed.

Lemma wp_for_each_grows {A} (l : list A) (f : A -> M unit) st :
  (forall x st, wp (f x) st (fun _ st' => grows st st') (fun _ st' => grows st st')) ->
  wp (for_each l f) st (fun _ st' => grows st st') (fun _ st' => grows st st').
Proof.
  intros Hf. revert st. induction l as [|x l IH]; intros st; simpl.
  - apply grows_refl.
  - apply wp_bind. eapply wp_conseq; [apply Hf| |]; cbv beta.
    + intros _ st' H1. eapply wp_conseq; [apply IH| |]; cbv beta;
        intros; eapply grows_trans; eauto.
    + auto.
Qed.

Create HintDb grows_specs discriminated.
#[global] Hint Resolve grows_call grows_refresh grows_subscribe grows_unsubscribe
  grows_notify grows_drain_wave grows_drain : grows_specs.

Ltac wp_use_grows :=
  eapply wp_conseq;
  [ solve [eauto 2 with grows_specs] | cbv beta; intros ? ? ? | cbv beta; intros ? ? ? ].

(** A chain of states, each growing from the one before. *)
Ltac suffix_chain :=
  first
    [ reflexivity
    | assumption
    | apply suffix_cons_r; suffix_chain
    | match goal with
      | H : ?m `suffix_of` ?r |- _ `suffix_of` ?r =>
          transitivity m; [clear H; suffix_chain | exact H]
      end ].

Ltac grows_close :=
  unfold grows in *;
  cbn [calls nodes with_nodes with_eval_listener with_eval_sources_index
       with_eval_untracked_sources with_batched_effect with_batch_depth
       with_batch_iteration with_write_clock with_read_clock with_calls
       with_dequeued with_caught] in *;
  solve [suffix_chain].

Ltac grows_go :=
  repeat first [ wp_step | grows_loop | wp_use_grows | grows_close ]
with grows_loop :=
  lazymatch goal with
  | |- wp (for_each _ _) _ _ _ =>
      eapply wp_conseq;
      [ apply wp_for_each_grows; intros ? ?; cbv beta; solve [grows_go]
      | cbv beta; intros ? ? ? | cbv beta; intros ? ? ? ]
  end.

Section Grows.

Variable rec : Ops.
Hypothesis Hrec : ops_grows rec.

Lemma is_stale_loop_grows target deps st :
  wp (is_stale_loop rec target deps) st
    (fun _ st' => grows st st') (fun _ st' => grows st st').
Proof.
  revert st. induction deps as [|d deps IH]; intros st; simpl.
  - apply grows_refl.
  - grows_go.
Qed.
#[local] Hint Resolve is_stale_loop_grows : grows_specs.

Lemma is_stale_grows target flags st :
  wp (is_stale rec target flags) st (fun _ st' => grows st st') (fun _ st' => grows st st').
Proof. unfold is_stale. grows_go. Qed.
#[local] Hint Resolve is_stale_grows : grows_specs.

Lemma end_batch_grows  st :
  wp (end_batch rec) st (fun _ st' => grows st st') (fun _ st' => grows st st').
Proof. unfold end_batch. grows_go. Qed.
#[local] Hint Resolve end_batch_grows : grows_specs.

Lemma prune_context_sources_grows  st :
  wp (prune_context_sources rec) st (fun _ st' => grows st st') (fun _ st' => grows st st').
Proof. unfold prune_context_sources. grows_go. Qed.
#[local] Hint Resolve prune_context_sources_grows : grows_specs.

Lemma cleanup_context_grows  st :
  wp (cleanup_context rec) st (fun _ st' => grows st st') (fun _ st' => grows st st').
Proof. unfold cleanup_context. grows_go. Qed.
#[local] Hint Resolve cleanup_context_grows : grows_specs.

Lemma dispose_effect_with_grows (cleanup : node_id -> M unit) effect run_cleanup st :
  (forall e st, wp (cleanup e) st (fun _ st' => grows st st') (fun _ st' => grows st st')) ->
  wp (dispose_effect_with rec cleanup effect run_cleanup) st
    (fun _ st' => grows st st') (fun _ st' => grows st st').
Proof. intros Hc. unfold dispose_effect_with. grows_go. Qed.

Lemma dispose_effect_false_grows effect st :
  wp (dispose_effect_with rec (fun _ => ret tt) effect false) st
    (fun _ st' => grows st st') (fun _ st' => grows st st').
Proof. unfold dispose_effect_with. grows_go. Qed.
#[local] Hint Resolve dispose_effect_false_grows : grows_specs.

Lemma cleanup_effect_grows effect st :
  wp (cleanup_effect rec effect) st (fun _ st' => grows st st') (fun _ st' => grows st st').
Proof. unfold cleanup_effect. grows_go. Qed.
#[local] Hint Resolve cleanup_effect_grows : grows_specs.

Lemma dispose_effect_grows effect run_cleanup st :
  wp (dispose_effect rec effect run_cleanup) st
    (fun _ st' => grows st st') (fun _ st' => grows st st').
Proof. apply dispose_effect_with_grows. intros. apply cleanup_effect_grows. Qed.
#[local] Hint Resolve dispose_effect_grows : grows_specs.

Lemma Signal_subscribe_grows self target st :
  wp (Signal_subscribe self target) st (fun _ st' => grows st st') (fun _ st' => grows st st').
Proof. unfold Signal_subscribe. grows_go. Qed.
#[local] Hint Resolve Signal_subscribe_grows : grows_specs.

Lemma Signal_unsubscribe_grows self target st :
  wp (Signal_unsubscribe self target) st (fun _ st' => grows st st') (fun _ st' => grows st st').
Proof. unfold Signal_unsubscribe. grows_go. Qed.
#[local] Hint Resolve Signal_unsubscribe_grows : grows_specs.

Lemma Signal_peek_grows self st :
  wp (Signal_peek self) st (fun _ st' => grows st st') (fun _ st' => grows st st').
Proof. unfold Signal_peek. grows_go. Qed.
#[local] Hint Resolve Signal_peek_grows : grows_specs.

Lemma Signal_get_grows self st :
  wp (Signal_get self) st (fun _ st' => grows st st') (fun _ st' => grows st st').
Proof. unfold Signal_get. grows_go. Qed.
#[local] Hint Resolve Signal_get_grows : grows_specs.

Lemma Signal_set_grows self next st :
  wp (Signal_set rec self next) st (fun _ st' => grows st st') (fun _ st' => grows st st').
Proof. unfold Signal_set. grows_go. Qed.
#[local] Hint Resolve Signal_set_grows : grows_specs.

Lemma Computed_refresh_grows self st :
  wp (Computed_refresh rec self) st (fun _ st' => grows st st') (fun _ st' => grows st st').
Proof. unfold Computed_refresh. grows_go. Qed.
#[local] Hint Resolve Computed_refresh_grows : grows_specs.

Lemma Computed_subscribe_grows self target st :
  wp (Computed_subscribe rec self target) st (fun _ st' => grows st st') (fun _ st' => grows st st').
Proof. unfold Computed_subscribe. grows_go. Qed.
#[local] Hint Resolve Computed_subscribe_grows : grows_specs.

Lemma Computed_unsubscribe_grows self target st :
  wp (Computed_unsubscribe rec self target) st (fun _ st' => grows st st') (fun _ st' => grows st st').
Proof. unfold Computed_unsubscribe. grows_go. Qed.
#[local] Hint Resolve Computed_unsubscribe_grows : grows_specs.

Lemma Computed_notify_grows self flag st :
  wp (Computed_notify rec self flag) st (fun _ st' => grows st st') (fun _ st' => grows st st').
Proof. unfold Computed_notify. grows_go. Qed.
#[local] Hint Resolve Computed_notify_grows : grows_specs.

Lemma Computed_peek_grows self st :
  wp (Computed_peek rec self) st (fun _ st' => grows st st') (fun _ st' => grows st st').
Proof. unfold Computed_peek. grows_go. Qed.
#[local] Hint Resolve Computed_peek_grows : grows_specs.

Lemma Computed_get_grows self st :
  wp (Computed_get rec self) st (fun _ st' => grows st st') (fun _ st' => grows st st').
Proof. unfold Computed_get. grows_go. Qed.
#[local] Hint Resolve Computed_get_grows : grows_specs.

Lemma Effect_notify_grows self flag st :
  wp (Effect_notify self flag) st (fun _ st' => grows st st') (fun _ st' => grows st st').
Proof. unfold Effect_notify. grows_go. Qed.
#[local] Hint Resolve Effect_notify_grows : grows_specs.

Lemma Effect_refresh_grows self st :
  wp (Effect_refresh rec self) st (fun _ st' => grows st st') (fun _ st' => grows st st').
Proof. unfold Effect_refresh. grows_go. Qed.
#[local] Hint Resolve Effect_refresh_grows : grows_specs.

Lemma Effect_dispose_grows self st :
  wp (Effect_dispose rec self) st (fun _ st' => grows st st') (fun _ st' => grows st st').
Proof. unfold Effect_dispose. grows_go. Qed.
#[local] Hint Resolve Effect_dispose_grows : grows_specs.

Lemma drain_wave_body_grows effect acc st :
  wp (drain_wave_body rec effect acc) st (fun _ st' => grows st st') (fun _ st' => grows st st').
Proof. unfold drain_wave_body. grows_go. Qed.

Lemma drain_body_grows acc st :
  wp (drain_body rec acc) st (fun _ st' => grows st st') (fun _ st' => grows st st').
Proof. unfold drain_body. grows_go. Qed.

Lemma refresh_grows self st :
  wp (refresh rec self) st (fun _ st' => grows st st') (fun _ st' => grows st st').
Proof. unfold refresh, Signal_refresh. grows_go. Qed.

Lemma subscribe_grows self target st :
  wp (subscribe rec self target) st (fun _ st' => grows st st') (fun _ st' => grows st st').
Proof. unfold subscribe. grows_go. Qed.

Lemma unsubscribe_grows self target st :
  wp (unsubscribe rec self target) st (fun _ st' => grows st st') (fun _ st' => grows st st').
Proof. unfold unsubscribe. grows_go. Qed.

Lemma notify_grows self flag st :
  wp (notify rec self flag) st (fun _ st' => grows st st') (fun _ st' => grows st st').
Proof. unfold notify. grows_go. Qed.

Lemma peek_grows self st :
  wp (peek rec self) st (fun _ st' => grows st st') (fun _ st' => grows st st').
Proof. unfold peek. grows_go. Qed.
#[local] Hint Resolve peek_grows : grows_specs.

Lemma get_value_grows self st :
  wp (get_value rec self) st (fun _ st' => grows st st') (fun _ st' => grows st st').
Proof. unfold get_value. grows_go. Qed.
#[local] Hint Resolve get_value_grows : grows_specs.

Lemma signal_grows v st :
  wp (signal v) st (fun _ st' => grows st st') (fun _ st' => grows st st').
Proof. unfold signal. grows_go. Qed.
#[local] Hint Resolve signal_grows : grows_specs.

Lemma computed_grows f v st :
  wp (computed f v) st (fun _ st' => grows st st') (fun _ st' => grows st st').
Proof. unfold computed. grows_go. Qed.
#[local] Hint Resolve computed_grows : grows_specs.

Lemma effect_grows f v st :
  wp (effect rec f v) st (fun _ st' => grows st st') (fun _ st' => grows st st').
Proof. unfold effect. grows_go. Qed.
#[local] Hint Resolve effect_grows : grows_specs.

Lemma cleanup_grows fn throws st :
  wp (cleanup fn throws) st (fun _ st' => grows st st') (fun _ st' => grows st st').
Proof. unfold cleanup. grows_go. Qed.
#[local] Hint Resolve cleanup_grows : grows_specs.

Lemma untrack_grows {A} (callback : M A) st :
  (forall st, wp callback st (fun _ st' => grows st st') (fun _ st' => grows st st')) ->
  wp (untrack callback) st (fun _ st' => grows st st') (fun _ st' => grows st st').
Proof. intros Hc. unfold untrack. grows_go. Qed.

Lemma batch_grows {A} (callback : M A) st :
  (forall st, wp callback st (fun _ st' => grows st st') (fun _ st' => grows st st')) ->
  wp (batch rec callback) st (fun _ st' => grows st st') (fun _ st' => grows st st').
Proof. intros Hc. unfold batch. grows_go. Qed.

Lemma exec_grows p st :
  wp (exec rec p) st (fun _ st' => grows st st') (fun _ st' => grows st st').
Proof.
  revert st. induction p; intros st; simpl; grows_go.
  - eapply wp_conseq; [apply untrack_grows; auto| |]; cbv beta; intros; grows_go.
  - eapply wp_conseq; [apply batch_grows; auto| |]; cbv beta; intros; grows_go.
Qed.

Lemma bodies_grows :
  ops_grows (mkOps (exec rec) (refresh rec) (subscribe rec) (unsubscribe rec)
               (notify rec) (drain_wave_body rec) (drain_body rec)).
Proof.
  constructor; simpl; intros.
  - apply exec_grows.
  - apply refresh_grows.
  - apply subscribe_grows.
  - apply unsubscribe_grows.
  - apply notify_grows.
  - apply drain_wave_body_grows.
  - apply drain_body_grows.
Qed.

End Grows.

(** With any amount of fuel, no entry point drops an invocation from the
    log. *)
Lemma run_grows fuel : ops_grows (run fuel).
Proof.
  induction fuel as [|fuel IH].
  - constructor; simpl; intros; exact I.
  - simpl. apply bodies_grows. exact IH.
Qed.

#[global] Hint Resolve end_batch_grows cleanup_context_grows dispose_effect_grows
  Effect_dispose_grows is_stale_grows : grows_specs.

Lemma count_occ_suffix (l1 l2 : list node_id) (x : node_id) :
  l1 `suffix_of` l2 ->
  (count_occ Nat.eq_dec l1 x <= count_occ Nat.eq_dec l2 x)%nat.
Proof. intros [k ->]. rewrite count_occ_app. apply Nat.le_add_l. Qed.

(** Symbolic execution up to the next call to a stored callback. *)
Ltac wp_to_call :=
  repeat lazymatch goal with
         | |- wp (bind (o_call _ _) _) _ _ _ => fail
         | |- _ => wp_step
         end.

(** A run of an effect that is not already running invokes its function. *)
Lemma Effect_refresh_invokes rec e n st :
  ops_grows rec ->
  nodes st !! e = Some n ->
  truthy (Z.land (_flags n) RUNNING) = false ->
  wp (Effect_refresh rec e) st
    (fun _ st' => (e :: calls st) `suffix_of` calls st')
    (fun _ st' => (e :: calls st) `suffix_of` calls st').
Proof.
  intros Hrec Hn Hrun. unfold Effect_refresh.
  do 2 wp_step. same_node. rewrite Hrun.
  do 3 wp_step. wp_to_call.
  match goal with
  | |- wp _ ?sm _ _ =>
      assert (Hc : (e :: calls st) `suffix_of` calls sm) by reflexivity;
      remember sm as s_c eqn:Heq; clear Heq
  end.
  grows_go.
Qed.
(** * Properties *)

(** ** Arrays: [indexOf] and [splice] *)

Lemma indexOf_from_absent (l : list node_id) (x : node_id) (i : Z) :
  x ∉ l -> indexOf_from i l x = -1.
Proof.
  revert i. induction l as [|y l IH]; intros i Hx; simpl; [reflexivity|].
  apply not_elem_of_cons in Hx as [Hne Hx].
  rewrite bool_decide_eq_false_2 by congruence. now apply IH.
Qed.

Lemma indexOf_from_first (l1 l2 : list node_id) (x : node_id) (i : Z) :
  x ∉ l1 -> indexOf_from i (l1 ++ x :: l2) x = i + Z.of_nat (length l1).
Proof.
  revert i. induction l1 as [|y l1 IH]; intros i Hx; simpl.
  - rewrite bool_decide_eq_true_2 by reflexivity. lia.
  - apply not_elem_of_cons in Hx as [Hne Hx].
    rewrite bool_decide_eq_false_2 by congruence.
    rewrite IH by assumption. lia.
Qed.

Lemma splice_one_at (l1 l2 : list node_id) (x : node_id) :
  splice (l1 ++ x :: l2) (Z.of_nat (length l1)) 1 = l1 ++ l2.
Proof.
  unfold splice. rewrite length_app. simpl length.
  assert (Hlt : (Z.of_nat (length l1) <? 0) = false) by (apply Z.ltb_ge; lia).
  rewrite Hlt.
  rewrite Z.min_l by lia.
  rewrite (Z.max_l 1 0) by lia.
  rewrite (Z.min_l 1) by lia.
  rewrite Nat2Z.id.
  replace (Z.to_nat (Z.of_nat (length l1) + 1)) with (S (length l1)) by lia.
  rewrite take_app_length.
  change (l1 ++ x :: l2) with (l1 ++ [x] ++ l2).
  rewrite app_assoc.
  replace (S (length l1)) with (length (l1 ++ [x])) by (rewrite length_app; simpl; lia).
  now rewrite drop_app_length.
Qed.

Lemma splice_minus_one (l : list node_id) :
  splice l (-1) 1 = removelast l.
Proof.
  unfold splice.
  destruct (decide (l = [])) as [->|Hne]; [reflexivity|].
  destruct (exists_last Hne) as [l' [x ->]].
  rewrite removelast_last, length_app. simpl length.
  change (-1 <? 0) with true. cbv iota.
  rewrite Z.max_l by lia.
  rewrite (Z.max_l 1 0) by lia.
  rewrite Z.min_l by lia.
  replace (Z.to_nat (Z.of_nat (length l' + 1) + -1)) with (length l') by lia.
  replace (Z.to_nat (Z.of_nat (length l' + 1) + -1 + 1)) with (length (l' ++ [x]))
    by (rewrite length_app; simpl; lia).
  rewrite take_app_length, drop_all. apply app_nil_r.
Qed.

(** ** C9: [Signal._unsubscribe] *)

(** C9.  [Signal._unsubscribe(target)] replaces the dependants array of the
    signal and touches nothing else.  When [target] occurs in the array, its
    first occurrence is removed and the other entries keep their order.
    When it does not occur, [indexOf] answers -1 and [splice(-1, 1)] removes
    the last entry of the array. *)
Theorem Signal_unsubscribe_first_or_last (self target : node_id) (n : Node) (st : State) :
  nodes st !! self = Some n ->
  exists d,
    Signal_unsubscribe self target st
      = Ok tt (with_nodes (<[self := with_dependants d n]> (nodes st)) st)
    /\ (forall l1 l2,
          _dependants n = l1 ++ target :: l2 -> target ∉ l1 -> d = l1 ++ l2)
    /\ (target ∈ _dependants n ->
          exists l1 l2, _dependants n = l1 ++ target :: l2 /\ target ∉ l1)
    /\ (target ∉ _dependants n -> d = removelast (_dependants n)).
Proof.
  intros Hn.
  exists (splice (_dependants n) (indexOf (_dependants n) target) 1).
  split; [|split; [|split]].
  - unfold Signal_unsubscribe, bind, lookup, update. rewrite Hn. simpl. now rewrite Hn.
  - intros l1 l2 Hd Hl1. rewrite Hd. unfold indexOf.
    rewrite indexOf_from_first by assumption. simpl. apply splice_one_at.
  - intros Hin. apply list_elem_of_split_l in Hin as (l1 & l2 & Hd & Hl1). eauto.
  - intros Hnin. unfold indexOf. rewrite indexOf_from_absent by assumption.
    apply splice_minus_one.
Qed.

Lemma Signal_unsubscribe_first_or_last_witness :
  exists n d,
    nodes unsubscribe_example !! 0%nat = Some n
    /\ Signal_unsubscribe 0%nat 1%nat unsubscribe_example
       = Ok tt (with_nodes (<[0%nat := with_dependants d n]> (nodes unsubscribe_example))
                  unsubscribe_example)
    /\ (forall l1 l2,
          _dependants n = l1 ++ 1%nat :: l2 -> 1%nat ∉ l1 -> d = l1 ++ l2).
Proof.
  eexists.
  destruct (Signal_unsubscribe_first_or_last 0%nat 1%nat _ unsubscribe_example eq_refl)
    as (d & Hrun & Hfirst & _).
  exists d. split; [reflexivity|]. split; [exact Hrun|exact Hfirst].
Defined.

(** ** C4: [Signal.value = next] *)

(** C4.  Writing to a signal the value it already holds changes nothing.
    Writing a different value ticks [write_clock], stamps the signal with
    the new clock and stores the value; when [batch_iteration] is below 100
    the write goes on to call [_notify(DIRTY)] on every entry of the
    dependants array, in order, between [start_batch] and [end_batch]; at
    100 and above it stops after the store. *)
Theorem Signal_set_spec (rec : Ops) (self : node_id) (next : value)
    (n : Node) (st : State) :
  nodes st !! self = Some n ->
  kind n = KSignal ->
  (_value n = next -> Signal_set rec self next st = Ok tt st)
  /\ (_value n <> next ->
      let clock := write_clock st + 1 in
      let written :=
        with_nodes (<[self := with_value next (with_epoch clock n)]> (nodes st))
          (with_write_clock clock st) in
      (100 <= batch_iteration st -> Signal_set rec self next st = Ok tt written)
      /\ (batch_iteration st < 100 ->
          Signal_set rec self next st
          = (start_batch ;;
             for_each (_dependants n) (fun dep => o_notify rec dep DIRTY) ;;
             end_batch rec) written)).
Proof.
  intros Hn Hk. split.
  - intros Heq. unfold Signal_set, bind, lookup. rewrite Hn, Hk.
    unfold strict_eq. now rewrite bool_decide_eq_true_2.
  - intros Hne clock written.
    assert (Hlen : (self < length (nodes st))%nat) by (eapply lookup_lt_Some; eauto).
    assert (Hrun : Signal_set rec self next st
      = (if batch_iteration st <? 100
         then start_batch ;;
              for_each (_dependants n) (fun dep => o_notify rec dep DIRTY) ;;
              end_batch rec
         else ret tt) written).
    { unfold Signal_set, bind at 1, lookup. rewrite Hn, Hk.
      unfold strict_eq. rewrite bool_decide_eq_false_2 by assumption.
      cbn [negb]. unfold bind at 1, modify at 1.
      unfold bind at 1, get_state. unfold bind at 1, update at 1.
      cbn [nodes with_write_clock]. rewrite Hn.
      unfold bind at 1, update at 1. cbn [nodes with_nodes].
      rewrite list_lookup_insert_eq by assumption.
      rewrite list_insert_insert_eq.
      cbn [batch_iteration write_clock with_write_clock].
      reflexivity. }
    split; intros Hit; rewrite Hrun.
    + assert (Hlt : (batch_iteration st <? 100) = false) by (apply Z.ltb_ge; lia).
      now rewrite Hlt.
    + assert (Hlt : (batch_iteration st <? 100) = true) by (apply Z.ltb_lt; lia).
      now rewrite Hlt.
Qed.

Lemma Signal_set_spec_witness :
  exists n,
    nodes unsubscribe_example !! 0%nat = Some n
    /\ Signal_set (run 10) 0%nat (Num 0) unsubscribe_example = Ok tt unsubscribe_example.
Proof.
  eexists. split; [reflexivity|].
  now apply (Signal_set_spec (run 10) 0%nat (Num 0) _ unsubscribe_example eq_refl eq_refl).
Defined.

(** ** C2: [is_stale] *)

Ltac inv_walk H :=
  inversion H; subst;
  repeat match goal with
         | Hn : not_newer _ _ _ |- _ => destruct Hn as (? & ? & ? & ? & ?)
         end.

Lemma is_stale_loop_true (rec : Ops) (target : node_id) (deps : list node_id)
    (st st' : State) :
  is_stale_loop rec target deps st = Ok true st' <->
  exists pre dep post st1,
    deps = pre ++ dep :: post
    /\ walk_clean rec target pre st st1
    /\ dep_stale rec target dep st1 st'.
Proof.
  revert st. induction deps as [|d rest IH]; intros st; simpl.
  - split; [discriminate|].
    intros (pre & dep & post & st1 & Heq & _). now destruct pre.
  - unfold bind at 1, lookup at 1.
    destruct (nodes st !! d) as [s|] eqn:Hs.
    2:{ split; [discriminate|].
        intros (pre & dep & post & st1 & Heq & Hw & Hd).
        destruct pre as [|p pre]; simplify_eq/=; [inversion Hw; subst|].
        - destruct Hd as [[(s & t & Hs' & _) _]|[(s & t & Hs' & _) _]]; congruence.
        - inv_walk Hw; congruence. }
    unfold bind at 1, lookup at 1.
    destruct (nodes st !! target) as [t|] eqn:Ht.
    2:{ split; [discriminate|].
        intros (pre & dep & post & st1 & Heq & Hw & Hd).
        destruct pre as [|p pre]; simplify_eq/=; [inversion Hw; subst|].
        - destruct Hd as [[(s' & t & _ & Ht' & _) _]|[(s' & t & _ & Ht' & _) _]]; congruence.
        - inv_walk Hw; congruence. }
    destruct (_epoch s >? _epoch t) eqn:Hgt.
    + apply Z.gtb_lt in Hgt. split.
      * intros [= <-]. exists [], d, rest, st. split; [reflexivity|].
        split; [constructor|]. left. split; [|reflexivity].
        exists s, t. repeat split; auto; lia.
      * intros (pre & dep & post & st1 & Heq & Hw & Hd).
        destruct pre as [|p pre]; simplify_eq/=; [inversion Hw; subst|].
        -- destruct Hd as [[_ ->]|[(s' & t' & Hs' & Ht' & Hle) _]]; [reflexivity|].
           simplify_eq. lia.
        -- inv_walk Hw. simplify_eq. lia.
    + assert (Hle : _epoch s <= _epoch t).
      { destruct (Z.gtb_spec (_epoch s) (_epoch t)); [discriminate|lia]. }
      assert (Hnn : not_newer d target st) by (exists s, t; auto).
      unfold bind at 1.
      destruct (o_refresh rec d st) as [[|] st2|e st2|why] eqn:Hr.
      * split.
        -- intros [= <-]. exists [], d, rest, st. split; [reflexivity|].
           split; [constructor|]. right. auto.
        -- intros (pre & dep & post & st1 & Heq & Hw & Hd).
           destruct pre as [|p pre]; simplify_eq/=; [inversion Hw; subst|].
           ++ destruct Hd as [[(s' & t' & Hs' & Ht' & Hgt') _]|[_ Hr']].
              ** simplify_eq. lia.
              ** unfold ret; congruence.
           ++ inv_walk Hw; congruence.
      * rewrite IH. split.
        -- intros (pre & dep & post & st1 & -> & Hw & Hd).
           exists (d :: pre), dep, post, st1. split; [reflexivity|].
           split; [|assumption]. econstructor; eauto.
        -- intros (pre & dep & post & st1 & Heq & Hw & Hd).
           destruct pre as [|p pre]; simplify_eq/=; [inversion Hw; subst|].
           ++ destruct Hd as [[(s' & t' & Hs' & Ht' & Hgt') _]|[_ Hr']].
              ** simplify_eq. lia.
              ** unfold ret; congruence.
           ++ inversion Hw; subst. rewrite Hr in *. simplify_eq.
              exists pre, dep, post, st1. auto.
      * split; [discriminate|].
        intros (pre & dep & post & st1 & Heq & Hw & Hd).
        destruct pre as [|p pre]; simplify_eq/=; [inversion Hw; subst|].
        -- destruct Hd as [[(s' & t' & Hs' & Ht' & Hgt') _]|[_ Hr']].
           ++ simplify_eq. lia.
           ++ unfold ret; congruence.
        -- inv_walk Hw; congruence.
      * split; [discriminate|].
        intros (pre & dep & post & st1 & Heq & Hw & Hd).
        destruct pre as [|p pre]; simplify_eq/=; [inversion Hw; subst|].
        -- destruct Hd as [[(s' & t' & Hs' & Ht' & Hgt') _]|[_ Hr']].
           ++ simplify_eq. lia.
           ++ unfold ret; congruence.
        -- inv_walk Hw; congruence.
Qed.

Lemma is_stale_loop_false (rec : Ops) (target : node_id) (deps : list node_id)
    (st st' : State) :
  is_stale_loop rec target deps st = Ok false st' <->
  walk_clean rec target deps st st'.
Proof.
  revert st. induction deps as [|d rest IH]; intros st; simpl.
  - split.
    + intros [= <-]. constructor.
    + intros Hw. inversion Hw. reflexivity.
  - split.
    + unfold bind at 1, lookup at 1.
      destruct (nodes st !! d) as [s|] eqn:Hs; [|discriminate].
      unfold bind at 1, lookup at 1.
      destruct (nodes st !! target) as [t|] eqn:Ht; [|discriminate].
      destruct (_epoch s >? _epoch t) eqn:Hgt; [discriminate|].
      assert (Hle : _epoch s <= _epoch t).
      { destruct (Z.gtb_spec (_epoch s) (_epoch t)); [discriminate|lia]. }
      unfold bind at 1.
      destruct (o_refresh rec d st) as [[|] st2|e st2|why] eqn:Hr; try discriminate.
      intros Hl. apply IH in Hl. econstructor; eauto. exists s, t. auto.
    + intros Hw. inversion Hw as [|? ? ? st2 ? Hnn Hr Hrest]; subst.
      destruct Hnn as (s & t & Hs & Ht & Hle).
      unfold bind at 1, lookup at 1. rewrite Hs.
      unfold bind at 1, lookup at 1. rewrite Ht.
      assert (Hgt : (_epoch s >? _epoch t) = false).
      { destruct (Z.gtb_spec (_epoch s) (_epoch t)); [lia|reflexivity]. }
      rewrite Hgt. unfold bind at 1. rewrite Hr. now apply IH.
Qed.

(** C2.  [is_stale(target, flags)] answers true at once when [DIRTY] is
    set.  Otherwise, when [MAYBE_DIRTY] is set, it answers true exactly when
    the walk over the dependencies, in order, passes over a prefix of clean
    dependencies and then reaches one whose epoch is greater than the
    target's or whose [_refresh()] returns true (the state is the one left
    by the refreshes made on the way); it answers false exactly when the
    walk passes over all the dependencies.  With neither flag it answers
    false at once. *)
Theorem is_stale_spec (rec : Ops) (target : node_id) (flags : Z)
    (t : Node) (st : State) :
  nodes st !! target = Some t ->
  (truthy (Z.land flags DIRTY) = true ->
     is_stale rec target flags st = Ok true st)
  /\ (truthy (Z.land flags DIRTY) = false ->
      truthy (Z.land flags MAYBE_DIRTY) = true ->
      forall st',
        (is_stale rec target flags st = Ok true st' <->
           exists pre dep post st1,
             _dependencies t = pre ++ dep :: post
             /\ walk_clean rec target pre st st1
             /\ dep_stale rec target dep st1 st')
        /\ (is_stale rec target flags st = Ok false st' <->
              walk_clean rec target (_dependencies t) st st'))
  /\ (truthy (Z.land flags DIRTY) = false ->
      truthy (Z.land flags MAYBE_DIRTY) = false ->
      is_stale rec target flags st = Ok false st).
Proof.
  intros Ht.
  assert (Hunf : is_stale rec target flags st
    = (if truthy (Z.land flags DIRTY) then ret true
       else if truthy (Z.land flags MAYBE_DIRTY)
            then is_stale_loop rec target (_dependencies t)
            else ret false) st).
  { unfold is_stale, bind, lookup. now rewrite Ht. }
  rewrite Hunf. split; [|split].
  - intros ->. reflexivity.
  - intros -> -> st'. split.
    + apply is_stale_loop_true.
    + apply is_stale_loop_false.
  - intros -> ->. reflexivity.
Qed.

Lemma is_stale_spec_witness :
  exists t,
    nodes effects_example !! 1%nat = Some t
    /\ is_stale (run 10) 1%nat DIRTY effects_example = Ok true effects_example.
Proof.
  exists (default error_node (nodes effects_example !! 1%nat)).
  assert (Ht : nodes effects_example !! 1%nat
               = Some (default error_node (nodes effects_example !! 1%nat)))
    by (vm_compute; reflexivity).
  split; [exact Ht|].
  destruct (is_stale_spec (run 10) 1%nat DIRTY _ effects_example Ht) as (H & _).
  apply H. reflexivity.
Defined.

(** ** C1: end-of-run reconciliation *)

(** C1 (failing input).  The listener 3 is tracking, its run kept the
    entry 0 and read the new entry 2.  After [cleanup_context] its
    dependency array is the kept prefix followed by the buffer and it is
    subscribed to the new entry, but it is no longer among the dependants of
    the kept entry 0: [prune_context_sources] walked the whole old array,
    and only the entries after the cursor were subscribed again. *)
Theorem cleanup_context_loses_kept_prefix :
  exists st',
    cleanup_context (run 2) reconcile_example = Ok tt st'
    /\ field _dependencies 3%nat st' = Some [0%nat; 2%nat]
    /\ field _dependants 2%nat st' = Some [3%nat]
    /\ field _dependants 0%nat st' = Some [].
Proof.
  eexists. split; [vm_compute; reflexivity|].
  repeat split.
Qed.

(** The same defect seen from client code: after the second run the effect
    still lists [cond] among its dependencies, yet the second write to
    [cond] does not run it again (the effect body ran twice in all). *)
Lemma kept_dependency_write_is_missed :
  exists v st',
    exec (run 10) reconcile_program initial_state = Ok v st'
    /\ field _dependencies 3%nat st' = Some [0%nat; 2%nat]
    /\ field _value 0%nat st' = Some (Num 1)
    /\ calls st' = [3%nat; 3%nat].
Proof.
  eexists. eexists. split; [vm_compute; reflexivity|].
  repeat split.
Qed.

(** ** C10: [untrack] *)

Lemma with_eval_listener_same st l :
  eval_listener st = l -> with_eval_listener l st = st.
Proof. intros <-. now destruct st. Qed.

(** C10.  [untrack(cb)] runs [cb] with the current listener cleared and has
    the outcome of that run: the same returned value, or the same thrown
    error.  In both cases the current listener is afterwards what it was
    before the call, and the dependency buffer and cursor are untouched. *)
Theorem untrack_restores_listener (fuel : nat) (cb : prog) (st : State) :
  match exec (run fuel) cb (with_eval_listener None st) with
  | Ok v st1 =>
      untrack (exec (run fuel) cb) st
        = Ok v (with_eval_listener (eval_listener st) st1)
      /\ eval_untracked_sources st1 = eval_untracked_sources st
      /\ eval_sources_index st1 = eval_sources_index st
  | Raise e st1 =>
      untrack (exec (run fuel) cb) st
        = Raise e (with_eval_listener (eval_listener st) st1)
      /\ eval_untracked_sources st1 = eval_untracked_sources st
      /\ eval_sources_index st1 = eval_sources_index st
  | Halt why => untrack (exec (run fuel) cb) st = Halt why
  end.
Proof.
  pose proof (exec_calm (run fuel) (run_calm fuel) cb (with_eval_listener None st))
    as Hcalm.
  unfold wp in Hcalm.
  unfold untrack, bind, get_state.
  destruct (eval_listener st) as [prev|] eqn:Hl.
  - unfold modify, try_finally.
    destruct (exec (run fuel) cb (with_eval_listener None st)) as [v st1|e st1|why];
      [| |reflexivity];
      destruct Hcalm as [(_ & _ & Hbuf & _) _];
      destruct (Hbuf eq_refl) as [Hb Hi]; auto.
  - rewrite (with_eval_listener_same st None Hl) in *.
    destruct (exec (run fuel) cb st) as [v st1|e st1|why]; [| |reflexivity];
      destruct Hcalm as [(_ & Hlis & Hbuf & _) _];
      destruct (Hbuf Hl) as [Hb Hi];
      (split; [|auto]);
      rewrite with_eval_listener_same; congruence.
Qed.

(** ** Errors thrown by effects during a drain *)

(** The accumulator of the drain holds the first error caught. *)

Lemma drain_first_caught (fuel : nat) (c0 : list value) :
  (forall e acc st,
      1 <= batch_depth st -> first_caught acc c0 (caught st) ->
      wp (o_drain_wave (run fuel) e acc) st
        (fun acc' st' => 1 <= batch_depth st' /\ first_caught acc' c0 (caught st'))
        (fun _ _ => False))
  /\ (forall acc st,
      1 <= batch_depth st -> first_caught acc c0 (caught st) ->
      wp (o_drain (run fuel) acc) st
        (fun acc' st' => 1 <= batch_depth st' /\ first_caught acc' c0 (caught st')
                         /\ batched_effect st' = None)
        (fun _ _ => False)).
Proof.
  induction fuel as [|fuel [IHw IHd]]; [split; intros; exact I|].
  pose proof (run_calm fuel) as Hcalm.
  split.
  - intros e acc st Hd Hacc. simpl. unfold drain_wave_body.
    destruct e as [e|]; [|apply wp_ret; auto].
    repeat wp_step.
    + wp_apply (is_stale_calm (run fuel) Hcalm); [|contradiction].
      repeat wp_step.
      * wp_apply (Effect_refresh_calm (run fuel) Hcalm).
        -- repeat wp_step. wp_apply IHw; [| |auto|auto].
           ++ calm_open. calm_forward. lia.
           ++ calm_open. calm_forward. congruence.
        -- repeat wp_step. wp_apply IHw; [| |auto|auto].
           ++ calm_open. calm_forward. lia.
           ++ calm_open. calm_forward.
              match goal with H : caught _ = caught _ |- _ => rewrite H end.
              match goal with H : caught _ = caught _ |- _ => rewrite H end.
              destruct acc as [prev|]; simpl in *.
              ** destruct Hacc as [later ->]. eexists (_ :: later). reflexivity.
              ** rewrite Hacc. eexists []. reflexivity.
      * wp_apply IHw; [| |auto|auto].
        -- calm_open. calm_forward. lia.
        -- calm_open. calm_forward. congruence.
    + wp_apply IHw; [| |auto|auto]; auto.
  - intros acc st Hd Hacc. simpl. unfold drain_body.
    repeat wp_step; [|auto].
    wp_apply IHw; [exact Hd|exact Hacc| |auto].
    wp_apply IHd; [| | |auto]; tauto.
Qed.

(** ** C7: order of a wave *)

Lemma wp_forall {A X} (m : M A) st (Q : X -> A -> State -> Prop)
    (E : X -> value -> State -> Prop) :
  (forall x, wp m st (Q x) (E x)) ->
  wp m st (fun a st' => forall x, Q x a st') (fun e st' => forall x, E x e st').
Proof. unfold wp. destruct (m st); auto. Qed.

Lemma wave_transport st st' h l :
  wave st h l ->
  (forall x nx, x ∈ l -> protected (is_queued nx) x st ->
                protected (is_queued nx) x st') ->
  wave st' h l.
Proof.
  induction 1 as [|e next l Hq Hni Hw IH]; intros Hkeep; [constructor|].
  apply (wave_cons st' e next l).
  - apply Hkeep; [left|assumption].
  - assumption.
  - apply IH. intros x nx Hx. apply Hkeep. now right.
Qed.

Lemma wave_notified st h l x :
  wave st h l -> x ∈ l ->
  exists n, nodes st !! x = Some n /\ truthy (Z.land (_flags n) NOTIFIED) = true.
Proof.
  induction 1 as [|e next l Hq Hni Hw IH]; intros Hx.
  - now apply elem_of_nil in Hx.
  - apply elem_of_cons in Hx as [->|Hx]; [|auto].
    destruct Hq as (n & Hn & _ & Hb & _). eauto.
Qed.

(** [Effect._notify] puts the effect at the head of the queue. *)
Lemma Effect_notify_pushes (e : node_id) (flag : Z) (l : list node_id) (st : State) :
  wave st (batched_effect st) l ->
  idle_effect e st ->
  exists st',
    Effect_notify e flag st = Ok tt st'
    /\ wave st' (batched_effect st') (e :: l)
    /\ batch_depth st' = batch_depth st
    /\ dequeued st' = dequeued st
    /\ (forall x, x <> e -> nodes st' !! x = nodes st !! x).
Proof.
  intros Hw (n & Hn & Hk & Hidle).
  assert (Hlt : (e < length (nodes st))%nat) by (eapply lookup_lt_Some; eauto).
  eexists. split.
  { unfold Effect_notify, bind, lookup, update, get_state, modify.
    rewrite Hn, Hidle. cbn [negb nodes with_nodes batched_effect]. rewrite Hn.
    cbn [negb nodes with_nodes batched_effect].
    rewrite list_lookup_insert_eq by assumption.
    rewrite list_insert_insert_eq. reflexivity. }
  cbn [batched_effect with_batched_effect with_nodes nodes batch_depth dequeued].
  assert (Hne : e ∉ l).
  { intros Hin. destruct (wave_notified _ _ _ _ Hw Hin) as (n' & Hn' & Hb).
    simplify_eq. revert Hidle Hb. clear. intros Hidle Hb. flag_simpl.
    rewrite Hb in Hidle. discriminate. }
  split; [|split; [reflexivity|split; [reflexivity|]]].
  - apply (wave_cons _ e (batched_effect st) l).
    + eexists. split; [apply list_lookup_insert_eq; assumption|].
      unfold is_queued. cbn. split; [assumption|]. split; [|reflexivity].
      clear. flag_simpl. reflexivity.
    + assumption.
    + eapply wave_transport; [exact Hw|].
      intros x nx Hx (m & Hm & HP). exists m. split; [|assumption].
      cbn. rewrite list_lookup_insert_ne; [assumption|]. intros ->. contradiction.
  - intros x Hx. apply list_lookup_insert_ne. congruence.
Qed.

(** Notifying idle effects one after the other builds the queue in reverse. *)
Lemma notify_all_reverses (flag : Z) (es l : list node_id) (st : State) :
  wave st (batched_effect st) l ->
  NoDup es ->
  (forall e, e ∈ es -> idle_effect e st) ->
  exists st',
    for_each es (fun e => Effect_notify e flag) st = Ok tt st'
    /\ wave st' (batched_effect st') (rev es ++ l)
    /\ batch_depth st' = batch_depth st
    /\ dequeued st' = dequeued st.
Proof.
  revert l st. induction es as [|e es IH]; intros l st Hw Hnd Hidle.
  - exists st. simpl. auto.
  - apply NoDup_cons in Hnd as [Hne Hnd].
    destruct (Effect_notify_pushes e flag l st Hw) as (st1 & Hrun & Hw1 & Hd1 & Hq1 & Hsame).
    { apply Hidle. left. }
    destruct (IH (e :: l) st1 Hw1 Hnd) as (st2 & Hrun2 & Hw2 & Hd2 & Hq2).
    { intros x Hx. destruct (Hidle x) as (n & Hn & Hk & Hb); [now right|].
      exists n. split; [|auto]. rewrite Hsame; [assumption|].
      intros ->. contradiction. }
    exists st2. split; [|split; [|split; congruence]].
    + simpl. unfold bind. now rewrite Hrun.
    + simpl. now rewrite <- app_assoc.
Qed.

Section WaitingRelation.

Variable fuel : nat.

Let Hcalm := run_calm fuel.
Let Hhold := run_hold fuel.

Lemma is_stale_waits target flags st :
  wp (is_stale (run fuel) target flags) st
    (fun _ st' => forall k e nx, held k e nx st -> 1 <= k -> held k e nx st')
    (fun _ st' => forall k e nx, held k e nx st -> 1 <= k -> held k e nx st').
Proof.
  unfold wp. destruct (is_stale (run fuel) target flags st) as [a st'|x st'|] eqn:Hr;
    [| |exact I]; intros k e nx H Hk;
    pose proof (is_stale_hold (run fuel) Hhold k e nx target flags st H Hk) as Hw;
    unfold wp in Hw; now rewrite Hr in Hw.
Qed.

Lemma Effect_refresh_waits self st :
  wp (Effect_refresh (run fuel) self) st
    (fun _ st' => forall k e nx, held k e nx st -> 1 <= k -> held k e nx st')
    (fun _ st' => forall k e nx, held k e nx st -> 1 <= k -> held k e nx st').
Proof.
  unfold wp. destruct (Effect_refresh (run fuel) self st) as [a st'|x st'|] eqn:Hr;
    [| |exact I]; intros k e nx H Hk;
    pose proof (Effect_refresh_hold (run fuel) Hhold k e nx self st H Hk) as Hw;
    unfold wp in Hw; now rewrite Hr in Hw.
Qed.

End WaitingRelation.

Lemma wave_after_dequeue st st' e x1 x2 next l :
  nodes st' = <[e := x2]> (<[e := x1]> (nodes st)) ->
  e ∉ l ->
  wave st next l ->
  wave st' next l.
Proof.
  intros Hn Hni Hw. eapply wave_transport; [exact Hw|].
  intros x nx Hx (m & Hm & HP). exists m. split; [|assumption].
  rewrite Hn.
  assert (e <> x) by (intros ->; contradiction).
  now rewrite !list_lookup_insert_ne.
Qed.

Lemma wave_same_nodes st st' h l :
  nodes st' = nodes st -> wave st h l -> wave st' h l.
Proof.
  intros Hn Hw. eapply wave_transport; [exact Hw|].
  intros x nx _ (m & Hm & HP). exists m. now rewrite Hn.
Qed.

Lemma wave_waits st st' h l :
  wave st h l ->
  1 <= batch_depth st ->
  (forall k e nx, held k e nx st -> 1 <= k -> held k e nx st') ->
  wave st' h l.
Proof.
  intros Hw Hd Hkeep. eapply wave_transport; [exact Hw|].
  intros x nx _ Hq.
  destruct (Hkeep 1 x nx) as [_ Hq']; [split; assumption|lia|exact Hq'].
Qed.

(** The inner loop of the drain takes the effects of a wave in link order. *)
Lemma drain_wave_order (fuel : nat) :
  forall l h acc st,
    1 <= batch_depth st -> wave st h l ->
    wp (o_drain_wave (run fuel) h acc) st
      (fun _ st' => 1 <= batch_depth st' /\ dequeued st' = rev l ++ dequeued st)
      (fun _ _ => False).
Proof.
  induction fuel as [|fuel IH]; intros l h acc st Hd Hw; [exact I|].
  pose proof (run_calm fuel) as Hcalm.
  simpl. unfold drain_wave_body.
  inversion Hw as [|e next l' Hq Hni Hw']; subst; [apply wp_ret; auto|].
  destruct Hq as (n0 & Hn0 & Hk0 & Hb0 & Hnext).
  wp_step. wp_step. same_node. rewrite Hnext.
  wp_step. wp_step. wp_step. wp_step. wp_step. wp_step.
  match goal with
  | |- wp _ ?s _ _ =>
      assert (Hwa : wave s next l' /\ 1 <= batch_depth s
                    /\ dequeued s = e :: dequeued st)
  end.
  { split; [|split; [exact Hd|reflexivity]].
    eapply wave_after_dequeue; [|exact Hni|exact Hw']. reflexivity. }
  destruct Hwa as (Hwa & Hda & Hqa).
  match goal with
  | |- wp _ ?s _ _ => remember s as sa eqn:Hsa; clear Hsa
  end.
  assert (Hfin : forall acc' sb,
    wave sb next l' -> 1 <= batch_depth sb -> dequeued sb = e :: dequeued st ->
    wp (o_drain_wave (run fuel) next acc') sb
      (fun _ st' => 1 <= batch_depth st'
                    /\ dequeued st' = rev (e :: l') ++ dequeued st)
      (fun _ _ => False)).
  { intros acc' sb Hwb Hdb Hqb. wp_apply IH; [exact Hdb|exact Hwb| |auto].
    match goal with Hp : _ /\ dequeued _ = _ |- _ => destruct Hp as [Hd' Hq'] end.
    split; [assumption|].
    rewrite Hq', Hqb. simpl. now rewrite <- app_assoc. }
  wp_step. wp_step; [|wp_step; apply Hfin; assumption].
  wp_step.
  eapply wp_conseq;
    [apply wp_and; [apply (is_stale_calm (run fuel) Hcalm)|apply is_stale_waits]| |];
    cbv beta; [|intros ? ? [[] _]].
  intros stale sb [[Hg Hquiet] Hkeep].
  assert (Hsb : wave sb next l' /\ 1 <= batch_depth sb
                /\ dequeued sb = e :: dequeued st).
  { split; [eapply wave_waits; eauto|].
    destruct Hg as (Hg & _). destruct (Hquiet Hda) as [_ Hdq].
    split; [lia|congruence]. }
  destruct Hsb as (Hwb & Hdb & Hqb).
  destruct stale; [|wp_step; apply Hfin; assumption].
  wp_step. wp_step.
  eapply wp_conseq;
    [apply wp_and; [apply (Effect_refresh_calm (run fuel) Hcalm)
                   |apply Effect_refresh_waits]| |];
    cbv beta; intros ? sc [[Hg' Hquiet'] Hkeep'];
    assert (Hsc : wave sc next l' /\ 1 <= batch_depth sc
                  /\ dequeued sc = e :: dequeued st)
      by (split; [eapply wave_waits; eauto|];
          destruct Hg' as (Hg' & _); destruct (Hquiet' Hdb) as [_ Hdq'];
          split; [lia|congruence]);
    destruct Hsc as (Hwc & Hdc & Hqc).
  - repeat wp_step. apply Hfin; assumption.
  - repeat wp_step.
    apply Hfin; [eapply wave_same_nodes; [|exact Hwc]; reflexivity|exact Hdc|exact Hqc].
Qed.

(** The drain only adds to the log of dequeued effects. *)
Lemma drain_extends (fuel : nat) (q0 : list node_id) :
  (forall h acc st,
      1 <= batch_depth st -> (exists later, dequeued st = later ++ q0) ->
      wp (o_drain_wave (run fuel) h acc) st
        (fun _ st' => 1 <= batch_depth st' /\ exists later, dequeued st' = later ++ q0)
        (fun _ _ => False))
  /\ (forall acc st,
      1 <= batch_depth st -> (exists later, dequeued st = later ++ q0) ->
      wp (o_drain (run fuel) acc) st
        (fun _ st' => 1 <= batch_depth st' /\ exists later, dequeued st' = later ++ q0)
        (fun _ _ => False)).
Proof.
  induction fuel as [|fuel [IHw IHd]]; [split; intros; exact I|].
  pose proof (run_calm fuel) as Hcalm.
  assert (Hkeep : forall sa sb,
    calm sa sb -> 1 <= batch_depth sa -> (exists later, dequeued sa = later ++ q0) ->
    1 <= batch_depth sb /\ exists later, dequeued sb = later ++ q0).
  { intros sa sb [(Hg & _) Hq] Hd [later Hl]. destruct (Hq Hd) as [_ Hdq].
    split; [lia|]. exists later. congruence. }
  split.
  - intros h acc st Hd Hq. simpl. unfold drain_wave_body.
    destruct h as [e|]; [|apply wp_ret; auto].
    do 8 wp_step.
    match goal with
    | |- wp _ ?s _ _ =>
        assert (Hsa : 1 <= batch_depth s /\ exists later, dequeued s = later ++ q0)
          by (split; [exact Hd|]; destruct Hq as [later Hl];
              exists (e :: later); cbn; now rewrite Hl);
        remember s as sa eqn:Heqsa; clear Heqsa
    end.
    destruct Hsa as [Hda Hqa].
    wp_step. wp_step; [|wp_step; wp_apply IHw; auto].
    wp_step. wp_apply (is_stale_calm (run fuel) Hcalm); [|contradiction].
    match goal with Hc : calm sa _ |- _ => destruct (Hkeep _ _ Hc Hda Hqa) as [Hdb Hqb] end.
    wp_step; [|wp_step; wp_apply IHw; auto].
    wp_step. wp_step. wp_apply (Effect_refresh_calm (run fuel) Hcalm);
      match goal with Hc : calm st' _ |- _ => destruct (Hkeep _ _ Hc Hdb Hqb) as [Hdc Hqc] end.
    + repeat wp_step. wp_apply IHw; auto.
    + repeat wp_step. wp_apply IHw; auto.
  - intros acc st Hd Hq. simpl. unfold drain_body.
    repeat wp_step; [|auto].
    wp_apply IHw; [exact Hd|exact Hq| |auto].
    match goal with Hp : _ /\ _ |- _ => destruct Hp as [Hd' Hq'] end.
    wp_apply IHd; auto.
Qed.


(** ** C3: the drain goes through the whole queue *)

Section DueRelation.

Variable fuel : nat.

Let Hdue := run_due fuel.

Lemma is_stale_keeps_due target flags st :
  wp (is_stale (run fuel) target flags) st
    (fun _ st' => forall k x, due k x st -> 1 <= k -> due k x st')
    (fun _ st' => forall k x, due k x st -> 1 <= k -> due k x st').
Proof.
  unfold wp. destruct (is_stale (run fuel) target flags st) as [a st'|y st'|] eqn:Hr;
    [| |exact I]; intros k x H Hk;
    pose proof (is_stale_due (run fuel) Hdue k x target flags st H Hk) as Hw;
    unfold wp in Hw; now rewrite Hr in Hw.
Qed.

Lemma Effect_refresh_keeps_due self st :
  wp (Effect_refresh (run fuel) self) st
    (fun _ st' => forall k x, x <> self -> due k x st -> 1 <= k -> due k x st')
    (fun _ st' => forall k x, x <> self -> due k x st -> 1 <= k -> due k x st').
Proof.
  unfold wp. destruct (Effect_refresh (run fuel) self st) as [a st'|y st'|] eqn:Hr;
    [| |exact I]; intros k x Hne H Hk;
    (assert (Hne' : self <> x) by congruence);
    pose proof (Effect_refresh_due (run fuel) Hdue k x self st H Hk Hne') as Hw;
    unfold wp in Hw; now rewrite Hr in Hw.
Qed.

End DueRelation.

(** [is_stale] answers true at once when [DIRTY] is among the flags. *)
Lemma is_stale_dirty rec target flags st :
  wp (is_stale rec target flags) st
    (fun r st' => truthy (Z.land flags DIRTY) = true -> r = true /\ st' = st)
    (fun _ _ => True).
Proof.
  unfold is_stale. do 2 wp_step. cbv zeta.
  destruct (truthy (Z.land flags DIRTY)); [wp_step; auto|].
  match goal with |- wp ?m ?s _ _ => unfold wp; destruct (m s) end;
    first [discriminate | exact I].
Qed.

Lemma Effect_refresh_invokes_if fuel e st :
  wp (Effect_refresh (run fuel) e) st
    (fun _ st' => forall n, nodes st !! e = Some n ->
                   truthy (Z.land (_flags n) RUNNING) = false ->
                   (e :: calls st) `suffix_of` calls st')
    (fun _ st' => forall n, nodes st !! e = Some n ->
                   truthy (Z.land (_flags n) RUNNING) = false ->
                   (e :: calls st) `suffix_of` calls st').
Proof.
  unfold wp. destruct (Effect_refresh (run fuel) e st) as [a st'|y st'|] eqn:Hr;
    [| |exact I]; intros n Hn Hrun;
    pose proof (Effect_refresh_invokes (run fuel) e n st (run_grows fuel) Hn Hrun) as Hw;
    unfold wp in Hw; now rewrite Hr in Hw.
Qed.

Lemma compute_count_grows x st st' :
  grows st st' -> (compute_count x st <= compute_count x st')%nat.
Proof. unfold grows, compute_count. apply count_occ_suffix. Qed.

(** The inner loop of the drain runs every effect of the wave that is due,
    whatever the effects before it did. *)
Lemma drain_wave_runs_due (fuel : nat) :
  forall l h acc st,
    1 <= batch_depth st -> wave st h l ->
    wp (o_drain_wave (run fuel) h acc) st
      (fun _ st' =>
         grows st st'
         /\ forall x, x ∈ l -> protected is_due x st ->
              (compute_count x st < compute_count x st')%nat)
      (fun _ _ => False).
Proof.
  induction fuel as [|fuel IH]; intros l h acc st Hd Hw; [exact I|].
  pose proof (run_calm fuel) as Hcalm. pose proof (run_grows fuel) as Hgrows.
  simpl. unfold drain_wave_body.
  inversion Hw as [|e next l' Hq Hni Hw']; subst.
  { apply wp_ret. split; [apply grows_refl|]. intros x Hx. now apply elem_of_nil in Hx. }
  destruct Hq as (n0 & Hn0 & Hk0 & Hb0 & Hnext).
  wp_step. wp_step. same_node. rewrite Hnext.
  do 6 wp_step. written. same_node.
  set (ne := with_next_batched_effect None
               (with_flags (Z.land (_flags n0) (Z.lnot NOTIFIED)) n0)).
  match goal with
  | |- wp _ ?s _ _ =>
      assert (Hsa : wave s next l' /\ 1 <= batch_depth s /\ grows st s
                    /\ nodes s !! e = Some ne
                    /\ forall k x, x ∈ l' -> due k x st -> due k x s);
      [|remember s as sa eqn:Heqsa; clear Heqsa]
  end.
  { split; [eapply (wave_after_dequeue st _ e _ ne); [|exact Hni|exact Hw'];
            cbn [nodes with_nodes with_dequeued]; reflexivity|].
    split; [exact Hd|]. split; [unfold grows; reflexivity|].
    split; [lookup_solve|].
    intros k x Hx [Hdk (m & Hm & HP)]. split; [exact Hdk|].
    exists m. split; [|exact HP]. cbn [nodes with_nodes with_dequeued].
    assert (e <> x) by (intros ->; contradiction).
    now rewrite !list_lookup_insert_ne. }
  destruct Hsa as (Hwa & Hda & Hga & Hna & Hduea).
  assert (Hfin : forall acc' sb,
    wave sb next l' -> 1 <= batch_depth sb -> grows st sb ->
    (forall x, x ∈ l' -> due 1 x st -> due 1 x sb) ->
    (protected is_due e st -> (compute_count e st < compute_count e sb)%nat) ->
    wp (o_drain_wave (run fuel) next acc') sb
      (fun _ st' =>
         grows st st'
         /\ forall x, x ∈ e :: l' -> protected is_due x st ->
              (compute_count x st < compute_count x st')%nat)
      (fun _ _ => False)).
  { intros acc' sb Hwb Hdb Hgb Hdueb Hran.
    wp_apply IH; [exact Hdb|exact Hwb| |auto].
    match goal with Hp : grows sb _ /\ _ |- _ => destruct Hp as [Hg' Hrest] end.
    split; [eapply grows_trans; eauto|].
    intros x Hx Hp. apply elem_of_cons in Hx as [->|Hx].
    - pose proof (compute_count_grows e _ _ Hg'). specialize (Hran Hp). lia.
    - destruct (Hdueb x Hx) as [_ Hpb]; [split; [lia|exact Hp]|].
      specialize (Hrest x Hx Hpb).
      pose proof (compute_count_grows x _ _ Hgb). lia. }
  assert (Hflags : protected is_due e st ->
            truthy (Z.land (Z.land (_flags n0) (Z.lnot NOTIFIED)) DISPOSED) = false
            /\ truthy (Z.land (Z.land (_flags n0) (Z.lnot NOTIFIED)) DIRTY) = true
            /\ truthy (Z.land (_flags ne) RUNNING) = false).
  { intros (m & Hm & _ & _ & Hdirty & Hdisp & Hrun). same_node.
    unfold ne. cbn [_flags with_flags with_next_batched_effect].
    clear - Hdirty Hdisp Hrun. flag_simpl. bits_known. auto. }
  wp_step. wp_step.
  2:{ wp_step. apply Hfin; try assumption; [intros; now apply Hduea|].
      intros Hp. destruct (Hflags Hp) as (Hdisp & _).
      match goal with Hb : negb _ = false |- _ => rewrite Hdisp in Hb; discriminate Hb end. }
  wp_step.
  eapply wp_conseq;
    [apply wp_and;
     [apply wp_and;
      [apply wp_and;
       [apply (is_stale_calm (run fuel) Hcalm)|apply is_stale_waits]
      |apply wp_and; [apply is_stale_keeps_due|apply (is_stale_grows (run fuel) Hgrows)]]
     |apply is_stale_dirty]| |];
    cbv beta; [|intros ? ? [[[[] _] _] _]].
  intros stale sb [[[[Hg Hquiet] Hkeep] [Hkeepdue Hgr]] Hdirty].
  assert (Hsb : wave sb next l' /\ 1 <= batch_depth sb /\ grows st sb
                /\ forall x, x ∈ l' -> due 1 x st -> due 1 x sb).
  { split; [eapply wave_waits; eauto|].
    destruct Hg as (Hg & _). split; [lia|]. split; [eapply grows_trans; eauto|].
    intros x Hx Hp. apply Hkeepdue; [|lia]. now apply Hduea. }
  destruct Hsb as (Hwb & Hdb & Hgb & Hdueb).
  destruct stale.
  2:{ wp_step. apply Hfin; try assumption.
      intros Hp. destruct (Hflags Hp) as (_ & Hdi & _).
      destruct (Hdirty Hdi) as [Hfalse _]. discriminate Hfalse. }
  wp_step. wp_step.
  eapply wp_conseq;
    [apply wp_and;
     [apply wp_and;
      [apply wp_and;
       [apply (Effect_refresh_calm (run fuel) Hcalm)|apply Effect_refresh_waits]
      |apply wp_and;
       [apply Effect_refresh_keeps_due|apply (Effect_refresh_grows (run fuel) Hgrows)]]
     |apply Effect_refresh_invokes_if]| |];
    cbv beta; intros ? sc [[[[Hg' Hquiet'] Hkeep'] [Hkeepdue' Hgr']] Hinv];
    assert (Hsc : wave sc next l' /\ 1 <= batch_depth sc /\ grows st sc
                  /\ (forall x, x ∈ l' -> due 1 x st -> due 1 x sc)
                  /\ (protected is_due e st ->
                      (compute_count e st < compute_count e sc)%nat))
      by (split; [eapply wave_waits; eauto|];
          destruct Hg' as (Hg' & _); split; [lia|];
          split; [eapply grows_trans; eauto|];
          split;
          [intros x Hx Hp; apply Hkeepdue';
           [intros ->; contradiction|now apply Hdueb|lia]
          |intros Hp; destruct (Hflags Hp) as (_ & Hdi & Hrun);
           destruct (Hdirty Hdi) as [_ ->];
           specialize (Hinv ne Hna Hrun);
           apply count_occ_suffix with (x := e) in Hinv;
           unfold compute_count; rewrite count_occ_cons_eq in Hinv by reflexivity;
           pose proof (compute_count_grows e _ _ Hga) as Hle;
           unfold compute_count in Hle; unfold node_id in *; lia]);
    destruct Hsc as (Hwc & Hdc & Hgc & Hduec & Hranc).
  - repeat wp_step. apply Hfin; assumption.
  - repeat wp_step.
    apply Hfin; [eapply wave_same_nodes; [|exact Hwc]; reflexivity|exact Hdc
                |exact Hgc| |exact Hranc].
    intros x Hx Hp. destruct (Hduec x Hx Hp) as [Hk (m & Hm & HP)].
    split; [exact Hk|]. exists m. split; [exact Hm|exact HP].
Qed.



(** ** C6: repeated reads of a computed signal *)

Lemma land_lnot_idem f m : Z.land (Z.land f (Z.lnot m)) (Z.lnot m) = Z.land f (Z.lnot m).
Proof. now rewrite <- Z.land_assoc, Z.land_diag. Qed.

Lemma listener_ok_mono st st' :
  listener_ok st ->
  eval_listener st' = eval_listener st ->
  (length (nodes st) <= length (nodes st'))%nat ->
  listener_ok st'.
Proof.
  intros Hl He Hlen l Hl'. rewrite He in Hl'. specialize (Hl l Hl').
  apply lookup_lt_is_Some in Hl. apply lookup_lt_is_Some. lia.
Qed.

Lemma settled_not_early n clock :
  settled_node n clock ->
  (_realm_write_epoch n =? clock)
  || (Z.land (Z.land (_flags n) (Z.lnot NOTIFIED))
        (Z.lor (Z.lor TRACKING DIRTY) MAYBE_DIRTY) =? TRACKING)
  || truthy (Z.land (Z.land (_flags n) (Z.lnot NOTIFIED)) RUNNING) = false ->
  -1 < _epoch n
  /\ truthy (Z.land (_flags n) DIRTY) = false
  /\ truthy (Z.land (_flags n) MAYBE_DIRTY) = false.
Proof.
  intros Hset Hearly.
  apply orb_false_iff in Hearly as [Hearly H3].
  apply orb_false_iff in Hearly as [H1 H2].
  apply Z.eqb_neq in H1, H2.
  destruct Hset as [H|[H|[H|H]]]; [contradiction|contradiction|congruence|exact H].
Qed.

(** Refreshing a computed signal at rest: nothing is computed, the value
    and the error state stay, and the signal is still at rest. *)
Lemma Computed_refresh_at_rest (rec : Ops) c v h k st :
  at_rest c v h k st ->
  wpt (Computed_refresh rec c) st
    (fun changed st' => changed = false /\ at_rest c v h k st'
                        /\ eval_listener st' = eval_listener st)
    (fun _ _ => False).
Proof.
  intros ((n & Hn & Hk & Hset & Hv & Hh) & Hcount & Hlis).
  unfold Computed_refresh. repeat wpt_step.
  cbn [write_clock with_nodes].
  assert (Hc' : compute_count c
            (with_nodes (<[c:=with_flags (Z.land (_flags n) (Z.lnot NOTIFIED)) n]>
               (nodes st)) st) = k) by exact Hcount.
  destruct ((_realm_write_epoch n =? write_clock st)
            || (Z.land (Z.land (_flags n) (Z.lnot NOTIFIED))
                  (Z.lor (Z.lor TRACKING DIRTY) MAYBE_DIRTY) =? TRACKING)
            || truthy (Z.land (Z.land (_flags n) (Z.lnot NOTIFIED)) RUNNING)) eqn:Hearly.
  - wpt_step. split; [reflexivity|]. split; [|reflexivity].
    split; [|split; [exact Hc'|]].
    + eexists. split; [lookup_solve|]. cbn [kind _value _flags with_flags _realm_write_epoch _epoch].
      split; [exact Hk|]. split; [|split; [exact Hv|]].
      * unfold settled_node. cbn [kind _value _flags with_flags _realm_write_epoch _epoch write_clock with_nodes].
        rewrite land_lnot_idem.
        apply orb_true_iff in Hearly as [Hearly|Hearly];
          [apply orb_true_iff in Hearly as [Hearly|Hearly]|].
        -- left. now apply Z.eqb_eq.
        -- right. left. now apply Z.eqb_eq.
        -- right. right. left. exact Hearly.
      * rewrite <- Hh. clear. flag_simpl. reflexivity.
    + intros l Hl. destruct (Hlis l Hl) as [m Hm]. cbn [nodes with_nodes].
      destruct (decide (c = l)) as [->|Hne].
      * erewrite lookup_written by eassumption. eauto.
      * rewrite list_lookup_insert_ne by assumption. eauto.
  - destruct (settled_not_early _ _ Hset Hearly) as (Hep & Hd & Hm).
    assert (Hgt : (_epoch n >? -1) = true) by (apply Z.gtb_lt; lia).
    assert (Hfd : truthy (Z.land (Z.land (_flags n) (Z.lnot NOTIFIED)) DIRTY) = false)
      by (rewrite <- Hd; clear; flag_simpl; reflexivity).
    assert (Hfm : truthy (Z.land (Z.land (_flags n) (Z.lnot NOTIFIED)) MAYBE_DIRTY) = false)
      by (rewrite <- Hm; clear; flag_simpl; reflexivity).
    rewrite Hgt. unfold is_stale. rewrite Hfd, Hfm.
    repeat wpt_step. cbn [negb]. repeat wpt_step.
    split; [reflexivity|]. split; [|reflexivity].
    split; [|split; [exact Hcount|]].
    + eexists. split; [lookup_solve|].
      cbn [kind _value _flags with_flags with_realm_write_epoch _realm_write_epoch _epoch].
      split; [exact Hk|]. split; [|split; [exact Hv|]].
      * left. reflexivity.
      * rewrite <- Hh. clear. flag_simpl. reflexivity.
    + eapply listener_ok_mono; [exact Hlis|reflexivity|].
      cbn [nodes with_nodes]. rewrite !length_insert. lia.
Qed.

Lemma at_rest_access c v h k st n x f :
  at_rest c v h k st ->
  nodes st !! c = Some n ->
  nodes (f (with_nodes (<[c := with_access_epoch x n]> (nodes st)) st))
    = <[c := with_access_epoch x n]> (nodes st) ->
  write_clock (f (with_nodes (<[c := with_access_epoch x n]> (nodes st)) st))
    = write_clock st ->
  calls (f (with_nodes (<[c := with_access_epoch x n]> (nodes st)) st)) = calls st ->
  eval_listener (f (with_nodes (<[c := with_access_epoch x n]> (nodes st)) st))
    = eval_listener st ->
  at_rest c v h k (f (with_nodes (<[c := with_access_epoch x n]> (nodes st)) st)).
Proof.
  intros ((m & Hm & Hk & Hset & Hv & Hh) & Hcount & Hlis) Hn Hnodes Hclock Hcalls Hlisten.
  assert (m = n) by congruence. subst m.
  split; [|split].
  - exists (with_access_epoch x n). rewrite Hnodes, Hclock.
    split; [eapply lookup_written; eassumption|].
    repeat split; assumption.
  - unfold compute_count in *. now rewrite Hcalls.
  - eapply listener_ok_mono; [exact Hlis|exact Hlisten|].
    rewrite Hnodes, length_insert. lia.
Qed.

(** [Signal.value] read on a computed signal at rest. *)
Lemma Signal_get_at_rest c v h k st :
  at_rest c v h k st ->
  wpt (Signal_get c) st (fun a st' => a = v /\ at_rest c v h k st') (fun _ _ => False).
Proof.
  intros Hrest.
  pose proof Hrest as ((n & Hn & Hk & Hset & Hv & Hh) & Hcount & Hlis).
  unfold Signal_get. repeat wpt_step.
  destruct (eval_listener st) as [l|] eqn:Hl.
  - destruct (Hlis l Hl) as [ln Hln]. repeat wpt_step.
    destruct (negb (_context_epoch ln =? _access_epoch n)).
    + repeat wpt_step.
      destruct (eval_untracked_sources st) as [untracked|];
        [|destruct (bool_decide (_dependencies ln !! eval_sources_index st = Some c))];
        repeat wpt_step; (split; [exact Hv|]);
        match goal with
        | |- at_rest _ _ _ _ (?g (with_nodes _ st)) =>
            apply (at_rest_access c v h k st n _ g Hrest Hn); try reflexivity; exact Hl
        end.
    + repeat wpt_step. auto.
  - repeat wpt_step. auto.
Qed.

(** A read of a computed signal at rest returns the cached value, or throws
    it when the signal is in error state; the signal stays at rest. *)
Lemma read_at_rest (rec : Ops) tracked c v h k st :
  at_rest c v h k st ->
  wpt (read rec tracked c) st
    (fun a st' => h = false /\ a = v /\ at_rest c v h k st')
    (fun e st' => h = true /\ e = v /\ at_rest c v h k st').
Proof.
  intros Hrest. unfold read.
  destruct tracked; [unfold Computed_get|unfold Computed_peek];
    wpt_step;
    (eapply wpt_conseq; [apply Computed_refresh_at_rest; exact Hrest| |contradiction]);
    cbv beta; intros changed st' (_ & Hrest' & _);
    pose proof Hrest' as ((n & Hn & Hk & Hset & Hv & Hh) & Hcount & Hlis);
    wpt_step; wpt_step; rewrite Hh; destruct h.
  - wpt_step.
    eapply wpt_conseq; [apply Signal_get_at_rest; exact Hrest'| |contradiction].
    cbv beta. intros a st'' [-> Hr]. wpt_step. auto.
  - eapply wpt_conseq; [apply Signal_get_at_rest; exact Hrest'| |contradiction].
    cbv beta. intros a st'' [-> Hr]. auto.
  - wpt_step. auto.
  - wpt_step. auto.
Qed.

(** Any further reads agree with a signal at rest and compute nothing. *)
Lemma reads_at_rest (rec : Ops) c v h k kinds st :
  at_rest c v h k st ->
  exists st',
    reads rec c kinds st
      = Some (map (fun _ => if h then inr v else inl v) kinds, st')
    /\ compute_count c st' = k.
Proof.
  revert st. induction kinds as [|tracked kinds IH]; intros st Hrest.
  - exists st. split; [reflexivity|]. apply Hrest.
  - pose proof (read_at_rest rec tracked c v h k st Hrest) as Hr.
    unfold wpt in Hr. simpl.
    destruct (read rec tracked c st) as [a st1|e st1|]; [| |contradiction];
      destruct Hr as (-> & -> & Hrest1);
      destruct (IH st1 Hrest1) as (st' & Hrun & Hc);
      exists st'; rewrite Hrun; auto.
Qed.

Lemma lor_TRACKING_bit f f' k :
  Z.lor f' TRACKING = Z.lor f TRACKING -> 0 <= k -> k <> 3 ->
  Z.testbit f' k = Z.testbit f k.
Proof.
  intros H Hk Hne.
  assert (Hb : Z.testbit (Z.lor f' TRACKING) k = Z.testbit (Z.lor f TRACKING) k)
    by now rewrite H.
  rewrite !Z.lor_spec in Hb.
  assert (Ht : Z.testbit TRACKING k = false).
  { unfold TRACKING. rewrite Z.shiftl_1_l. apply Z.pow2_bits_false. lia. }
  now rewrite Ht, !orb_false_r in Hb.
Qed.

(** The end of [Computed._refresh], from the reconciliation on: a clean
    signal comes out settled, and nothing is computed. *)
Lemma refresh_tail_settles fuel c pl ps pi (b : bool) st :
  clean c st ->
  eval_listener st = Some c ->
  wp (cleanup_context (run fuel) ;;
      modify (with_eval_listener pl) ;;
      modify (with_eval_untracked_sources ps) ;;
      modify (with_eval_sources_index pi) ;;
      let* n3 := lookup c in
      update c (with_flags (Z.land (_flags n3) (Z.lnot RUNNING))) ;;
      ret b) st
    (fun _ st' => settled c st' /\ compute_count c st' = compute_count c st)
    (fun _ _ => False).
Proof.
  intros (n & Hn & Hk & Hd & Hm & Hep) Hl.
  wp_step. wp_apply (cleanup_context_subs fuel c st Hl); [|contradiction].
  match goal with H : subs _ _ _ |- _ => destruct H as (Hg & Hlen & Hnodes) end.
  destruct (Hnodes c n Hn) as (n' & Hn' & Hs).
  destruct Hs as (Hk' & Hep' & _ & _ & _ & Hfl & _).
  destruct Hg as (_ & _ & _ & _ & _ & _ & Hclock & _ & Hcalls & _).
  repeat wp_step.
  cbn [nodes with_eval_listener with_eval_untracked_sources with_eval_sources_index] in *.
  same_node.
  split.
  - eexists. split; [cbn [nodes with_nodes]; eapply lookup_written; eassumption|].
    cbn [kind with_flags]. split; [congruence|].
    right. right. right. cbn [_epoch _flags with_flags].
    split; [lia|].
    clear - Hfl Hd Hm. flag_simpl.
    rewrite !(lor_TRACKING_bit _ _ _ Hfl) by lia. rewrite Hd, Hm. auto.
  - unfold compute_count. cbn. now rewrite Hcalls.
Qed.

(** A refresh that completes leaves the computed signal settled, and has
    invoked its compute function at most once. *)
Lemma Computed_refresh_settles fuel c n st :
  nodes st !! c = Some n ->
  kind n = KComputed ->
  -1 <= _epoch n ->
  0 <= write_clock st ->
  wp (Computed_refresh (run fuel) c) st
    (fun _ st' => settled c st'
                  /\ (compute_count c st' <= S (compute_count c st))%nat)
    (fun _ _ => False).
Proof.
  intros Hn Hk Hep Hclock. unfold Computed_refresh.
  pose proof (run_calm fuel) as Hcalm. pose proof (run_guard fuel) as Hguard.
  do 6 wp_step. same_node. cbn [write_clock with_nodes].
  destruct ((_realm_write_epoch n =? write_clock st)
            || (Z.land (Z.land (_flags n) (Z.lnot NOTIFIED))
                  (Z.lor (Z.lor TRACKING DIRTY) MAYBE_DIRTY) =? TRACKING)
            || truthy (Z.land (Z.land (_flags n) (Z.lnot NOTIFIED)) RUNNING)) eqn:Hearly.
  - wp_step. split; [|unfold compute_count; cbn; lia].
    eexists. split; [lookup_solve|]. split; [exact Hk|].
    unfold settled_node.
    cbn [_flags with_flags _realm_write_epoch _epoch write_clock with_nodes].
    rewrite land_lnot_idem.
    apply orb_true_iff in Hearly as [Hearly|Hearly];
      [apply orb_true_iff in Hearly as [Hearly|Hearly]|].
    + left. now apply Z.eqb_eq.
    + right. left. now apply Z.eqb_eq.
    + right. right. left. exact Hearly.
  - apply orb_false_iff in Hearly as [_ Hrun].
    set (s := mkSnapshot false false (truthy (Z.land (_flags n) HAS_ERROR))
                (_epoch n) (_value n)).
    do 5 wp_step. written.
    match goal with
    | |- wp _ ?sm _ _ =>
        assert (Hm : guarded c s (compute_count c st) sm
                     /\ write_clock sm = write_clock st
                     /\ 0 <= write_clock sm);
        [|remember sm as st_m eqn:Heq; clear Heq]
    end.
    { split; [|split; [reflexivity|exact Hclock]].
      split; [|reflexivity].
      eexists. split; [lookup_solve|].
      unfold is_running, s.
      cbn [kind _flags _epoch _value with_flags with_realm_write_epoch
           snap_dirty snap_maybe_dirty snap_has_error snap_epoch snap_value].
      split; [exact Hk|]. clear. flag_simpl. repeat split. }
    destruct Hm as (Hg & Hcm & Hc0).
    apply wp_conseq with
      (Q := fun (a : bool) st' => guarded c s (compute_count c st) st'
              /\ 0 <= write_clock st'
              /\ eval_listener st' = eval_listener st_m
              /\ (a = true -> -1 < _epoch n))
      (E := fun _ _ => False); [| |contradiction].
    { destruct (_epoch n >? -1) eqn:Hgt.
      - apply Z.gtb_lt in Hgt. wp_step.
        eapply wp_conseq;
          [exact (wp_and _ _ _ _ _ _ (is_stale_calm (run fuel) Hcalm c _ st_m)
                    (is_stale_guard (run fuel) Hguard c s _ c _ st_m Hg))
          |cbv beta|cbv beta; tauto].
        intros stale st' ((Hgf & _) & Hg'). wp_step.
        destruct Hgf as (_ & Hl & _ & Hw & _).
        split; [exact Hg'|]. split; [lia|]. split; [exact Hl|]. intros _. exact Hgt.
      - wp_step. cbv beta. split; [exact Hg|]. split; [exact Hc0|]. split; [reflexivity|].
        discriminate. }
    cbv beta. clear Hg Hc0. intros a st1 (Hg & Hc0 & Hl1 & Ha).
    destruct a.
    + specialize (Ha eq_refl). do 2 wp_step.
      destruct Hg as [(n1' & Hn1 & Hr) Hcount]. same_node.
      destruct Hr as (Hk1 & _ & Hd1 & Hm1 & _ & He1 & _). cbn in Hd1, Hm1, He1.
      do 3 wp_step. same_node. cbv beta. split; [|unfold compute_count in *; cbn; lia].
      eexists. split; [lookup_solve|]. split; [exact Hk1|].
      right. right. right. cbn [_epoch _flags with_flags].
      split; [lia|]. clear - Hd1 Hm1. revert Hd1 Hm1. flag_simpl.
      intros -> ->. auto.
    + clear Ha. do 5 wp_step.
      apply wp_conseq with
        (Q := fun (_ : bool) st' => clean c st' /\ eval_listener st' = Some c
                /\ compute_count c st' = S (compute_count c st))
        (E := fun _ _ => False); [| |contradiction].
      2:{ cbv beta. intros b st5 (Hclean & Hl5 & Hc5).
          wp_apply (refresh_tail_settles fuel c); [exact Hclean|exact Hl5| |contradiction].
          match goal with H : _ /\ _ |- _ => destruct H as [Hs Hc] end.
          split; [exact Hs|]. rewrite Hc, Hc5. lia. }
      wp_step. do 12 wp_step. same_node.
      match goal with
      | |- wp _ ?sm _ _ =>
          assert (Hm : guarded c s (S (compute_count c st)) sm
                       /\ 0 <= write_clock sm
                       /\ eval_listener sm = Some c);
          [|remember sm as st2 eqn:Heq; clear Heq]
      end.
      { destruct Hg as [(n1' & Hn1 & Hr) Hcount]. same_node.
        split; [split|split; [exact Hc0|reflexivity]].
        - eexists. split; [lookup_solve|]. exact Hr.
        - unfold compute_count in *. cbn [calls with_calls with_nodes
            with_read_clock with_eval_listener with_eval_untracked_sources
            with_eval_sources_index].
          rewrite count_occ_cons_eq by reflexivity. f_equal. exact Hcount. }
      clear Hg Hc0. destruct Hm as (Hg & Hc0 & Hl2).
      wp_step.
      eapply wp_conseq;
        [exact (wp_and _ _ _ _ _ _ (calm_call (run fuel) Hcalm _ st2)
                  (guard_call (run fuel) Hguard c s _ _ st2 Hg))
        |cbv beta|cbv beta];
        clear Hg; intros v st3 (((_ & Hl3 & _ & Hw3 & _) & _) & Hg);
        rewrite Hl2 in Hl3;
        destruct Hg as [(n3 & Hn3 & Hr) Hcount];
        destruct Hr as (Hk3 & _ & Hd3 & Hm3 & _ & He3 & _);
        cbn [s snap_dirty snap_maybe_dirty snap_epoch] in Hd3, Hm3, He3.
      * do 3 wp_step; same_node.
        -- do 12 wp_step. same_node. written. cbv beta.
           split; [|split; [exact Hl3|exact Hcount]].
           eexists. split; [lookup_solve|].
           cbn [kind _flags _epoch with_value with_flags with_realm_write_epoch with_epoch
                write_clock with_write_clock with_nodes].
           split; [exact Hk3|].
           split; [|split; [|lia]]; clear - Hd3 Hm3; revert Hd3 Hm3; flag_simpl; auto.
        -- wp_step. cbv beta. split; [|split; [exact Hl3|exact Hcount]].
           exists n3. split; [exact Hn3|]. split; [exact Hk3|].
           split; [exact Hd3|]. split; [exact Hm3|].
           match goal with
           | H : _ || _ = false |- _ => apply orb_false_iff in H as [_ H];
                                        apply Z.eqb_neq in H
           end. lia.
      * repeat (wp_step; same_node; written). cbv beta.
        split; [|split; [exact Hl3|exact Hcount]].
        eexists. split; [lookup_solve|].
        cbn [kind _flags _epoch with_value with_flags with_realm_write_epoch with_epoch
             write_clock with_write_clock with_nodes].
        split; [exact Hk3|].
        split; [|split; [|lia]]; clear - Hd3 Hm3; revert Hd3 Hm3; flag_simpl; auto.
Qed.

(** A first read that completes leaves the signal at rest with the outcome
    of the read as its cache, having computed it at most once. *)
Lemma read_settles fuel tracked c n st :
  nodes st !! c = Some n ->
  kind n = KComputed ->
  -1 <= _epoch n ->
  0 <= write_clock st ->
  listener_ok st ->
  wp (read (run fuel) tracked c) st
    (fun a st' => at_rest c a false (compute_count c st') st'
                  /\ (compute_count c st' <= S (compute_count c st))%nat)
    (fun e st' => at_rest c e true (compute_count c st') st'
                  /\ (compute_count c st' <= S (compute_count c st))%nat).
Proof.
  intros Hn Hk Hep Hclock Hlis.
  assert (Hrefresh : wp (Computed_refresh (run fuel) c) st
            (fun _ st' => exists v h, at_rest c v h (compute_count c st') st'
               /\ (compute_count c st' <= S (compute_count c st))%nat)
            (fun _ _ => False)).
  { eapply wp_conseq;
      [exact (wp_and _ _ _ _ _ _
                (Computed_refresh_settles fuel c n st Hn Hk Hep Hclock)
                (Computed_refresh_calm (run fuel) (run_calm fuel) c st))
      |cbv beta|cbv beta; tauto].
    intros _ st' ((Hs & Hc) & (_ & Hl & _ & _ & Hlen) & _).
    destruct Hs as (n' & Hn' & Hk' & Hset).
    exists (_value n'), (truthy (Z.land (_flags n') HAS_ERROR)).
    split; [|exact Hc]. split; [|split; [reflexivity|]].
    - exists n'. auto.
    - eapply listener_ok_mono; eassumption. }
  unfold read.
  destruct tracked; [unfold Computed_get|unfold Computed_peek];
    wp_step; (eapply wp_conseq; [exact Hrefresh|cbv beta|contradiction]);
    intros _ st' (v & h & Hrest & Hc);
    pose proof Hrest as ((n' & Hn' & Hk' & Hset & Hv & Hh) & Hcount & Hlis');
    do 2 wp_step; same_node; rewrite Hh; destruct h.
  - wp_step. apply wpt_wp.
    eapply wpt_conseq; [apply Signal_get_at_rest; exact Hrest| |contradiction].
    cbv beta. intros a st'' [-> Hr]. wp_step.
    pose proof Hr as (_ & Hc'' & _). rewrite Hc''. auto.
  - apply wpt_wp.
    eapply wpt_conseq; [apply Signal_get_at_rest; exact Hrest| |contradiction].
    cbv beta. intros a st'' [-> Hr].
    pose proof Hr as (_ & Hc'' & _). rewrite Hc''. auto.
  - wp_step. rewrite Hv. auto.
  - wp_step. rewrite Hv. auto.
Qed.

(** C6. Repeated reads of a computed signal, by [value] or [peek()], with
    nothing in between: once a first read has completed, having invoked
    the compute function at most once, every further read gives the same
    outcome (the same value returned, or the same error thrown) and
    invokes the compute function no more. *)
Theorem computed_reads_agree fuel c n tracked st o st1 :
  nodes st !! c = Some n ->
  kind n = KComputed ->
  -1 <= _epoch n ->
  0 <= write_clock st ->
  listener_ok st ->
  reads (run fuel) c [tracked] st = Some ([o], st1) ->
  (compute_count c st1 <= S (compute_count c st))%nat
  /\ forall rec kinds, exists st2,
       reads rec c kinds st1 = Some (map (fun _ => o) kinds, st2)
       /\ compute_count c st2 = compute_count c st1.
Proof.
  intros Hn Hk Hep Hclock Hlis Hreads.
  pose proof (read_settles fuel tracked c n st Hn Hk Hep Hclock Hlis) as Hr.
  unfold wp in Hr. simpl in Hreads.
  destruct (read (run fuel) tracked c st) as [a st'|e st'|]; [| |discriminate];
    injection Hreads as <- <-; destruct Hr as [Hrest Hc];
    (split; [exact Hc|]); intros rec kinds;
    exact (reads_at_rest rec c _ _ _ kinds st' Hrest).
Qed.

Lemma computed_reads_agree_witness :
  exists st1,
    reads (run 10) 1%nat [true] computed_example = Some ([inl (Num 1)], st1)
    /\ (compute_count 1%nat st1 <= S (compute_count 1%nat computed_example))%nat
    /\ forall rec kinds, exists st2,
         reads rec 1%nat kinds st1 = Some (map (fun _ => inl (Num 1)) kinds, st2)
         /\ compute_count 1%nat st2 = compute_count 1%nat st1.
Proof.
  exists (default computed_example
            (snd <$> reads (run 10) 1%nat [true] computed_example)).
  assert (Hreads : reads (run 10) 1%nat [true] computed_example
            = Some ([inl (Num 1)],
                    default computed_example
                      (snd <$> reads (run 10) 1%nat [true] computed_example)))
    by (vm_compute; reflexivity).
  split; [exact Hreads|].
  apply (computed_reads_agree 10 1%nat
           (default error_node (nodes computed_example !! 1%nat)) true
           computed_example _ _).
  - vm_compute. reflexivity.
  - vm_compute. reflexivity.
  - vm_compute. discriminate.
  - vm_compute. discriminate.
  - intros l Hl. vm_compute in Hl. discriminate Hl.
  - exact Hreads.
Defined.
(** ** C5: a compute function that throws *)

Lemma land_NOTIFIED_HAS_ERROR f :
  truthy (Z.land (Z.land f (Z.lnot NOTIFIED)) HAS_ERROR) = truthy (Z.land f HAS_ERROR).
Proof. flag_simpl. reflexivity. Qed.

(** The end of [Computed._refresh], from the reconciliation on, keeps the
    outcome that was just committed. *)
Lemma refresh_tail_keeps fuel c pl ps pi (b : bool) st n :
  nodes st !! c = Some n ->
  eval_listener st = Some c ->
  wp (cleanup_context (run fuel) ;;
      modify (with_eval_listener pl) ;;
      modify (with_eval_untracked_sources ps) ;;
      modify (with_eval_sources_index pi) ;;
      let* n3 := lookup c in
      update c (with_flags (Z.land (_flags n3) (Z.lnot RUNNING))) ;;
      ret b) st
    (fun r st' =>
       r = b
       /\ write_clock st' = write_clock st
       /\ exists n', nodes st' !! c = Some n'
            /\ kind n' = kind n
            /\ _value n' = _value n
            /\ truthy (Z.land (_flags n') HAS_ERROR) = truthy (Z.land (_flags n) HAS_ERROR)
            /\ _epoch n' = _epoch n
            /\ _realm_write_epoch n' = _realm_write_epoch n)
    (fun _ _ => False).
Proof.
  intros Hn Hl.
  wp_step. wp_apply (cleanup_context_subs fuel c st Hl); [|contradiction].
  match goal with H : subs _ _ _ |- _ => destruct H as (Hg & Hlen & Hnodes) end.
  destruct (Hnodes c n Hn) as (n' & Hn' & Hs).
  destruct Hs as (Hk' & Hep' & _ & Hv' & _ & Hfl & Hre' & _).
  destruct Hg as (_ & _ & _ & _ & _ & _ & Hclock & _).
  repeat wp_step.
  cbn [nodes with_eval_listener with_eval_untracked_sources with_eval_sources_index] in *.
  same_node. cbv beta.
  split; [reflexivity|]. split; [exact Hclock|].
  eexists. split; [cbn [nodes with_nodes]; eapply lookup_written; eassumption|].
  cbn [kind _value _epoch _realm_write_epoch _flags with_flags].
  repeat split; try assumption.
  clear - Hfl. flag_simpl. rewrite (lor_TRACKING_bit _ _ _ Hfl) by lia. reflexivity.
Qed.

(** [Computed._refresh] along the path that commits the outcome of the
    compute function. *)
Lemma Computed_refresh_commits fuel c n st st1 n1 o st2 :
  nodes st !! c = Some n ->
  kind n = KComputed ->
  exits_early n (write_clock st) = false ->
  (if _epoch n >? -1
   then is_stale (run fuel) c (Z.land (_flags n) (Z.lnot NOTIFIED)) (mark_running c n st)
        = Ok true st1
   else st1 = mark_running c n st) ->
  nodes st1 !! c = Some n1 ->
  o_call (run fuel) (_compute n1 (_value n1)) (enter_compute c n1 st1) = result o st2 ->
  throws o || truthy (Z.land (_flags n) HAS_ERROR) = true ->
  wp (Computed_refresh (run fuel) c) st
    (fun changed st' =>
       changed = true
       /\ write_clock st' = write_clock st2 + 1
       /\ exists n', nodes st' !! c = Some n'
            /\ kind n' = KComputed
            /\ _value n' = payload o
            /\ truthy (Z.land (_flags n') HAS_ERROR) = throws o
            /\ _epoch n' = write_clock st'
            /\ _realm_write_epoch n' = write_clock st')
    (fun _ _ => False).
Proof.
  intros Hn Hk Hearly Hstale Hn1 Hcall Hchange.
  pose proof (run_calm fuel) as Hcalm. pose proof (run_guard fuel) as Hguard.
  unfold Computed_refresh, exits_early in *. cbv zeta in Hearly.
  do 6 wp_step. same_node. cbn [write_clock with_nodes]. rewrite Hearly.
  apply orb_false_iff in Hearly as [_ Hrun].
  set (s := mkSnapshot false false (truthy (Z.land (_flags n) HAS_ERROR))
              (_epoch n) (_value n)).
  do 5 wp_step. written.
  match goal with
  | |- wp _ ?sm _ _ =>
      assert (Hm : sm = mark_running c n st);
      [|rewrite Hm; clear Hm]
  end.
  { unfold mark_running. cbn [nodes with_nodes]. rewrite !list_insert_insert_eq.
    reflexivity. }
  assert (Hg : guarded c s (compute_count c st) (mark_running c n st)).
  { split; [|reflexivity].
    eexists. split; [unfold mark_running; lookup_solve|].
    unfold is_running, s.
    cbn [kind _flags _epoch _value with_flags with_realm_write_epoch
         snap_dirty snap_maybe_dirty snap_has_error snap_epoch snap_value].
    split; [exact Hk|]. clear. flag_simpl. repeat split. }
  assert (Hg1 : guarded c s (compute_count c st) st1).
  { destruct (_epoch n >? -1).
    - exact (wp_inv _ _ (inl true) _ _ _
               (is_stale_guard (run fuel) Hguard c s _ c _ _ Hg) Hstale).
    - now subst st1. }
  apply wp_conseq with (Q := fun (a : bool) st' => a = false /\ st' = st1)
                       (E := fun _ _ => False); [| |contradiction].
  { destruct (_epoch n >? -1).
    - wp_step. apply (wp_result _ _ (inl true) st1); [exact Hstale|].
      wp_step. auto.
    - wp_step. auto. }
  cbv beta. intros a st1' [-> ->]. clear Hstale Hg.
  do 5 wp_step. same_node. wp_step. do 12 wp_step. same_node.
  match goal with
  | |- wp _ ?sm _ _ => change sm with (enter_compute c n1 st1)
  end.
  assert (Hg : guarded c s (S (compute_count c st)) (enter_compute c n1 st1)).
  { destruct Hg1 as [(n1' & Hn1' & Hr) Hcount]. same_node. split.
    - eexists. split; [unfold enter_compute; lookup_solve|]. exact Hr.
    - unfold compute_count, enter_compute in *. cbn [calls with_calls with_nodes
        with_read_clock with_eval_listener with_eval_untracked_sources
        with_eval_sources_index].
      rewrite count_occ_cons_eq by reflexivity. f_equal. exact Hcount. }
  pose proof (wp_inv _ _ _ _ _ _
                (wp_and _ _ _ _ _ _ (calm_call (run fuel) Hcalm _ _)
                   (guard_call (run fuel) Hguard c s _ _ _ Hg)) Hcall) as Hst2.
  assert (Hl2 : eval_listener st2 = Some c
                /\ protected (is_running s) c st2).
  { destruct o; destruct Hst2 as (((_ & Hl & _) & _) & Hp & _); auto. }
  clear Hst2 Hg Hg1. destruct Hl2 as (Hl2 & n2 & Hn2 & Hk2 & _).
  set (committed := fun (a : bool) st3 =>
         a = true /\ eval_listener st3 = Some c
         /\ write_clock st3 = write_clock st2 + 1
         /\ exists n3, nodes st3 !! c = Some n3
              /\ kind n3 = KComputed
              /\ _value n3 = payload o
              /\ truthy (Z.land (_flags n3) HAS_ERROR) = throws o
              /\ _epoch n3 = write_clock st3
              /\ _realm_write_epoch n3 = write_clock st3).
  assert (Htail : forall a st3, committed a st3 ->
            wp (cleanup_context (run fuel) ;;
                modify (with_eval_listener (eval_listener st1)) ;;
                modify (with_eval_untracked_sources (eval_untracked_sources st1)) ;;
                modify (with_eval_sources_index (eval_sources_index st1)) ;;
                let* n3 := lookup c in
                update c (with_flags (Z.land (_flags n3) (Z.lnot RUNNING))) ;;
                ret a) st3
              (fun changed st' =>
                 changed = true
                 /\ write_clock st' = write_clock st2 + 1
                 /\ exists n', nodes st' !! c = Some n'
                      /\ kind n' = KComputed
                      /\ _value n' = payload o
                      /\ truthy (Z.land (_flags n') HAS_ERROR) = throws o
                      /\ _epoch n' = write_clock st'
                      /\ _realm_write_epoch n' = write_clock st')
              (fun _ _ => False)).
  { intros a st3 (-> & Hl3 & Hw3 & n3 & Hn3 & Hk3 & Hv3 & Hh3 & He3 & Hr3).
    wp_apply (refresh_tail_keeps fuel c); [exact Hn3|exact Hl3| |contradiction].
    match goal with
    | H : _ /\ _ |- _ => destruct H as (-> & Hw & n' & Hn' & Hk' & Hv' & Hh' & He' & Hr')
    end.
    split; [reflexivity|]. split; [lia|].
    exists n'. repeat split; congruence. }
  wp_step. apply (wp_result _ _ o st2); [exact Hcall|].
  destruct o as [v|e].
  - apply wp_conseq with (Q := committed) (E := fun _ _ => False);
      [|exact Htail|contradiction].
    cbn [throws orb] in Hchange. rewrite land_NOTIFIED_HAS_ERROR, Hchange.
    cbn [orb]. repeat (wp_step; same_node; written).
    unfold committed. cbn [payload throws].
    split; [reflexivity|]. split; [exact Hl2|]. split; [reflexivity|].
    eexists. split; [lookup_solve|].
    cbn [kind _value _flags _epoch _realm_write_epoch with_value with_flags
         with_realm_write_epoch with_epoch write_clock with_write_clock with_nodes].
    split; [exact Hk2|]. split; [reflexivity|]. split; [|split; reflexivity].
    clear. flag_simpl. reflexivity.
  - cbv beta.
    apply wp_conseq with (Q := committed) (E := fun _ _ => False);
      [|exact Htail|contradiction].
    repeat (wp_step; same_node; written).
    unfold committed. cbn [payload throws].
    split; [reflexivity|]. split; [exact Hl2|]. split; [reflexivity|].
    eexists. split; [lookup_solve|].
    cbn [kind _value _flags _epoch _realm_write_epoch with_value with_flags
         with_realm_write_epoch with_epoch write_clock with_write_clock with_nodes].
    split; [exact Hk2|]. split; [reflexivity|]. split; [|split; reflexivity].
    clear. flag_simpl. reflexivity.
Qed.

(** On an acyclic graph, [Computed._refresh] returns once the compute
    function has. *)
Lemma Computed_refresh_returns rank fuel c n st st1 n1 o st2 :
  nodes st !! c = Some n ->
  kind n = KComputed ->
  exits_early n (write_clock st) = false ->
  (if _epoch n >? -1
   then is_stale (run fuel) c (Z.land (_flags n) (Z.lnot NOTIFIED)) (mark_running c n st)
        = Ok true st1
   else st1 = mark_running c n st) ->
  nodes st1 !! c = Some n1 ->
  o_call (run fuel) (_compute n1 (_value n1)) (enter_compute c n1 st1) = result o st2 ->
  acyclic rank st2 ->
  reconcilable rank c st2 ->
  (forall i, (rank i < fuel)%nat) ->
  forall a, Computed_refresh (run fuel) c st <> Halt a.
Proof.
  intros Hn Hk Hearly Hstale Hn1 Hcall Ha Hrec Hfuel.
  apply (wpt_returns _ _ (fun _ _ => True) (fun _ _ => True)).
  pose proof (run_calm fuel) as Hcalm.
  unfold Computed_refresh, exits_early in *. cbv zeta in Hearly.
  do 6 wpt_step. cbn [write_clock with_nodes]. rewrite Hearly.
  do 5 wpt_step.
  match goal with
  | |- wpt _ ?sm _ _ =>
      assert (Hm : sm = mark_running c n st);
      [|rewrite Hm; clear Hm]
  end.
  { unfold mark_running. cbn [nodes with_nodes]. rewrite !list_insert_insert_eq.
    reflexivity. }
  apply wpt_conseq with (Q := fun (a : bool) st' => a = false /\ st' = st1)
                        (E := fun _ _ => False); [| |contradiction].
  { destruct (_epoch n >? -1).
    - wpt_step. apply (wpt_result _ _ (inl true) st1); [exact Hstale|].
      wpt_step. auto.
    - wpt_step. auto. }
  cbv beta. intros a st1' [-> ->]. clear Hstale.
  cbv iota. repeat wpt_step. apply wpt_try_catch. repeat wpt_step.
  match goal with
  | |- wpt _ ?sm _ _ => change sm with (enter_compute c n1 st1)
  end.
  pose proof (wp_inv _ _ _ _ _ _ (calm_call (run fuel) Hcalm _ _) Hcall) as Hst2.
  assert (Hl2 : eval_listener st2 = Some c).
  { destruct o; destruct Hst2 as ((_ & Hl & _) & _); exact Hl. }
  clear Hst2. pose proof Hrec as (n2 & Hn2 & _).
  pose proof (same_run_refl st2) as Hrun.
  assert (Htail : forall (b : bool) st3, same_run st2 st3 ->
            wpt (cleanup_context (run fuel) ;;
                 modify (with_eval_listener (eval_listener st1)) ;;
                 modify (with_eval_untracked_sources (eval_untracked_sources st1)) ;;
                 modify (with_eval_sources_index (eval_sources_index st1)) ;;
                 let* n3 := lookup c in
                 update c (with_flags (Z.land (_flags n3) (Z.lnot RUNNING))) ;;
                 ret b) st3
              (fun _ _ => True) (fun _ _ => True)).
  { intros b st3 H3. apply (refresh_tail_returns rank).
    - destruct H3 as (_ & -> & _). exact Hl2.
    - eapply acyclic_same_graph; [apply H3|exact Ha].
    - eapply reconcilable_same_run; eauto.
    - exact Hfuel. }
  apply (wpt_result _ _ o st2); [exact Hcall|].
  destruct o as [v|e]; cbv beta.
  - apply wpt_conseq with (Q := fun _ st3 => same_run st2 st3) (E := fun _ _ => False);
      [|intros; now apply Htail|contradiction].
    repeat run_step; assumption.
  - apply wpt_conseq with (Q := fun _ st3 => same_run st2 st3) (E := fun _ _ => False);
      [|intros; now apply Htail|contradiction].
    repeat run_step; assumption.
Qed.


(** ** C8: a cleanup function that throws *)

(** [dispose_effect(effect, false)] leaves the effect without
    dependencies. *)
Lemma dispose_effect_false_empties rec e st :
  wp (dispose_effect_with rec (fun _ => ret tt) e false) st
    (fun _ st' => exists n', nodes st' !! e = Some n' /\ _dependencies n' = [])
    (fun _ _ => True).
Proof.
  unfold dispose_effect_with. do 3 wp_step.
  eapply wp_conseq;
    [apply (wp_for_each _ _ (fun _ => True) (fun _ _ => True));
     [exact I|intros; unfold wp; now destruct (o_unsubscribe _ _ _ _)]
    |cbv beta|auto].
  intros _ st' _. repeat wp_step. cbv beta.
  eexists. split; [lookup_solve|]. reflexivity.
Qed.

(** Unsubscribing only removes entries of dependants arrays. *)
Lemma shrinks_refl st : shrinks st st.
Proof. intros i m Hm. exists m. split; [exact Hm|reflexivity]. Qed.

Lemma shrinks_trans st1 st2 st3 : shrinks st1 st2 -> shrinks st2 st3 -> shrinks st1 st3.
Proof.
  intros H1 H2 i m Hm. destruct (H1 i m Hm) as (m2 & Hm2 & S2).
  destruct (H2 i m2 Hm2) as (m3 & Hm3 & S3).
  exists m3. split; [exact Hm3|]. etrans; eassumption.
Qed.

Lemma shrinks_update st i n (f : Node -> Node) :
  nodes st !! i = Some n ->
  _dependants (f n) `sublist_of` _dependants n ->
  shrinks st (with_nodes (<[i := f n]> (nodes st)) st).
Proof.
  intros Hn Hf j m Hm. cbn [nodes with_nodes].
  destruct (decide (i = j)) as [->|Hne].
  - assert (m = n) by congruence. subst m. exists (f n).
    split; [apply list_lookup_insert_eq; eapply lookup_lt_Some; eauto|exact Hf].
  - exists m. split; [now rewrite list_lookup_insert_ne|reflexivity].
Qed.

(** [_unsubscribe(t)] on the object [i]: every dependants array shrinks,
    and that of [i] has lost what [splice] removes. *)
Lemma o_unsubscribe_shrinks fuel : forall i t st,
  wp (o_unsubscribe (run fuel) i t) st
    (fun _ st' =>
       shrinks st st'
       /\ exists m m', nodes st !! i = Some m /\ nodes st' !! i = Some m'
            /\ _dependants m'
               `sublist_of` splice (_dependants m) (indexOf (_dependants m) t) 1)
    (fun _ _ => False).
Proof.
  induction fuel as [|fuel IH]; intros i t st; [exact I|].
  simpl. unfold unsubscribe. wp_step. wp_step.
  assert (Hsig : forall (Q : unit -> State -> Prop),
    (forall s1 m1, shrinks st s1 -> nodes s1 !! i = Some m1 ->
                   _dependants m1 = splice (_dependants n) (indexOf (_dependants n) t) 1 ->
                   _dependencies m1 = _dependencies n ->
                   Q tt s1) ->
    wp (Signal_unsubscribe i t) st Q (fun _ _ => False)).
  { intros Q HQ. unfold Signal_unsubscribe. repeat wp_step. same_node.
    eapply HQ.
    - apply shrinks_update; [assumption|]. cbn [_dependants with_dependants].
      apply splice_sublist.
    - lookup_solve.
    - reflexivity.
    - reflexivity. }
  destruct (kind n); [| |exact I].
  - apply Hsig. intros s1 m1 Hs1 Hm1 Hd1 _. split; [exact Hs1|].
    exists n, m1. rewrite Hd1. split; [assumption|]. split; [assumption|reflexivity].
  - unfold Computed_unsubscribe. wp_step. apply Hsig.
    intros s1 m1 Hs1 Hm1 Hd1 Hdeps1. wp_step. wp_step. same_node.
    assert (Hdone : forall s2, shrinks s1 s2 ->
              shrinks st s2
              /\ exists m m', nodes st !! i = Some m /\ nodes s2 !! i = Some m'
                   /\ _dependants m'
                      `sublist_of` splice (_dependants m) (indexOf (_dependants m) t) 1).
    { intros s2 Hs2. split; [eapply shrinks_trans; eauto|].
      destruct (Hs2 i m1 Hm1) as (m2 & Hm2 & S2).
      exists n, m2. rewrite <- Hd1. split; [assumption|]. split; assumption. }
    wp_step; [|wp_step; apply Hdone, shrinks_refl].
    wp_step. wp_step.
    match goal with
    | |- wp _ ?s _ _ =>
        assert (Hs2 : shrinks s1 s);
        [apply shrinks_update; [assumption|reflexivity]
        |remember s as s2 eqn:Heq; clear Heq]
    end.
    eapply wp_conseq;
      [apply (wp_for_each _ _ (fun s => shrinks s1 s) (fun _ _ => False));
       [exact Hs2|]| |auto]; cbv beta.
    + intros d sa _ Hsa. eapply wp_conseq; [apply IH| |auto]. cbv beta.
      intros _ sb [Hsb _]. eapply shrinks_trans; eauto.
    + intros _ sb Hsb. now apply Hdone.
Qed.

(** Unsubscribing [e] from each entry of [deps], none of which lists a
    subscriber twice, leaves [e] listed by none of them. *)
Lemma unsubscribe_all_unlists fuel e : forall deps st,
  (forall d, d ∈ deps -> exists m, nodes st !! d = Some m /\ NoDup (_dependants m)) ->
  wp (for_each deps (fun d => o_unsubscribe (run fuel) d e)) st
    (fun _ st' => shrinks st st' /\ unlisted e deps st')
    (fun _ _ => False).
Proof.
  induction deps as [|d deps IH]; intros st Hnd; simpl.
  - split; [apply shrinks_refl|]. intros d Hd. now apply elem_of_nil in Hd.
  - wp_step. eapply wp_conseq; [apply o_unsubscribe_shrinks| |auto]. cbv beta.
    intros _ s1 (Hs1 & m & m1 & Hm & Hm1 & Hsub).
    assert (Hout : e ∉ _dependants m1).
    { intros Hin. eapply elem_of_sublist in Hin; [|exact Hsub].
      assert (Hn : NoDup (_dependants m)).
      { destruct (Hnd d) as (m' & Hm' & Hn); [left|]. congruence. }
      destruct (decide (e ∈ _dependants m)) as [Hyes|Hno].
      - apply list_elem_of_split_l in Hyes as (l1 & l2 & Hl & Hl1).
        rewrite Hl in Hin, Hn. unfold indexOf in Hin.
        rewrite indexOf_from_first in Hin by assumption. simpl in Hin.
        rewrite splice_one_at in Hin.
        apply NoDup_app in Hn as (_ & _ & Hn). apply NoDup_cons in Hn as [Hn _].
        apply elem_of_app in Hin as [Hin|Hin]; contradiction.
      - apply Hno. eapply elem_of_sublist; [exact Hin|apply splice_sublist]. }
    eapply wp_conseq; [apply IH| |auto]; cbv beta.
    + intros d' Hd'. destruct (Hnd d') as (x & Hx & Hn); [now right|].
      destruct (Hs1 d' x Hx) as (x' & Hx' & Sx).
      exists x'. split; [exact Hx'|]. eapply sublist_NoDup; eauto.
    + intros _ s2 [Hs2 Hun]. split; [eapply shrinks_trans; eauto|].
      intros d' Hd'. apply elem_of_cons in Hd' as [->|Hd']; [|now apply Hun].
      destruct (Hs2 d m1 Hm1) as (m2 & Hm2 & S2). exists m2. split; [exact Hm2|].
      intros Hin. apply Hout. eapply elem_of_sublist; eauto.
Qed.

(** [dispose_effect(effect, false)] leaves the effect listed by none of
    its former dependencies. *)
Lemma dispose_effect_false_unlists fuel e n st :
  nodes st !! e = Some n ->
  (forall d, d ∈ _dependencies n ->
     exists m, nodes st !! d = Some m /\ NoDup (_dependants m)) ->
  wp (dispose_effect_with (run fuel) (fun _ => ret tt) e false) st
    (fun _ st' => unlisted e (_dependencies n) st')
    (fun _ _ => False).
Proof.
  intros Hn Hnd. unfold dispose_effect_with. do 3 wp_step. same_node.
  eapply wp_conseq; [apply unsubscribe_all_unlists; exact Hnd| |auto]. cbv beta.
  intros _ s1 [_ Hun]. repeat wp_step. cbv beta.
  intros d Hd. destruct (Hun d Hd) as (m & Hm & Hout). cbn [nodes with_nodes].
  destruct (decide (e = d)) as [->|Hne].
  - same_node. eexists. split; [eapply lookup_written; eassumption|exact Hout].
  - exists m. split; [now rewrite list_lookup_insert_ne|exact Hout].
Qed.



(** * Further properties *)

(** ** What client code can rely on *)

(** X1. Whatever a callback does through the exported functions, when it
    returns or throws the current listener is the one it found; with no
    current listener the dependency buffer and the cursor are as they were;
    the write clock has not gone back, no object has left the heap and the
    batch depth is not lower. *)
Theorem callback_keeps_tracking_context (fuel : nat) (p : prog) (st : State) :
  match exec (run fuel) p st with
  | Ok _ st' | Raise _ st' =>
      eval_listener st' = eval_listener st
      /\ (eval_listener st = None ->
          eval_untracked_sources st' = eval_untracked_sources st
          /\ eval_sources_index st' = eval_sources_index st)
      /\ write_clock st <= write_clock st'
      /\ (length (nodes st) <= length (nodes st'))%nat
      /\ batch_depth st <= batch_depth st'
  | Halt _ => True
  end.
Proof.
  pose proof (exec_calm (run fuel) (run_calm fuel) p st) as H. unfold wp in H.
  destruct (exec (run fuel) p st) as [v st'|e st'|a]; [| |exact I];
    destruct H as ((Hd & Hl & Hb & Hw & Hn) & _);
    repeat split; try assumption; try (now apply Hb); lia.
Qed.

(** X2. Inside a batch the queue is not drained: a callback that runs at
    batch depth 1 or more takes no effect off the queue and no error of an
    effect is caught, whatever it writes. *)
Theorem no_drain_inside_a_batch (fuel : nat) (p : prog) (st : State) :
  1 <= batch_depth st ->
  match exec (run fuel) p st with
  | Ok _ st' | Raise _ st' => dequeued st' = dequeued st /\ caught st' = caught st
  | Halt _ => True
  end.
Proof.
  intros Hd.
  pose proof (exec_calm (run fuel) (run_calm fuel) p st) as H. unfold wp in H.
  destruct (exec (run fuel) p st) as [v st'|e st'|a]; [| |exact I];
    destruct H as (_ & Hq); destruct (Hq Hd) as [Hc Hdq]; auto.
Qed.

Lemma no_drain_inside_a_batch_witness :
  match exec (run 10) (Write 0%nat (Num 1) (Ret Undefined)) effects_example with
  | Ok _ st' | Raise _ st' =>
      dequeued st' = dequeued effects_example /\ caught st' = caught effects_example
  | Halt _ => True
  end.
Proof.
  apply (no_drain_inside_a_batch 10 (Write 0%nat (Num 1) (Ret Undefined)) effects_example).
  vm_compute. discriminate.
Defined.

(** X3. The methods that the library calls on the objects of the graph
    never throw: [_refresh] (an error of a compute function is cached, not
    thrown), [_notify], [_subscribe] and [_unsubscribe]. *)
Theorem protocol_methods_never_throw (fuel : nat) (i t : node_id) (flag : Z)
    (st : State) (e : value) (st' : State) :
  refresh (run fuel) i st <> Raise e st'
  /\ notify (run fuel) i flag st <> Raise e st'
  /\ subscribe (run fuel) i t st <> Raise e st'
  /\ unsubscribe (run fuel) i t st <> Raise e st'.
Proof.
  pose proof (run_calm fuel) as Hc.
  pose proof (refresh_calm (run fuel) Hc i st) as H1.
  pose proof (notify_calm (run fuel) Hc i flag st) as H2.
  pose proof (subscribe_calm (run fuel) Hc i t st) as H3.
  pose proof (unsubscribe_calm (run fuel) Hc i t st) as H4.
  unfold wp in *.
  repeat split; intros Heq;
    [rewrite Heq in H1|rewrite Heq in H2|rewrite Heq in H3|rewrite Heq in H4];
    assumption.
Qed.

(** X4. Inside a batch, a callback does not disturb an effect that waits
    on the queue: it is still flagged [NOTIFIED] and still linked to the
    same next effect when the callback returns or throws. *)
Theorem queued_effect_waits (fuel : nat) (p : prog) (e : node_id)
    (next : option node_id) (st : State) :
  1 <= batch_depth st ->
  (exists n, nodes st !! e = Some n /\ kind n = KEffect
             /\ truthy (Z.land (_flags n) NOTIFIED) = true
             /\ _next_batched_effect n = next) ->
  match exec (run fuel) p st with
  | Ok _ st' | Raise _ st' =>
      exists n', nodes st' !! e = Some n' /\ kind n' = KEffect
                 /\ truthy (Z.land (_flags n') NOTIFIED) = true
                 /\ _next_batched_effect n' = next
  | Halt _ => True
  end.
Proof.
  intros Hd Hq.
  assert (Hh : held 1 e next st) by (split; assumption).
  pose proof (exec_hold (run fuel) (run_hold fuel) p 1 e next st Hh (Z.le_refl 1)) as H.
  unfold wp in H.
  destruct (exec (run fuel) p st) as [v st'|err st'|a]; [| |exact I];
    destruct H as [_ H]; exact H.
Qed.

Lemma queued_effect_waits_witness :
  match exec (run 10) (Write 0%nat (Num 1) (Ret Undefined)) drain_example with
  | Ok _ st' | Raise _ st' =>
      exists n', nodes st' !! 2%nat = Some n' /\ kind n' = KEffect
                 /\ truthy (Z.land (_flags n') NOTIFIED) = true
                 /\ _next_batched_effect n' = Some 1%nat
  | Halt _ => True
  end.
Proof.
  apply (queued_effect_waits 10 (Write 0%nat (Num 1) (Ret Undefined)) 2%nat
           (Some 1%nat) drain_example).
  - vm_compute. discriminate.
  - exists (default error_node (nodes drain_example !! 2%nat)).
    split; [vm_compute; reflexivity|].
    split; [vm_compute; reflexivity|].
    split; vm_compute; reflexivity.
Defined.

(** X5. While the compute function of a computed signal runs, nothing
    that the callback does, reading the signal itself included, invokes
    that compute function again, nor changes the cached value, the epoch,
    the error flag or the staleness flags of the signal. *)
Theorem running_computed_is_not_reentered (fuel : nat) (p : prog) (c : node_id)
    (s : Snapshot) (st : State) :
  (exists n, nodes st !! c = Some n /\ is_running s n) ->
  match exec (run fuel) p st with
  | Ok _ st' | Raise _ st' =>
      (exists n', nodes st' !! c = Some n' /\ is_running s n')
      /\ compute_count c st' = compute_count c st
  | Halt _ => True
  end.
Proof.
  intros Hr.
  assert (Hg : guarded c s (compute_count c st) st) by (split; [exact Hr|reflexivity]).
  pose proof (exec_guard (run fuel) (run_guard fuel) p c s _ st Hg) as H.
  unfold wp in H.
  destruct (exec (run fuel) p st) as [v st'|err st'|a]; [| |exact I]; exact H.
Qed.

Lemma running_computed_is_not_reentered_witness :
  match exec (run 10) (Read 0%nat (fun v => Ret v)) running_example with
  | Ok _ st' | Raise _ st' =>
      (exists n', nodes st' !! 0%nat = Some n' /\ is_running running_snapshot n')
      /\ compute_count 0%nat st' = compute_count 0%nat running_example
  | Halt _ => True
  end.
Proof.
  apply (running_computed_is_not_reentered 10 (Read 0%nat (fun v => Ret v)) 0%nat
           running_snapshot running_example).
  exists (default error_node (nodes running_example !! 0%nat)).
  split; [vm_compute; reflexivity|].
  repeat (split; [vm_compute; reflexivity|]). vm_compute. reflexivity.
Defined.

(** X6. Subscribing and unsubscribing change subscriptions and nothing
    else: every object stays in the heap with the same class, value,
    epochs, dependencies, cleanups and queue link; only dependants arrays
    and [TRACKING] flags may differ; the module-level variables are
    untouched. *)
Theorem subscriptions_change_nothing_else (fuel : nat) (i t : node_id) (st : State) :
  match subscribe (run fuel) i t st with
  | Ok _ st' => subs None st st'
  | Raise _ _ => False
  | Halt _ => True
  end
  /\ match unsubscribe (run fuel) i t st with
     | Ok _ st' => subs None st st'
     | Raise _ _ => False
     | Halt _ => True
     end.
Proof.
  split.
  - exact (subscribe_subs (run fuel) (run_subs fuel) st i t st (subs_refl None st)).
  - exact (unsubscribe_subs (run fuel) (run_subs fuel) st i t st (subs_refl None st)).
Qed.

(** ** Round trips and idempotence *)

Lemma with_nodes_same st : with_nodes (nodes st) st = st.
Proof. now destruct st. Qed.

Lemma insert_same (l : list Node) (i : node_id) (n : Node) :
  l !! i = Some n -> <[i := n]> l = l.
Proof. apply list_insert_id. Qed.

(** Evaluating a sequence of reads and writes of the object whose lookup
    is [H]. *)
Ltac run_on H :=
  repeat (first [ rewrite H | rewrite (lookup_written _ _ _ _ H) ];
          cbv beta iota;
          cbn [nodes with_nodes with_eval_listener with_eval_sources_index
               with_eval_untracked_sources with_batched_effect eval_listener
               batched_effect eval_sources_index eval_untracked_sources]).

(** X7. Subscribing a computation to a signal and then unsubscribing it
    gives back the store as it was, when the computation was not among the
    dependants before. *)
Theorem subscribe_unsubscribe_round_trip (s t : node_id) (n : Node) (st : State) :
  nodes st !! s = Some n ->
  t ∉ _dependants n ->
  (Signal_subscribe s t ;; Signal_unsubscribe s t) st = Ok tt st.
Proof.
  intros Hn Ht.
  unfold Signal_subscribe, Signal_unsubscribe, bind, lookup, update.
  run_on Hn. cbn [_dependants with_dependants].
  unfold indexOf. rewrite (indexOf_from_first (_dependants n) [] t 0 Ht).
  rewrite Z.add_0_l, splice_one_at, app_nil_r, list_insert_insert_eq.
  f_equal.
  replace (with_dependants (_dependants n) (with_dependants (_dependants n ++ [t]) n))
    with n by now destruct n.
  destruct st. unfold with_nodes. simpl in *. f_equal. apply list_insert_id. exact Hn.
Qed.

Lemma subscribe_unsubscribe_round_trip_witness :
  (Signal_subscribe 0%nat 3%nat ;; Signal_unsubscribe 0%nat 3%nat) unsubscribe_example
  = Ok tt unsubscribe_example.
Proof.
  apply (subscribe_unsubscribe_round_trip 0%nat 3%nat
           (default error_node (nodes unsubscribe_example !! 0%nat))).
  - reflexivity.
  - cbn. intros H. apply elem_of_cons in H as [H|H]; [discriminate|].
    apply elem_of_cons in H as [H|H]; [discriminate|]. now apply elem_of_nil in H.
Defined.

Lemma notified_after_notify fl flag :
  truthy (Z.land (Z.lor fl (Z.lor flag NOTIFIED)) (Z.lor NOTIFIED RUNNING)) = true.
Proof. flag_simpl. reflexivity. Qed.

(** X8. Notifying an effect twice is notifying it once: the second call
    finds it [NOTIFIED] (or [RUNNING]) and changes nothing, so that an
    effect is on the queue at most once. *)
Theorem Effect_notify_twice (e : node_id) (flag flag' : Z) (n : Node) (st : State) :
  nodes st !! e = Some n ->
  (Effect_notify e flag ;; Effect_notify e flag') st = Effect_notify e flag st.
Proof.
  intros Hn.
  unfold Effect_notify, bind, lookup, update, get_state, modify.
  rewrite Hn.
  destruct (truthy (Z.land (_flags n) (Z.lor NOTIFIED RUNNING))) eqn:Hidle;
    cbn [negb].
  - unfold ret. run_on Hn. rewrite Hidle. reflexivity.
  - run_on Hn. rewrite ?list_insert_insert_eq. run_on Hn.
    cbn [_flags with_flags with_next_batched_effect].
    rewrite notified_after_notify. reflexivity.
Qed.

Lemma Effect_notify_twice_witness :
  (Effect_notify 1%nat DIRTY ;; Effect_notify 1%nat MAYBE_DIRTY) effects_example
  = Effect_notify 1%nat DIRTY effects_example.
Proof.
  apply (Effect_notify_twice 1%nat DIRTY MAYBE_DIRTY
           (default error_node (nodes effects_example !! 1%nat))).
  vm_compute. reflexivity.
Defined.

(** X9. [cleanup(fn, throws)] called with no current listener, or while
    the current listener is a computed signal: with [throws] (the
    default) it throws the error "Cleanup function called outside of
    effect", without it it does nothing; the store is untouched and [fn]
    is not registered. *)
Theorem cleanup_outside_effect (fn : prog) (throws : bool) (st : State) :
  (eval_listener st = None
   \/ exists l n, eval_listener st = Some l /\ nodes st !! l = Some n
                  /\ kind n <> KEffect) ->
  cleanup fn throws st
  = if throws then Raise (Error "Cleanup function called outside of effect") st
    else Ok tt st.
Proof.
  intros [Hl|(l & n & Hl & Hn & Hk)];
    unfold cleanup, bind, get_state, lookup; rewrite Hl.
  - now destruct throws.
  - rewrite Hn. destruct (kind n); [| |now destruct Hk]; now destruct throws.
Qed.

Lemma cleanup_outside_effect_witness :
  cleanup (Ret Undefined) true initial_state
  = Raise (Error "Cleanup function called outside of effect") initial_state.
Proof.
  apply (cleanup_outside_effect (Ret Undefined) true initial_state).
  left. reflexivity.
Defined.

(** X10. [batch(callback)] called outside any batch runs the callback at
    batch depth 1, during which the queue is not drained, and then
    [end_batch], which drains it.  The outcome is that of the callback,
    unless the drain throws: the error of the drain then replaces it. *)
Theorem batch_flushes_after_the_callback (fuel : nat) (p : prog) (st : State) :
  batch_depth st = 0 ->
  match exec (run fuel) p (with_batch_depth 1 st) with
  | Ok v st1 =>
      dequeued st1 = dequeued st /\ caught st1 = caught st
      /\ batch (run fuel) (exec (run fuel) p) st
         = match end_batch (run fuel) st1 with
           | Ok _ st' => Ok v st'
           | Raise e st' => Raise e st'
           | Halt why => Halt why
           end
  | Raise e st1 =>
      dequeued st1 = dequeued st /\ caught st1 = caught st
      /\ batch (run fuel) (exec (run fuel) p) st
         = match end_batch (run fuel) st1 with
           | Ok _ st' => Raise e st'
           | Raise e' st' => Raise e' st'
           | Halt why => Halt why
           end
  | Halt why => batch (run fuel) (exec (run fuel) p) st = Halt why
  end.
Proof.
  intros Hd.
  pose proof (exec_calm (run fuel) (run_calm fuel) p (with_batch_depth 1 st)) as H.
  unfold wp in H.
  unfold batch, bind, get_state, start_batch, modify, try_finally.
  rewrite Hd. change (0 >? 0) with false. cbv beta iota.
  rewrite Hd. change (0 + 1) with 1.
  destruct (exec (run fuel) p (with_batch_depth 1 st)) as [v st1|e st1|a];
    [| |reflexivity];
    destruct H as (_ & Hq); destruct (Hq (Z.le_refl 1)) as [Hc Hdq];
    auto.
Qed.

Lemma batch_flushes_after_the_callback_witness :
  match exec (run 10) (Write 0%nat (Num 1) (Ret Undefined))
          (with_batch_depth 1 (store_after effects_program)) with
  | Ok v st1 =>
      dequeued st1 = dequeued (store_after effects_program)
      /\ caught st1 = caught (store_after effects_program)
      /\ batch (run 10) (exec (run 10) (Write 0%nat (Num 1) (Ret Undefined)))
           (store_after effects_program)
         = match end_batch (run 10) st1 with
           | Ok _ st' => Ok v st'
           | Raise e st' => Raise e st'
           | Halt why => Halt why
           end
  | Raise e st1 =>
      dequeued st1 = dequeued (store_after effects_program)
      /\ caught st1 = caught (store_after effects_program)
      /\ batch (run 10) (exec (run 10) (Write 0%nat (Num 1) (Ret Undefined)))
           (store_after effects_program)
         = match end_batch (run 10) st1 with
           | Ok _ st' => Raise e st'
           | Raise e' st' => Raise e' st'
           | Halt why => Halt why
           end
  | Halt why =>
      batch (run 10) (exec (run 10) (Write 0%nat (Num 1) (Ret Undefined)))
        (store_after effects_program) = Halt why
  end.
Proof.
  apply (batch_flushes_after_the_callback 10 (Write 0%nat (Num 1) (Ret Undefined))
           (store_after effects_program)).
  vm_compute. reflexivity.
Defined.

(** ** More on reads *)

(** X11. A computed signal that has been computed and carries neither
    [DIRTY] nor [MAYBE_DIRTY] is not recomputed by a read, whatever the
    write clock and whatever its dependencies hold: every read returns the
    cached value (or throws the cached error).  Only [_notify] sets those
    flags, and it reaches subscribed objects only; so a computed signal
    without subscribers keeps its first value after its sources are
    written. *)
Theorem clean_computed_is_not_recomputed (rec : Ops) (c : node_id) (n : Node)
    (kinds : list bool) (st : State) :
  nodes st !! c = Some n ->
  kind n = KComputed ->
  -1 < _epoch n ->
  truthy (Z.land (_flags n) DIRTY) = false ->
  truthy (Z.land (_flags n) MAYBE_DIRTY) = false ->
  listener_ok st ->
  exists st',
    reads rec c kinds st
    = Some (map (fun _ => if truthy (Z.land (_flags n) HAS_ERROR)
                          then inr (_value n) else inl (_value n)) kinds, st')
    /\ compute_count c st' = compute_count c st.
Proof.
  intros Hn Hk Hep Hd Hm Hlis.
  apply reads_at_rest. split; [|split; [reflexivity|exact Hlis]].
  exists n. split; [exact Hn|]. split; [exact Hk|]. split; [|split; reflexivity].
  right. right. right. auto.
Qed.

Lemma clean_computed_is_not_recomputed_witness :
  field _value 0%nat stale_example = Some (Num 2)
  /\ exists st',
       reads (run 10) 1%nat [true; false] stale_example
       = Some ([inl (Num 1); inl (Num 1)], st')
       /\ compute_count 1%nat st' = compute_count 1%nat stale_example.
Proof.
  split; [vm_compute; reflexivity|].
  destruct (clean_computed_is_not_recomputed (run 10) 1%nat
              (default error_node (nodes stale_example !! 1%nat))
              [true; false] stale_example) as (st' & Hr & Hc).
  - vm_compute. reflexivity.
  - vm_compute. reflexivity.
  - vm_compute. reflexivity.
  - vm_compute. reflexivity.
  - vm_compute. reflexivity.
  - intros l Hl. vm_compute in Hl. discriminate Hl.
  - exists st'. split; [|exact Hc]. rewrite Hr. vm_compute. reflexivity.
Defined.

(** A signal that carries the read stamp of the run of the current
    listener, or read with no current listener, is read without a trace. *)
Lemma Signal_get_stamped (s : node_id) (n : Node) (st : State) :
  nodes st !! s = Some n ->
  (forall l, eval_listener st = Some l ->
     exists ln, nodes st !! l = Some ln /\ _context_epoch ln = _access_epoch n) ->
  Signal_get s st = Ok (_value n) st.
Proof.
  intros Hn Hst.
  unfold Signal_get, bind, get_state, lookup, ret.
  rewrite Hn. cbv beta iota.
  destruct (eval_listener st) as [l|] eqn:Hl.
  - destruct (Hst l eq_refl) as (ln & Hln & He).
    rewrite Hln. cbv beta iota. rewrite He, Z.eqb_refl. cbn [negb]. cbv beta iota.
    rewrite Hn. reflexivity.
  - rewrite Hn. reflexivity.
Qed.

(** A read leaves the stamp of the run of the current listener on the
    signal. *)
Lemma Signal_get_stamps (s : node_id) (n : Node) (st : State) :
  nodes st !! s = Some n ->
  listener_ok st ->
  wpt (Signal_get s) st
    (fun a st1 =>
       a = _value n
       /\ exists n1, nodes st1 !! s = Some n1 /\ _value n1 = _value n
            /\ forall l, eval_listener st1 = Some l ->
                 exists ln, nodes st1 !! l = Some ln
                            /\ _context_epoch ln = _access_epoch n1)
    (fun _ _ => False).
Proof.
  intros Hn Hlis.
  unfold Signal_get. repeat wpt_step.
  destruct (eval_listener st) as [l|] eqn:Hl.
  - destruct (Hlis l Hl) as [ln Hln]. repeat wpt_step.
    destruct (negb (_context_epoch ln =? _access_epoch n)) eqn:Hc.
    + assert (Hstamp : forall (f : State -> State),
                nodes (f (with_nodes (<[s := with_access_epoch (_context_epoch ln) n]>
                                        (nodes st)) st))
                = <[s := with_access_epoch (_context_epoch ln) n]> (nodes st) ->
                eval_listener (f (with_nodes (<[s := with_access_epoch (_context_epoch ln) n]>
                                        (nodes st)) st)) = Some l ->
                forall l', eval_listener (f (with_nodes
                              (<[s := with_access_epoch (_context_epoch ln) n]>
                                 (nodes st)) st)) = Some l' ->
                exists ln', nodes (f (with_nodes
                              (<[s := with_access_epoch (_context_epoch ln) n]>
                                 (nodes st)) st)) !! l' = Some ln'
                  /\ _context_epoch ln' = _context_epoch ln).
      { intros f Hnodes Hlf l' Hl'. rewrite Hlf in Hl'. injection Hl' as <-.
        rewrite Hnodes.
        destruct (decide (s = l)) as [->|Hne].
        - exists (with_access_epoch (_context_epoch ln) n).
          split; [eapply lookup_written; eassumption|].
          cbn. congruence.
        - exists ln. split; [|reflexivity].
          rewrite list_lookup_insert_ne by assumption. exact Hln. }
      repeat wpt_step.
      destruct (eval_untracked_sources st) as [untracked|];
        [|destruct (bool_decide (_dependencies ln !! eval_sources_index st = Some s))];
        repeat wpt_step; (split; [reflexivity|]);
        (eexists; split; [lookup_solve|]; split; [reflexivity|]);
        match goal with
        | |- forall l0, eval_listener (?g (with_nodes _ st)) = Some l0 -> _ =>
            exact (Hstamp g eq_refl Hl)
        end.
    + repeat wpt_step. split; [reflexivity|].
      exists n. split; [exact Hn|]. split; [reflexivity|].
      intros l' Hl'. rewrite Hl in Hl'. injection Hl' as <-.
      exists ln. split; [exact Hln|].
      apply negb_false_iff, Z.eqb_eq in Hc. exact Hc.
  - repeat wpt_step. split; [reflexivity|].
    exists n. split; [exact Hn|]. split; [reflexivity|].
    intros l' Hl'. rewrite Hl in Hl'. discriminate Hl'.
Qed.



(** ** A recomputation that changes nothing *)

(** [Computed._refresh] along the path on which the compute function
    returns the value that was cached. *)
Lemma Computed_refresh_cuts_off fuel c n st st1 n1 v st2 :
  nodes st !! c = Some n ->
  kind n = KComputed ->
  exits_early n (write_clock st) = false ->
  -1 < _epoch n ->
  is_stale (run fuel) c (Z.land (_flags n) (Z.lnot NOTIFIED)) (mark_running c n st)
    = Ok true st1 ->
  nodes st1 !! c = Some n1 ->
  o_call (run fuel) (_compute n1 (_value n1)) (enter_compute c n1 st1) = Ok v st2 ->
  truthy (Z.land (_flags n) HAS_ERROR) = false ->
  strict_eq (_value n) v = true ->
  wp (Computed_refresh (run fuel) c) st
    (fun changed st' =>
       changed = false
       /\ write_clock st' = write_clock st2
       /\ exists n', nodes st' !! c = Some n'
            /\ _value n' = _value n
            /\ truthy (Z.land (_flags n') HAS_ERROR) = false
            /\ _epoch n' = _epoch n)
    (fun _ _ => False).
Proof.
  intros Hn Hk Hearly Hep Hstale Hn1 Hcall Hherr Hsame.
  pose proof (run_calm fuel) as Hcalm. pose proof (run_guard fuel) as Hguard.
  unfold Computed_refresh, exits_early in *. cbv zeta in Hearly.
  do 6 wp_step. same_node. cbn [write_clock with_nodes]. rewrite Hearly.
  apply orb_false_iff in Hearly as [_ Hrun].
  set (s := mkSnapshot false false (truthy (Z.land (_flags n) HAS_ERROR))
              (_epoch n) (_value n)).
  do 5 wp_step. written.
  match goal with
  | |- wp _ ?sm _ _ =>
      assert (Hm : sm = mark_running c n st);
      [|rewrite Hm; clear Hm]
  end.
  { unfold mark_running. cbn [nodes with_nodes]. rewrite !list_insert_insert_eq.
    reflexivity. }
  assert (Hg : guarded c s (compute_count c st) (mark_running c n st)).
  { split; [|reflexivity].
    eexists. split; [unfold mark_running; lookup_solve|].
    unfold is_running, s.
    cbn [kind _flags _epoch _value with_flags with_realm_write_epoch
         snap_dirty snap_maybe_dirty snap_has_error snap_epoch snap_value].
    split; [exact Hk|]. clear. flag_simpl. repeat split. }
  pose proof (wp_inv _ _ (inl true) _ _ _
                (is_stale_guard (run fuel) Hguard c s _ c _ _ Hg) Hstale) as Hg1.
  cbv beta iota in Hg1.
  assert (Hgt : (_epoch n >? -1) = true) by (apply Z.gtb_lt; lia).
  rewrite Hgt.
  wp_step. apply (wp_result _ _ (inl true) st1); [exact Hstale|].
  wp_step. cbn [negb]. clear Hstale Hg.
  do 5 wp_step. same_node. wp_step. do 12 wp_step. same_node.
  match goal with
  | |- wp _ ?sm _ _ => change sm with (enter_compute c n1 st1)
  end.
  assert (Hv1 : _value n1 = _value n).
  { destruct Hg1 as [(n1' & Hn1' & Hr) _]. same_node.
    destruct Hr as (_ & _ & _ & _ & _ & _ & Hv). exact Hv. }
  assert (Hg : guarded c s (S (compute_count c st)) (enter_compute c n1 st1)).
  { destruct Hg1 as [(n1' & Hn1' & Hr) Hcount]. same_node. split.
    - eexists. split; [unfold enter_compute; lookup_solve|]. exact Hr.
    - unfold compute_count, enter_compute in *. cbn [calls with_calls with_nodes
        with_read_clock with_eval_listener with_eval_untracked_sources
        with_eval_sources_index].
      rewrite count_occ_cons_eq by reflexivity. f_equal. exact Hcount. }
  pose proof (wp_inv _ _ (inl v) _ _ _
                (wp_and _ _ _ _ _ _ (calm_call (run fuel) Hcalm _ _)
                   (guard_call (run fuel) Hguard c s _ _ _ Hg)) Hcall) as Hst2.
  cbv beta iota in Hst2.
  destruct Hst2 as (((_ & Hl2 & _) & _) & (n2 & Hn2 & Hr2) & _).
  cbn [eval_listener enter_compute with_calls with_eval_sources_index
       with_eval_untracked_sources with_eval_listener] in Hl2.
  destruct Hr2 as (Hk2 & _ & _ & _ & Hh2 & He2 & Hv2).
  cbn [s snap_has_error snap_epoch snap_value] in Hh2, He2, Hv2.
  clear Hg Hg1.
  wp_step. apply (wp_result _ _ (inl v) st2); [exact Hcall|].
  do 2 wp_step. same_node.
  rewrite land_NOTIFIED_HAS_ERROR, Hherr, Hv1, Hsame, He2.
  assert (Hne : (_epoch n =? -1) = false) by (apply Z.eqb_neq; lia).
  rewrite Hne. cbn [negb orb]. wp_step.
  wp_apply (refresh_tail_keeps fuel c); [exact Hn2|exact Hl2| |contradiction].
  match goal with
  | H : _ /\ _ |- _ => destruct H as (-> & Hw & n' & Hn' & Hk' & Hv' & Hh' & He' & Hr')
  end.
  split; [reflexivity|]. split; [exact Hw|].
  exists n'. split; [exact Hn'|]. split; [congruence|]. split; [congruence|congruence].
Qed.

(** X13. A recomputation that returns the cached value again (compared
    with [===]), on a computed signal that was not in error state, is not
    a change: on a dependency graph without cycles [_refresh] returns
    false, the write clock does not tick and the epoch of the signal stays,
    so that what depends on the signal is not made stale. *)
Theorem Computed_refresh_same_value rank fuel c n st st1 n1 v st2 :
  nodes st !! c = Some n ->
  kind n = KComputed ->
  exits_early n (write_clock st) = false ->
  -1 < _epoch n ->
  is_stale (run fuel) c (Z.land (_flags n) (Z.lnot NOTIFIED)) (mark_running c n st)
    = Ok true st1 ->
  nodes st1 !! c = Some n1 ->
  o_call (run fuel) (_compute n1 (_value n1)) (enter_compute c n1 st1) = Ok v st2 ->
  truthy (Z.land (_flags n) HAS_ERROR) = false ->
  strict_eq (_value n) v = true ->
  acyclic rank st2 ->
  reconcilable rank c st2 ->
  (forall i, (rank i < fuel)%nat) ->
  exists st' n',
    Computed_refresh (run fuel) c st = Ok false st'
    /\ nodes st' !! c = Some n'
    /\ _value n' = _value n
    /\ truthy (Z.land (_flags n') HAS_ERROR) = false
    /\ _epoch n' = _epoch n
    /\ write_clock st' = write_clock st2.
Proof.
  intros Hn Hk Hearly Hep Hstale Hn1 Hcall Hherr Hsame Hacyclic Hrec Hfuel.
  assert (Hstale' : if _epoch n >? -1
                    then is_stale (run fuel) c (Z.land (_flags n) (Z.lnot NOTIFIED))
                           (mark_running c n st) = Ok true st1
                    else st1 = mark_running c n st).
  { replace (_epoch n >? -1) with true by (symmetry; apply Z.gtb_lt; lia).
    exact Hstale. }
  pose proof (Computed_refresh_returns rank fuel c n st st1 n1 (inl v) st2
                Hn Hk Hearly Hstale' Hn1 Hcall Hacyclic Hrec Hfuel) as Hreturns.
  pose proof (Computed_refresh_cuts_off fuel c n st st1 n1 v st2
                Hn Hk Hearly Hep Hstale Hn1 Hcall Hherr Hsame) as H.
  unfold wp in H.
  destruct (Computed_refresh (run fuel) c st) as [changed st'|e st'|a];
    [|contradiction|now destruct (Hreturns a)].
  destruct H as (-> & Hw & n' & Hn' & Hv' & Hh' & He').
  exists st', n'. auto 10.
Qed.

Lemma Computed_refresh_same_value_witness :
  exists st' n',
    Computed_refresh (run 10) 1%nat same_value_example = Ok false st'
    /\ nodes st' !! 1%nat = Some n'
    /\ _value n' = Num 1
    /\ truthy (Z.land (_flags n') HAS_ERROR) = false
    /\ _epoch n' = 1
    /\ write_clock st' = 3.
Proof.
  set (st1 := mark_running 1%nat same_value_node same_value_example).
  set (n1 := default error_node (nodes st1 !! 1%nat)).
  set (call := o_call (run 10) (_compute n1 (_value n1)) (enter_compute 1%nat n1 st1)).
  apply (Computed_refresh_same_value (fun i => Nat.min i 1) 10 1%nat same_value_node
           same_value_example st1 n1 (Num 1) (default st1 (final_state call))).
  - reflexivity.
  - reflexivity.
  - vm_compute. reflexivity.
  - vm_compute. reflexivity.
  - vm_compute. reflexivity.
  - vm_compute. reflexivity.
  - vm_compute. reflexivity.
  - vm_compute. reflexivity.
  - vm_compute. reflexivity.
  - apply acyclicb_sound. vm_compute. reflexivity.
  - apply reconcilableb_sound. vm_compute. reflexivity.
  - intros i. lia.
Defined.

(** ** [peek] is not tracked *)

Lemma same_tracking_refl st : same_tracking st st.
Proof. repeat split. Qed.

Lemma same_tracking_trans st1 st2 st3 :
  same_tracking st1 st2 -> same_tracking st2 st3 -> same_tracking st1 st3.
Proof. intros (? & ? & ?) (? & ? & ?). repeat split; congruence. Qed.

Lemma is_stale_loop_keep rec target deps st :
  ops_keep rec ->
  wp (is_stale_loop rec target deps) st
    (fun _ st' => same_tracking st st') (fun _ _ => False).
Proof.
  intros Hrec. revert st. induction deps as [|d deps IH]; intros st; simpl.
  - apply same_tracking_refl.
  - do 5 wp_step.
    + wp_step. apply same_tracking_refl.
    + wp_step. wp_apply Hrec; [|contradiction].
      wp_step.
      * wp_step. assumption.
      * eapply wp_conseq; [apply IH| |contradiction].
        cbv beta. intros. eapply same_tracking_trans; eassumption.
Qed.

Lemma is_stale_keep rec target flags st :
  ops_keep rec ->
  wp (is_stale rec target flags) st
    (fun _ st' => same_tracking st st') (fun _ _ => False).
Proof.
  intros Hrec. unfold is_stale. repeat wp_step; try apply same_tracking_refl.
  now apply is_stale_loop_keep.
Qed.

Ltac tracking_here :=
  cbn [eval_listener eval_untracked_sources eval_sources_index
       with_nodes with_eval_listener with_eval_sources_index
       with_eval_untracked_sources with_batched_effect with_batch_depth
       with_batch_iteration with_write_clock with_read_clock with_calls
       with_dequeued with_caught].

Lemma Computed_refresh_keep fuel c st :
  ops_keep (run fuel) ->
  wp (Computed_refresh (run fuel) c) st
    (fun _ st' => same_tracking st st') (fun _ _ => False).
Proof.
  intros Hrec. pose proof (run_calm fuel) as Hcalm.
  unfold Computed_refresh. do 6 wp_step. wp_step.
  { wp_step. unfold same_tracking. tracking_here. auto. }
  do 5 wp_step.
  match goal with
  | |- wp _ ?sm _ _ =>
      assert (Hm : same_tracking st sm) by (unfold same_tracking; tracking_here; auto);
      remember sm as st_m eqn:Heq; clear Heq
  end.
  apply wp_conseq with (Q := fun (_ : bool) st' => same_tracking st st')
                       (E := fun _ _ => False); [| |contradiction].
  { wp_step.
    - wp_step. wp_apply (is_stale_keep (run fuel)); [exact Hrec| |contradiction].
      wp_step. eapply same_tracking_trans; eassumption.
    - wp_step. exact Hm. }
  cbv beta. clear Hm. intros a st1 Hst1. wp_step.
  { repeat wp_step. unfold same_tracking in *. tracking_here. exact Hst1. }
  do 5 wp_step.
  apply wp_conseq with (Q := fun (_ : bool) st' => eval_listener st' = Some c)
                       (E := fun _ _ => False); [| |contradiction].
  2:{ cbv beta. intros b st5 Hl5. wp_step.
      wp_apply (cleanup_context_subs fuel c st5 Hl5); [|contradiction].
      repeat wp_step. unfold same_tracking in *. tracking_here. exact Hst1. }
  wp_step. do 12 wp_step.
  match goal with
  | |- wp _ ?sm _ _ =>
      assert (Hm : eval_listener sm = Some c) by reflexivity;
      remember sm as st2 eqn:Heq; clear Heq
  end.
  wp_step.
  eapply wp_conseq; [apply (calm_call (run fuel) Hcalm)|cbv beta|cbv beta];
    intros v st3 ((_ & Hl3 & _) & _); rewrite Hm in Hl3.
  - repeat wp_step; tracking_here; exact Hl3.
  - repeat wp_step. tracking_here. exact Hl3.
Qed.

Lemma run_keep fuel : ops_keep (run fuel).
Proof.
  induction fuel as [|fuel IH]; intros i st; simpl; [exact I|].
  unfold refresh. do 3 wp_step.
  - unfold Signal_refresh. wp_step. apply same_tracking_refl.
  - now apply Computed_refresh_keep.
  - wp_step.
Qed.

(** X14. [peek()] is not tracked: on a signal it returns the value and
    changes nothing; on a computed signal it may refresh the signal, and
    with it run compute functions, but when it returns or throws the
    current listener, its dependency buffer and its cursor are what they
    were, so that the signal does not enter the dependencies of the run
    that peeks. *)
Theorem peek_is_untracked (fuel : nat) (s : node_id) (st : State) :
  match peek (run fuel) s st with
  | Ok _ st' | Raise _ st' =>
      eval_listener st' = eval_listener st
      /\ eval_untracked_sources st' = eval_untracked_sources st
      /\ eval_sources_index st' = eval_sources_index st
  | Halt _ => True
  end.
Proof.
  assert (H : wp (peek (run fuel) s) st
                (fun _ st' => same_tracking st st') (fun _ st' => same_tracking st st')).
  { unfold peek. do 3 wp_step.
    - unfold Signal_peek. repeat wp_step. apply same_tracking_refl.
    - unfold Computed_peek. wp_step.
      wp_apply (Computed_refresh_keep fuel s st (run_keep fuel)); [|contradiction].
      repeat wp_step; assumption.
    - wp_step. }
  unfold wp in H. destruct (peek (run fuel) s st); [exact H|exact H|exact I].
Qed.

(** ** Effects do run *)

(** X15. [effect(fn, value)] runs the effect at once: when it returns or
    throws, the function of the new effect has been invoked (at least
    once). *)
Theorem effect_runs_at_creation (fuel : nat) (fn : value -> prog) (v : value)
    (st : State) (o : unit + value) (st' : State) :
  effect (run fuel) fn v st = result o st' ->
  (compute_count (length (nodes st)) st < compute_count (length (nodes st)) st')%nat.
Proof.
  intros Hrun.
  pose proof (run_grows fuel) as Hrec.
  assert (H : wp (effect (run fuel) fn v) st
                (fun _ st' => (length (nodes st) :: calls st) `suffix_of` calls st')
                (fun _ st' => (length (nodes st) :: calls st) `suffix_of` calls st')).
  { unfold effect. do 3 wp_step.
    eapply wp_conseq;
      [eapply (Effect_refresh_invokes (run fuel) _ _ _ Hrec);
       [cbn [nodes with_nodes]; apply list_lookup_middle; reflexivity
       |cbn [_flags]; flag_simpl; reflexivity]
      |cbv beta|cbv beta].
    - intros _ st1 H. exact H.
    - intros e st1 H. cbn [calls with_nodes] in H. grows_go. }
  assert (Hs : (length (nodes st) :: calls st) `suffix_of` calls st')
    by (pose proof (wp_inv _ _ _ _ _ _ H Hrun) as Hp; now destruct o).
  apply count_occ_suffix with (x := length (nodes st)) in Hs.
  unfold compute_count. rewrite count_occ_cons_eq in Hs by reflexivity. lia.
Qed.

Lemma effect_runs_at_creation_witness :
  exists st',
    effect (run 10) (fun _ => Ret Undefined) Undefined initial_state = Ok tt st'
    /\ (compute_count 0%nat initial_state < compute_count 0%nat st')%nat.
Proof.
  set (st' := default initial_state
                (final_state (effect (run 10) (fun _ => Ret Undefined) Undefined
                                initial_state))).
  assert (Hrun : effect (run 10) (fun _ => Ret Undefined) Undefined initial_state
                 = result (inl tt) st') by (vm_compute; reflexivity).
  exists st'. split; [exact Hrun|].
  exact (effect_runs_at_creation 10 (fun _ => Ret Undefined) Undefined initial_state
           (inl tt) st' Hrun).
Defined.

Lemma write_reaches_effect fuel s e v n m st :
  nodes st !! s = Some n ->
  kind n = KSignal ->
  _dependants n = [e] ->
  strict_eq (_value n) v = false ->
  nodes st !! e = Some m ->
  kind m = KEffect ->
  truthy (Z.land (_flags m) (Z.lor NOTIFIED RUNNING)) = false ->
  truthy (Z.land (_flags m) DISPOSED) = false ->
  batch_depth st = 0 ->
  batched_effect st = None ->
  batch_iteration st < 100 ->
  wp (Signal_set (run fuel) s v) st
    (fun _ st' => (e :: calls st) `suffix_of` calls st')
    (fun _ st' => (e :: calls st) `suffix_of` calls st').
Proof.
  intros Hn Hk Hdeps Hv Hm Hkm Hidle Hdisp Hdepth Hqueue Hiter.
  assert (Hse : s <> e) by (intros ->; same_node; kind_clash).
  unfold Signal_set. do 2 wp_step. same_node. rewrite Hk, Hv. cbn [negb].
  do 8 wp_step. cbn [batch_iteration with_write_clock].
  assert (Hlt : (batch_iteration st <? 100) = true) by (apply Z.ltb_lt; exact Hiter).
  rewrite Hlt, Hdeps. cbn [for_each]. do 3 wp_step.
  match goal with
  | |- wp _ ?sm _ _ =>
      assert (H1 : nodes sm !! e = Some m /\ batch_depth sm = 1
                   /\ batched_effect sm = None /\ calls sm = calls st);
      [|remember sm as s1 eqn:Heq; clear Heq]
  end.
  { cbn [nodes batch_depth batched_effect calls with_nodes with_batch_depth
         with_write_clock].
    rewrite !list_lookup_insert_ne by assumption. rewrite Hdepth. auto. }
  destruct H1 as (Hm1 & Hd1 & Hq1 & Hc1).
  clear H H0. rewrite <- Hc1. clear Hc1 Hn Hm Hdepth Hqueue Hiter Hlt st.
  destruct fuel as [|f]; [wp_step; exact I|].
  pose proof (run_grows (S f)) as HrecS. pose proof (run_grows f) as Hrec.
  change (o_notify (run (S f)) e DIRTY) with (notify (run f) e DIRTY).
  unfold notify. do 3 wp_step. same_node. rewrite Hkm.
  unfold Effect_notify. do 2 wp_step. same_node. rewrite Hidle. cbn [negb].
  repeat wp_step. same_node. written.
  match goal with
  | |- wp _ ?sm _ _ =>
      assert (H2 : (exists m2, nodes sm !! e = Some m2
                      /\ truthy (Z.land (_flags m2) DIRTY) = true
                      /\ truthy (Z.land (_flags m2) DISPOSED) = false
                      /\ truthy (Z.land (_flags m2) RUNNING) = false)
                   /\ batch_depth sm = 1
                   /\ batched_effect sm = Some e /\ calls sm = calls s1);
      [|remember sm as s2 eqn:Heq; clear Heq]
  end.
  { split; [|cbn; auto].
    eexists. split; [lookup_solve|].
    cbn [_flags with_flags with_next_batched_effect].
    revert Hidle Hdisp. clear. flag_simpl. intros Hidle Hdisp.
    apply orb_false_iff in Hidle as [_ Hrun].
    rewrite Hrun, Hdisp. auto. }
  destruct H2 as ((m2 & Hm2 & Hdirty & Hdisp2 & Hrun2) & Hd2 & Hq2 & Hc2).
  rewrite <- Hc2. clear Hc2 Hm1 Hd1 Hq1 s1 Hidle Hdisp Hkm m.
  unfold end_batch. do 2 wp_step. rewrite Hd2. change (1 >? 1) with false. cbv iota.
  wp_step.
  change (o_drain (run (S f)) None) with (drain_body (run f) None).
  unfold drain_body. do 2 wp_step. rewrite Hq2. do 5 wp_step.
  destruct f as [|f2]; [exact I|].
  pose proof (run_grows f2) as Hrec2.
  change (o_drain_wave (run (S f2)) (Some e) None)
    with (drain_wave_body (run f2) (Some e) None).
  unfold drain_wave_body.
  assert (Hd' : truthy (Z.land (Z.land (_flags m2) (Z.lnot NOTIFIED)) DISPOSED) = false)
    by (rewrite <- Hdisp2; clear; flag_simpl; reflexivity).
  assert (Hy' : truthy (Z.land (Z.land (_flags m2) (Z.lnot NOTIFIED)) DIRTY) = true)
    by (rewrite <- Hdirty; clear; flag_simpl; reflexivity).
  assert (Hr' : truthy (Z.land (Z.land (_flags m2) (Z.lnot NOTIFIED)) RUNNING) = false)
    by (rewrite <- Hrun2; clear; flag_simpl; reflexivity).
  do 2 wp_step.
  match goal with
  | H : nodes _ !! e = Some ?x |- _ =>
      cbn [nodes with_batch_iteration with_batched_effect] in H
  end.
  same_node. rewrite Hd'. cbn [negb].
  repeat wp_step. same_node. written.
  match goal with
  | |- wp _ ?sm _ _ =>
      assert (H3 : (exists m3, nodes sm !! e = Some m3
                      /\ truthy (Z.land (_flags m3) RUNNING) = false)
                   /\ calls sm = calls s2);
      [|remember sm as s3 eqn:Heq; clear Heq]
  end.
  { split; [|reflexivity]. eexists. split; [lookup_solve|].
    cbn [_flags with_flags with_next_batched_effect]. exact Hr'. }
  destruct H3 as ((m3 & Hm3 & Hrun3) & Hc3). rewrite <- Hc3.
  unfold is_stale. do 2 wp_step. rewrite Hy'. wp_step. cbv beta iota.
  do 2 wp_step.
  eapply wp_conseq;
    [exact (Effect_refresh_invokes (run f2) e m3 s3 Hrec2 Hm3 Hrun3)
    |cbv beta|cbv beta];
    intros ? ? Hgrown; grows_go.
Qed.

(** X16. Writing a new value to a signal, outside any batch, runs the
    effect that is subscribed to it: when the write returns or throws, the
    function of the effect has been invoked (at least once more).  Stated
    for a signal with that one subscriber, idle and not disposed of, and an
    empty queue. *)
Theorem write_runs_subscribed_effect fuel s e v n m st o st' :
  nodes st !! s = Some n ->
  kind n = KSignal ->
  _dependants n = [e] ->
  strict_eq (_value n) v = false ->
  nodes st !! e = Some m ->
  kind m = KEffect ->
  truthy (Z.land (_flags m) (Z.lor NOTIFIED RUNNING)) = false ->
  truthy (Z.land (_flags m) DISPOSED) = false ->
  batch_depth st = 0 ->
  batched_effect st = None ->
  batch_iteration st < 100 ->
  Signal_set (run fuel) s v st = result o st' ->
  (compute_count e st < compute_count e st')%nat.
Proof.
  intros Hn Hk Hdeps Hv Hm Hkm Hidle Hdisp Hdepth Hqueue Hiter Hrun.
  pose proof (write_reaches_effect fuel s e v n m st
                Hn Hk Hdeps Hv Hm Hkm Hidle Hdisp Hdepth Hqueue Hiter) as H.
  assert (Hs : (e :: calls st) `suffix_of` calls st')
    by (pose proof (wp_inv _ _ _ _ _ _ H Hrun) as Hp; now destruct o).
  apply count_occ_suffix with (x := e) in Hs.
  unfold compute_count. rewrite count_occ_cons_eq in Hs by reflexivity. exact Hs.
Qed.

Lemma write_runs_subscribed_effect_witness :
  exists st',
    Signal_set (run 10) 0%nat (Num 1) one_effect_example = Ok tt st'
    /\ (compute_count 1%nat one_effect_example < compute_count 1%nat st')%nat.
Proof.
  set (st' := default one_effect_example
                (final_state (Signal_set (run 10) 0%nat (Num 1) one_effect_example))).
  assert (Hrun : Signal_set (run 10) 0%nat (Num 1) one_effect_example
                 = result (inl tt) st') by (vm_compute; reflexivity).
  exists st'. split; [exact Hrun|].
  apply (write_runs_subscribed_effect 10 0%nat 1%nat (Num 1)
           (default error_node (nodes one_effect_example !! 0%nat))
           (default error_node (nodes one_effect_example !! 1%nat))
           one_effect_example (inl tt) st');
    first [exact Hrun | vm_compute; reflexivity].
Defined.

(** ** A computed signal is computed on its first read *)

Lemma refresh_tail_count fuel c pl ps pi (b : bool) st :
  eval_listener st = Some c ->
  wp (cleanup_context (run fuel) ;;
      modify (with_eval_listener pl) ;;
      modify (with_eval_untracked_sources ps) ;;
      modify (with_eval_sources_index pi) ;;
      let* n3 := lookup c in
      update c (with_flags (Z.land (_flags n3) (Z.lnot RUNNING))) ;;
      ret b) st
    (fun _ st' => compute_count c st' = compute_count c st)
    (fun _ _ => False).
Proof.
  intros Hl.
  wp_step. wp_apply (cleanup_context_subs fuel c st Hl); [|contradiction].
  match goal with H : subs _ _ _ |- _ => destruct H as (Hg & _) end.
  destruct Hg as (_ & _ & _ & _ & _ & _ & _ & _ & Hcalls & _).
  repeat wp_step. unfold compute_count. cbn. now rewrite Hcalls.
Qed.

Lemma Signal_get_calls s st :
  wp (Signal_get s) st (fun _ st' => calls st' = calls st) (fun _ _ => False).
Proof. unfold Signal_get. repeat wp_step; reflexivity. Qed.

(** The first refresh of a computed signal invokes its compute function
    once. *)
Lemma Computed_refresh_first fuel c n st :
  nodes st !! c = Some n ->
  kind n = KComputed ->
  _epoch n = -1 ->
  exits_early n (write_clock st) = false ->
  wp (Computed_refresh (run fuel) c) st
    (fun _ st' => compute_count c st' = S (compute_count c st))
    (fun _ _ => False).
Proof.
  intros Hn Hk Hep Hearly.
  pose proof (run_calm fuel) as Hcalm. pose proof (run_guard fuel) as Hguard.
  unfold Computed_refresh, exits_early in *. cbv zeta in Hearly.
  do 6 wp_step. same_node. cbn [write_clock with_nodes]. rewrite Hearly.
  apply orb_false_iff in Hearly as [_ Hrun].
  set (s := mkSnapshot false false (truthy (Z.land (_flags n) HAS_ERROR))
              (_epoch n) (_value n)).
  do 5 wp_step. written.
  rewrite Hep at 1. change (-1 >? -1) with false. cbv iota.
  wp_step. do 5 wp_step. same_node. written.
  apply wp_conseq with
    (Q := fun (_ : bool) st' => eval_listener st' = Some c
            /\ compute_count c st' = S (compute_count c st))
    (E := fun _ _ => False); [| |contradiction].
  2:{ cbv beta. intros b st5 (Hl5 & Hc5).
      wp_apply (refresh_tail_count fuel c); [exact Hl5| |contradiction].
      congruence. }
  wp_step. do 12 wp_step. same_node. written.
  match goal with
  | |- wp _ ?sm _ _ =>
      assert (Hm : guarded c s (S (compute_count c st)) sm
                   /\ eval_listener sm = Some c);
      [|remember sm as st2 eqn:Heq; clear Heq]
  end.
  { split; [split|reflexivity].
    - eexists. split; [lookup_solve|].
      unfold is_running, s.
      cbn [kind _flags _epoch _value with_flags with_realm_write_epoch
           with_context_epoch
           snap_dirty snap_maybe_dirty snap_has_error snap_epoch snap_value].
      split; [exact Hk|]. clear. flag_simpl. repeat split.
    - unfold compute_count. cbn [calls with_calls with_nodes
        with_read_clock with_eval_listener with_eval_untracked_sources
        with_eval_sources_index].
      rewrite count_occ_cons_eq by reflexivity. reflexivity. }
  destruct Hm as (Hg & Hl2).
  wp_step.
  eapply wp_conseq;
    [exact (wp_and _ _ _ _ _ _ (calm_call (run fuel) Hcalm _ st2)
              (guard_call (run fuel) Hguard c s _ _ st2 Hg))
    |cbv beta|cbv beta];
    clear Hg; intros v st3 (((_ & Hl3 & _) & _) & (_ & Hcount));
    rewrite Hl2 in Hl3; unfold compute_count in *;
    repeat (wp_step; same_node; written); cbv beta;
    (split; [exact Hl3|exact Hcount]).
Qed.

(** X17. A computed signal is computed by its first read, and only once:
    when the first read of a signal that was never computed returns or
    throws, its compute function has been invoked exactly once more. *)
Theorem first_read_computes_once fuel tracked c n st o st' :
  nodes st !! c = Some n ->
  kind n = KComputed ->
  _epoch n = -1 ->
  exits_early n (write_clock st) = false ->
  read (run fuel) tracked c st = result o st' ->
  compute_count c st' = S (compute_count c st).
Proof.
  intros Hn Hk Hep Hearly Hrun.
  assert (H : wp (read (run fuel) tracked c) st
                (fun _ st' => compute_count c st' = S (compute_count c st))
                (fun _ st' => compute_count c st' = S (compute_count c st))).
  { unfold read.
    destruct tracked; [unfold Computed_get|unfold Computed_peek];
      wp_step;
      (wp_apply (Computed_refresh_first fuel c n st Hn Hk Hep Hearly);
       [|contradiction]);
      do 3 wp_step; try (wp_step; assumption).
    - wp_step. wp_apply Signal_get_calls; [|contradiction].
      wp_step. unfold compute_count in *. congruence.
    - wp_apply Signal_get_calls; [|contradiction].
      unfold compute_count in *. congruence. }
  pose proof (wp_inv _ _ _ _ _ _ H Hrun) as Hp. now destruct o.
Qed.

Lemma first_read_computes_once_witness :
  exists st',
    read (run 10) true 1%nat computed_example = Ok (Num 1) st'
    /\ compute_count 1%nat st' = S (compute_count 1%nat computed_example).
Proof.
  set (st' := default computed_example
                (final_state (read (run 10) true 1%nat computed_example))).
  assert (Hrun : read (run 10) true 1%nat computed_example = result (inl (Num 1)) st')
    by (vm_compute; reflexivity).
  exists st'. split; [exact Hrun|].
  apply (first_read_computes_once 10 true 1%nat
           (default error_node (nodes computed_example !! 1%nat)) computed_example
           (inl (Num 1)) st');
    first [exact Hrun | vm_compute; reflexivity].
Defined.
(** ** A computed signal that depends on itself *)

Lemma self_subscribe_never_returns (c : node_id) (fuel : nat) :
  forall t n st,
    nodes st !! c = Some n ->
    kind n = KComputed ->
    _dependencies n = [c] ->
    _dependants n = [] ->
    o_subscribe (run fuel) c t st = Halt OutOfFuel.
Proof.
  induction fuel as [|fuel IH]; intros t n st Hn Hk Hdeps Hnone; [reflexivity|].
  simpl. unfold subscribe, Computed_subscribe, bind, lookup, update.
  rewrite Hn, Hk, Hn, Hnone. cbn [length Nat.ltb Nat.leb]. rewrite Hn.
  rewrite Hdeps. cbn [for_each]. unfold bind.
  erewrite IH; [reflexivity| | | |]; cbn [nodes with_nodes].
  - eapply lookup_written; eassumption.
  - exact Hk.
  - exact Hdeps.
  - exact Hnone.
Qed.

(** X18. [_subscribe] on a computed signal that is its own dependency and
    has no subscriber yet does not return: whatever the number of nested
    calls allowed, the call exceeds it.  The first subscription walks the
    dependency array and subscribes the signal to itself before it is
    listed as having a subscriber, and so on without end. *)
Theorem subscribe_to_self_dependent_diverges (fuel : nat) (c t : node_id) (n : Node)
    (st : State) :
  nodes st !! c = Some n ->
  kind n = KComputed ->
  _dependencies n = [c] ->
  _dependants n = [] ->
  Computed_subscribe (run fuel) c t st = Halt OutOfFuel.
Proof.
  intros Hn Hk Hdeps Hnone.
  unfold Computed_subscribe, bind, lookup, update.
  rewrite Hn, Hnone. cbn [length Nat.ltb Nat.leb]. rewrite Hn.
  rewrite Hdeps. cbn [for_each]. unfold bind.
  erewrite (self_subscribe_never_returns c fuel); [reflexivity| | | |];
    cbn [nodes with_nodes].
  - eapply lookup_written; eassumption.
  - exact Hk.
  - exact Hdeps.
  - exact Hnone.
Qed.

Lemma subscribe_to_self_dependent_diverges_witness :
  field _dependencies 0%nat self_reading_example = Some [0%nat]
  /\ Computed_subscribe (run 10) 0%nat 1%nat self_reading_example = Halt OutOfFuel.
Proof.
  split; [vm_compute; reflexivity|].
  apply (subscribe_to_self_dependent_diverges 10 0%nat 1%nat
           (default error_node (nodes self_reading_example !! 0%nat))
           self_reading_example);
    vm_compute; reflexivity.
Defined.
